(** * GL stream buffers (src/common/gl/stream_buffer.cpp)

    A shallow embedding of the three stream-buffer backends and of the
    capability-selecting factory, followed by the properties of the
    design document that were checked against it.

    Conventions.
    - A [u32] is a [Z] in [0, 2^32); every arithmetic operation of the
      source is followed by its wrap-around, written [u32 (...)].
    - The C++ object and the part of the GL context it talks to are
      threaded explicitly: each method takes the object before the call
      and returns the object after it, or a [fault].
    - [DebugAssert] is modelled as it behaves in a debug build: a failed
      assertion is the fault [AssertFailed].  An index outside the
      sixteen-slot fence array is [OutOfBounds]; a division by zero is
      [DivideByZero].
    - The GL calls a method issues are appended to [gl_calls], oldest
      first.  Sync objects are numbered in creation order.

    The host interface (src/core/host_interface.cpp) is embedded the same
    way after the stream buffers: paths are lists of characters, the
    calls on the system, the streams, the audio stream and the display are
    appended to [host_calls], and a result is [None] where the behaviour
    of the C++ code is undefined. *)

From Stdlib Require Import Ascii String.
From Stdlib Require Import ZArith Lia Bool List.
From stdpp Require Import base list.
Import ListNotations.
Local Open Scope Z_scope.

(** ** Machine integers and fallible computations *)

Definition u32 (z : Z) : Z := z mod 2 ^ 32.

Inductive fault : Type :=
| AssertFailed
| OutOfBounds
| DivideByZero.

Inductive result (A : Type) : Type :=
| Ok (a : A)
| Fault (f : fault).

Arguments Ok {A} a.
Arguments Fault {A} f.

Definition bind {A B : Type} (r : result A) (k : A -> result B) : result B :=
  match r with
  | Ok a => k a
  | Fault f => Fault f
  end.

Notation "'do' x <- r ; k" := (bind r (fun x => k))
  (at level 20, x pattern, r at level 100, k at level 200, only parsing).

(** [a / b] on [u32], undefined for [b = 0]. *)
Definition udiv (a b : Z) : result Z :=
  if b =? 0 then Fault DivideByZero else Ok (a / b).

(** [DebugAssert(cond)]. *)
Definition DebugAssert (cond : bool) : result unit :=
  if cond then Ok tt else Fault AssertFailed.

(** Modelled from the spec: [Common::AlignUp] lives in common/align.h,
    which is not part of the sources at hand.  The design document only
    says that the position is aligned up to the requested alignment; the
    usual rounding formula on [u32] is used. *)
Definition AlignUp (value alignment : Z) : result Z :=
  do q <- udiv (u32 (value + u32 (alignment - 1))) alignment ;
  Ok (u32 (q * alignment)).

(** ** The GL context, as far as the stream buffers use it *)

Definition GLsync : Type := nat.

Inductive event : Type :=
| glGetError
| glGenBuffers (buffer : Z)
| glBufferStorage (target size flags : Z)
| glBufferStorageEXT (target size flags : Z)
| glMapBufferRange (target offset length access : Z)
| glBindBuffer (target buffer : Z)
| glBufferSubData (target offset size : Z)
| glBufferData (target size : Z)
| glFlushMappedBufferRange (target offset length : Z)
| glUnmapBuffer (target : Z)
| glDeleteBuffers (buffer : Z)
(* [m_sync_objects[slot] = glFenceSync(...)], with the object returned *)
| glFenceSync (slot : Z) (sync : GLsync)
| glClientWaitSync (sync : option GLsync)
| glDeleteSync (sync : option GLsync)
(* marker: [AllocateSpace] entered its wrap-around branch *)
| rewind.

Record GLstate : Type := mkGL {
  gl_calls : list event;
  gl_next_sync : GLsync;
  gl_buffer_data : list Byte.byte
}.

Definition gl_emit (es : list event) (g : GLstate) : GLstate :=
  mkGL (gl_calls g ++ es) (gl_next_sync g) (gl_buffer_data g).

(** [glFenceSync] is taken to succeed: it returns a new sync object. *)
Definition gl_new_sync (slot : Z) (g : GLstate) : GLstate :=
  mkGL (gl_calls g ++ [glFenceSync slot (gl_next_sync g)])
       (S (gl_next_sync g)) (gl_buffer_data g).

Definition gl_upload (es : list event) (data : list Byte.byte) (g : GLstate)
  : GLstate :=
  mkGL (gl_calls g ++ es) (gl_next_sync g) data.

Definition gl_init : GLstate := mkGL [] O [].

(** What the driver answers while a buffer is being created: the
    capabilities reported by the loader, and the outcome of the calls the
    [Create] functions check. *)
Record Driver : Type := mkDriver {
  GLAD_GL_VERSION_4_4 : bool;
  GLAD_GL_ARB_buffer_storage : bool;
  GLAD_GL_EXT_buffer_storage : bool;
  (* name handed out by [glGenBuffers] *)
  gen_buffer : Z;
  (* [glGetError() != GL_NO_ERROR] after the storage of a persistent
     buffer was requested *)
  storage_error : bool;
  (* [glMapBufferRange] returned a non-null pointer *)
  mapping_succeeds : bool;
  (* [glGetError() != GL_NO_ERROR] after [glBufferData] allocated a
     plain buffer *)
  data_error : bool
}.

Definition GL_MAP_WRITE_BIT : Z := 0x0002.
Definition GL_MAP_FLUSH_EXPLICIT_BIT : Z := 0x0010.
Definition GL_MAP_PERSISTENT_BIT : Z := 0x0040.
Definition GL_MAP_COHERENT_BIT : Z := 0x0080.

(** A [std::unique_ptr]: an object, or nothing (with the GL context as the
    failed attempt left it). *)
Inductive unique_ptr (X : Type) : Type :=
| instance (x : X)
| empty (g : GLstate).

Arguments instance {X} x.
Arguments empty {X} g.

Definition is_empty {X : Type} (p : unique_ptr X) : bool :=
  match p with
  | instance _ => false
  | empty _ => true
  end.

(** The pointers [Map] hands out: into the staging buffer of a naive
    backend, or into the persistent mapping. *)
Inductive pointer : Type :=
| cpu_buffer_data (offset : Z)   (* m_cpu_buffer.data() + offset *)
| mapped_ptr (offset : Z).       (* m_mapped_ptr + offset *)

(** Modelled from the spec: [MappingResult] is declared in
    stream_buffer.h, which is not part of the sources at hand.  The
    fields follow the design document (pointer, byte offset, offset in
    alignment units, number of elements) in the order of the aggregate
    initialisers of the [Map] functions. *)
Record MappingResult : Type := mkMappingResult {
  mr_pointer : pointer;
  buffer_offset : Z;
  index_aligned : Z;
  space_aligned : Z
}.

(** ** The two naive backends *)

(** Both classes have the same members: those of the base class
    ([m_target], [m_buffer_id], [m_size], here with the prefix [n_]) and
    the staging buffer. *)
Record NaiveStreamBuffer : Type := mkNaive {
  n_target : Z;
  n_buffer_id : Z;
  n_size : Z;
  m_cpu_buffer : list Byte.byte;
  n_gl : GLstate
}.

(** [glGenBuffers], [glBindBuffer], [glBufferData(target, size, nullptr,
    GL_STREAM_DRAW)] between two [glGetError]: the prologue shared by the
    [Create] functions of the naive backends. *)
Definition gl_allocate (buffer_id target size : Z) (g : GLstate) : GLstate :=
  gl_upload [glGetError; glGenBuffers buffer_id;
             glBindBuffer target buffer_id;
             glBufferData target size; glGetError]
            (replicate (Z.to_nat size) Byte.x00) g.

Module BufferSubDataStreamBuffer.

Definition Create (d : Driver) (target size : Z) (g : GLstate)
  : unique_ptr NaiveStreamBuffer :=
  let buffer_id := gen_buffer d in
  let g1 := gl_allocate buffer_id target size g in
  if data_error d then empty (gl_emit [glDeleteBuffers buffer_id] g1)
  else instance (mkNaive target buffer_id size
                   (replicate (Z.to_nat size) Byte.x00) g1).

Definition Map (alignment min_size : Z) (b : NaiveStreamBuffer)
  : result (MappingResult * NaiveStreamBuffer) :=
  do space <- udiv (n_size b) alignment ;
  Ok (mkMappingResult (cpu_buffer_data 0) 0 0 space, b).

Definition Unmap (used_size : Z) (b : NaiveStreamBuffer)
  : result NaiveStreamBuffer :=
  if used_size =? 0 then Ok b else
  let n := Z.to_nat used_size in
  let data := take n (m_cpu_buffer b) ++ drop n (gl_buffer_data (n_gl b)) in
  Ok (mkNaive (n_target b) (n_buffer_id b) (n_size b) (m_cpu_buffer b)
        (gl_upload [glBindBuffer (n_target b) (n_buffer_id b);
                    glBufferSubData (n_target b) 0 used_size]
                   data (n_gl b))).

End BufferSubDataStreamBuffer.

Module BufferDataStreamBuffer.

Definition Create (d : Driver) (target size : Z) (g : GLstate)
  : unique_ptr NaiveStreamBuffer :=
  let buffer_id := gen_buffer d in
  let g1 := gl_allocate buffer_id target size g in
  if data_error d then empty (gl_emit [glDeleteBuffers buffer_id] g1)
  else instance (mkNaive target buffer_id size
                   (replicate (Z.to_nat size) Byte.x00) g1).

Definition Map (alignment min_size : Z) (b : NaiveStreamBuffer)
  : result (MappingResult * NaiveStreamBuffer) :=
  do space <- udiv (n_size b) alignment ;
  Ok (mkMappingResult (cpu_buffer_data 0) 0 0 space, b).

Definition Unmap (used_size : Z) (b : NaiveStreamBuffer)
  : result NaiveStreamBuffer :=
  if used_size =? 0 then Ok b else
  let data := take (Z.to_nat used_size) (m_cpu_buffer b) in
  Ok (mkNaive (n_target b) (n_buffer_id b) (n_size b) (m_cpu_buffer b)
        (gl_upload [glBindBuffer (n_target b) (n_buffer_id b);
                    glBufferData (n_target b) used_size]
                   data (n_gl b))).

End BufferDataStreamBuffer.

(** ** The ring of fenced blocks: [SyncingStreamBuffer] *)

Definition NUM_SYNC_POINTS : Z := 16.

(** The members of [SyncingStreamBuffer] and of its base class, the
    [m_coherent] flag of [BufferStorageStreamBuffer], and the GL context.
    A slot of [m_sync_objects] is [None] for a null [GLsync]. *)
Record SyncingStreamBuffer : Type := mkSyncing {
  m_target : Z;
  m_buffer_id : Z;
  m_size : Z;
  m_position : Z;
  m_used_block_index : Z;
  m_available_block_index : Z;
  m_bytes_per_block : Z;
  m_sync_objects : list (option GLsync);
  m_coherent : bool;
  gl : GLstate
}.

Definition set_position (p : Z) (b : SyncingStreamBuffer) :=
  mkSyncing (m_target b) (m_buffer_id b) (m_size b) p (m_used_block_index b)
    (m_available_block_index b) (m_bytes_per_block b) (m_sync_objects b)
    (m_coherent b) (gl b).

Definition set_used (u : Z) (b : SyncingStreamBuffer) :=
  mkSyncing (m_target b) (m_buffer_id b) (m_size b) (m_position b) u
    (m_available_block_index b) (m_bytes_per_block b) (m_sync_objects b)
    (m_coherent b) (gl b).

Definition set_available (a : Z) (b : SyncingStreamBuffer) :=
  mkSyncing (m_target b) (m_buffer_id b) (m_size b) (m_position b)
    (m_used_block_index b) a (m_bytes_per_block b) (m_sync_objects b)
    (m_coherent b) (gl b).

Definition set_sync (i : Z) (s : option GLsync) (b : SyncingStreamBuffer) :=
  mkSyncing (m_target b) (m_buffer_id b) (m_size b) (m_position b)
    (m_used_block_index b) (m_available_block_index b) (m_bytes_per_block b)
    (<[Z.to_nat i := s]> (m_sync_objects b)) (m_coherent b) (gl b).

Definition set_gl (g : GLstate) (b : SyncingStreamBuffer) :=
  mkSyncing (m_target b) (m_buffer_id b) (m_size b) (m_position b)
    (m_used_block_index b) (m_available_block_index b) (m_bytes_per_block b)
    (m_sync_objects b) (m_coherent b) g.

Definition emit (es : list event) (b : SyncingStreamBuffer) :=
  set_gl (gl_emit es (gl b)) b.

(** [m_sync_objects[i]]: reading outside the array is a fault. *)
Definition sync_at (i : Z) (b : SyncingStreamBuffer) : result (option GLsync) :=
  if (0 <=? i) && (i <? NUM_SYNC_POINTS) then
    match m_sync_objects b !! Z.to_nat i with
    | Some s => Ok s
    | None => Fault OutOfBounds
    end
  else Fault OutOfBounds.

(** The constructor, with the member initialisers of the class. *)
Definition construct (target buffer_id size : Z) (coherent : bool) (g : GLstate)
  : SyncingStreamBuffer :=
  mkSyncing target buffer_id size 0 0 NUM_SYNC_POINTS
    (u32 (u32 (size + NUM_SYNC_POINTS) - 1) / NUM_SYNC_POINTS)
    (replicate (Z.to_nat NUM_SYNC_POINTS) None) coherent g.

Definition GetSyncIndexForOffset (offset : Z) (b : SyncingStreamBuffer)
  : result Z :=
  udiv offset (m_bytes_per_block b).

(** One turn of the loop of [AddSyncsForOffset]. *)
Definition AddSyncs_body (b : SyncingStreamBuffer) : result SyncingStreamBuffer :=
  let i := m_used_block_index b in
  do s <- sync_at i b ;
  do _ <- DebugAssert (negb (bool_decide (is_Some s))) ;
  let b1 := set_sync i (Some (gl_next_sync (gl b)))
              (set_gl (gl_new_sync i (gl b)) b) in
  Ok (set_used (u32 (i + 1)) b1).

(** [for (; m_used_block_index < end; m_used_block_index++)], unrolled over
    the number of turns that remain. *)
Fixpoint AddSyncs_loop (turns : nat) (en : Z) (b : SyncingStreamBuffer)
  : result SyncingStreamBuffer :=
  match turns with
  | O => Ok b
  | S k =>
      if m_used_block_index b <? en then
        do b1 <- AddSyncs_body b ; AddSyncs_loop k en b1
      else Ok b
  end.

Definition AddSyncsForOffset (offset : Z) (b : SyncingStreamBuffer)
  : result SyncingStreamBuffer :=
  do en <- GetSyncIndexForOffset offset b ;
  AddSyncs_loop (Z.to_nat (en - m_used_block_index b)) en b.

(** [WaitForSync(m_sync_objects[i])]. *)
Definition WaitForSync (i : Z) (b : SyncingStreamBuffer)
  : result SyncingStreamBuffer :=
  do s <- sync_at i b ;
  Ok (set_sync i None (emit [glClientWaitSync s; glDeleteSync s] b)).

Definition EnsureSyncs_body (b : SyncingStreamBuffer)
  : result SyncingStreamBuffer :=
  let i := m_available_block_index b in
  do s <- sync_at i b ;
  do _ <- DebugAssert (bool_decide (is_Some s)) ;
  do b1 <- WaitForSync i b ;
  Ok (set_available (u32 (i + 1)) b1).

Fixpoint EnsureSyncs_loop (turns : nat) (en : Z) (b : SyncingStreamBuffer)
  : result SyncingStreamBuffer :=
  match turns with
  | O => Ok b
  | S k =>
      if m_available_block_index b <? en then
        do b1 <- EnsureSyncs_body b ; EnsureSyncs_loop k en b1
      else Ok b
  end.

Definition EnsureSyncsWaitedForOffset (offset : Z) (b : SyncingStreamBuffer)
  : result SyncingStreamBuffer :=
  do idx <- GetSyncIndexForOffset offset b ;
  let en := Z.min (u32 (idx + 1)) NUM_SYNC_POINTS in
  EnsureSyncs_loop (Z.to_nat (en - m_available_block_index b)) en b.

Definition AllocateSpace (size : Z) (b : SyncingStreamBuffer)
  : result SyncingStreamBuffer :=
  (* add sync objects for writes since the last allocation *)
  do b1 <- AddSyncsForOffset (m_position b) b ;
  (* wait for sync objects for the space we want to use *)
  do b2 <- EnsureSyncsWaitedForOffset (u32 (m_position b1 + size)) b1 ;
  (* wrap-around? *)
  if u32 (m_position b2 + size) >? m_size b2 then
    let b3 := emit [rewind] b2 in
    (* current position ... buffer end *)
    do b4 <- AddSyncsForOffset (m_size b3) b3 ;
    (* rewind, and try again *)
    let b5 := set_position 0 b4 in
    (* wait for the sync at the start of the buffer *)
    do b6 <- WaitForSync 0 b5 ;
    let b7 := set_available 1 b6 in
    (* and however much more we need to satisfy the allocation *)
    do b8 <- EnsureSyncsWaitedForOffset size b7 ;
    Ok (set_used 0 b8)
  else Ok b2.

(** [~SyncingStreamBuffer]:
    [for (u32 i = m_available_block_index; i <= m_used_block_index; i++)]. *)
Fixpoint destroy_loop (turns : nat) (i : Z) (b : SyncingStreamBuffer)
  : result SyncingStreamBuffer :=
  match turns with
  | O => Ok b
  | S k =>
      if i <=? m_used_block_index b then
        do s <- sync_at i b ;
        do _ <- DebugAssert (bool_decide (is_Some s)) ;
        destroy_loop k (u32 (i + 1)) (emit [glDeleteSync s] b)
      else Ok b
  end.

Definition destroy_syncing (b : SyncingStreamBuffer) : result SyncingStreamBuffer :=
  destroy_loop
    (Z.to_nat (m_used_block_index b + 1 - m_available_block_index b))
    (m_available_block_index b) b.

(** ** The persistent-mapped backend *)

Module BufferStorageStreamBuffer.

Definition Map (alignment min_size : Z) (b : SyncingStreamBuffer)
  : result (MappingResult * SyncingStreamBuffer) :=
  do b1 <- (if m_position b >? 0 then
              do p <- AlignUp (m_position b) alignment ;
              Ok (set_position p b)
            else Ok b) ;
  do b2 <- AllocateSpace min_size b1 ;
  let limit := u32 (m_available_block_index b2 * m_bytes_per_block b2) in
  do _ <- DebugAssert (u32 (m_position b2 + min_size) <=? limit) ;
  let free_space_in_block := u32 (limit - m_position b2) in
  do idx <- udiv (m_position b2) alignment ;
  do space <- udiv free_space_in_block alignment ;
  Ok (mkMappingResult (mapped_ptr (m_position b2)) (m_position b2) idx space,
      b2).

Definition Unmap (used_size : Z) (b : SyncingStreamBuffer)
  : result SyncingStreamBuffer :=
  do _ <- DebugAssert (u32 (m_position b + used_size) <=? m_size b) ;
  let b1 :=
    if m_coherent b then b
    else emit [glBindBuffer (m_target b) (m_buffer_id b);
               glFlushMappedBufferRange (m_target b) (m_position b) used_size]
              b in
  Ok (set_position (u32 (m_position b1 + used_size)) b1).

(** The destructors run from the most derived class to the base:
    unmap, release the fences, delete the buffer object. *)
Definition destroy (b : SyncingStreamBuffer) : result GLstate :=
  let b1 := emit [glBindBuffer (m_target b) (m_buffer_id b);
                  glUnmapBuffer (m_target b)] b in
  do b2 <- destroy_syncing b1 ;
  Ok (gl_emit [glDeleteBuffers (m_buffer_id b2)] (gl b2)).

Section Construction.

(** [Assert] is defined in common/assert.h, which is not part of the
    sources at hand; it is left open what the macro does when its
    condition is false. *)
Variable Assert : bool -> result unit.

Definition Create (d : Driver) (target size : Z) (coherent : bool)
    (g : GLstate) : result (unique_ptr SyncingStreamBuffer) :=
  let buffer_id := gen_buffer d in
  let g1 := gl_emit [glGetError; glGenBuffers buffer_id;
                     glBindBuffer target buffer_id] g in
  let flags :=
    Z.lor (Z.lor GL_MAP_WRITE_BIT GL_MAP_PERSISTENT_BIT)
          (if coherent then GL_MAP_COHERENT_BIT else 0) in
  let map_flags :=
    Z.lor (Z.lor GL_MAP_WRITE_BIT GL_MAP_PERSISTENT_BIT)
          (if coherent then 0 else GL_MAP_FLUSH_EXPLICIT_BIT) in
  let g2 :=
    if GLAD_GL_VERSION_4_4 d || GLAD_GL_ARB_buffer_storage d then
      gl_emit [glBufferStorage target size flags] g1
    else if GLAD_GL_EXT_buffer_storage d then
      gl_emit [glBufferStorageEXT target size flags] g1
    else g1 in
  let g3 := gl_emit [glGetError] g2 in
  if storage_error d then
    Ok (empty (gl_emit [glDeleteBuffers buffer_id] g3))
  else
    let g4 := gl_emit [glMapBufferRange target 0 size map_flags] g3 in
    do _ <- Assert (mapping_succeeds d) ;
    Ok (instance (construct target buffer_id size coherent g4)).

End Construction.

End BufferStorageStreamBuffer.

(** ** The factory *)

Inductive backend : Type :=
| BufferSubData (b : NaiveStreamBuffer)
| BufferData (b : NaiveStreamBuffer)
| BufferStorage (b : SyncingStreamBuffer).

Definition upcast {X : Type} (f : X -> backend) (p : unique_ptr X)
  : unique_ptr backend :=
  match p with
  | instance x => instance (f x)
  | empty g => empty g
  end.

Module StreamBuffer.

Definition Create (Assert : bool -> result unit) (d : Driver)
    (target size : Z) (g : GLstate) : result (unique_ptr backend) :=
  if GLAD_GL_VERSION_4_4 d || GLAD_GL_ARB_buffer_storage d
     || GLAD_GL_EXT_buffer_storage d then
    do buf <- BufferStorageStreamBuffer.Create Assert d target size true g ;
    match buf with
    | instance b => Ok (instance (BufferStorage b))
    | empty g1 =>
        Ok (upcast BufferData (BufferDataStreamBuffer.Create d target size g1))
    end
  else
    Ok (upcast BufferData (BufferDataStreamBuffer.Create d target size g)).

End StreamBuffer.

(** Two readings of the [Assert] macro: it stops the program, or it is
    compiled out. *)
Definition Assert_fatal (cond : bool) : result unit :=
  if cond then Ok tt else Fault AssertFailed.

Definition Assert_ignored (cond : bool) : result unit := Ok tt.

(** ** Sequences of calls made by the single producer *)

Inductive call : Type :=
| Map_call (alignment min_size : Z)
| Unmap_call (used_size : Z).

Definition step (c : call) (b : SyncingStreamBuffer) : result SyncingStreamBuffer :=
  match c with
  | Map_call alignment min_size =>
      do r <- BufferStorageStreamBuffer.Map alignment min_size b ; Ok (snd r)
  | Unmap_call used_size => BufferStorageStreamBuffer.Unmap used_size b
  end.

Fixpoint run (cs : list call) (b : SyncingStreamBuffer)
  : result SyncingStreamBuffer :=
  match cs with
  | [] => Ok b
  | c :: cs' => do b1 <- step c b ; run cs' b1
  end.

(** [n] rounds of [Map(alignment, size)] followed by [Unmap(size)]. *)
Fixpoint rounds (n : nat) (alignment size : Z) : list call :=
  match n with
  | O => []
  | S k => Map_call alignment size :: Unmap_call size :: rounds k alignment size
  end.

(** The events a call appended to the log of [b]. *)
Definition new_events (b b' : SyncingStreamBuffer) : list event :=
  drop (length (gl_calls (gl b))) (gl_calls (gl b')).

(** Fences created and not yet deleted, from the log of GL calls. *)
Definition is_delete_of (f : GLsync) (e : event) : bool :=
  match e with
  | glDeleteSync (Some g) => Nat.eqb f g
  | _ => false
  end.

Fixpoint live_syncs (log : list event) : list GLsync :=
  match log with
  | [] => []
  | glFenceSync _ f :: rest =>
      if existsb (is_delete_of f) rest then live_syncs rest
      else f :: live_syncs rest
  | _ :: rest => live_syncs rest
  end.

(** Classifying events. *)
Definition is_fence (e : event) : bool :=
  match e with glFenceSync _ _ => true | _ => false end.

Definition is_wait (e : event) : bool :=
  match e with glClientWaitSync _ => true | _ => false end.

Definition is_delete (e : event) : bool :=
  match e with glDeleteSync _ => true | _ => false end.

Definition is_wait_or_delete (e : event) : bool := is_wait e || is_delete e.


(** ** Vocabulary of the properties *)

(** The persistent-mapped buffer right after construction. *)
Definition fresh_buffer (target buffer_id : Z) (coherent : bool) (size : Z)
  : SyncingStreamBuffer :=
  construct target buffer_id size coherent gl_init.

(** Slot [i] of the fence array. *)
Definition slot (b : SyncingStreamBuffer) (i : Z) : option (option GLsync) :=
  m_sync_objects b !! Z.to_nat i.

(** Slot [i] holds a fence. *)
Definition fenced (b : SyncingStreamBuffer) (i : Z) : Prop :=
  exists f, slot b i = Some (Some f).

(** A fence stored in a slot was created for that slot. *)
Definition logged (b : SyncingStreamBuffer) : Prop :=
  forall i f, 0 <= i -> slot b i = Some (Some f) ->
              In (glFenceSync i f) (gl_calls (gl b)).

(** The fenced slots are those below [m_used_block_index] and those from
    [m_available_block_index] on. *)
Definition slots_exact (b : SyncingStreamBuffer) : Prop :=
  forall i, 0 <= i < 16 ->
    (fenced b i <->
     i < m_used_block_index b \/ m_available_block_index b <= i).


(** What a successful [AddSyncsForOffset] with end index [en] did. *)
Record AddSyncs_post (en : Z) (b b' : SyncingStreamBuffer) : Prop := {
  as_size : m_size b' = m_size b;
  as_bpb : m_bytes_per_block b' = m_bytes_per_block b;
  as_position : m_position b' = m_position b;
  as_available : m_available_block_index b' = m_available_block_index b;
  as_used : m_used_block_index b' = Z.max (m_used_block_index b) en;
  as_used_le : m_used_block_index b' <= Z.max (m_used_block_index b) 16;
  as_length : length (m_sync_objects b') = length (m_sync_objects b);
  as_filled : forall i,
      m_used_block_index b <= i < m_used_block_index b' ->
      slot b i = Some None /\
      exists f, slot b' i = Some (Some f) /\
                In (glFenceSync i f) (gl_calls (gl b'));
  as_kept : forall i,
      0 <= i -> ~ (m_used_block_index b <= i < m_used_block_index b') ->
      slot b' i = slot b i;
  as_log : exists es,
      gl_calls (gl b') = gl_calls (gl b) ++ es /\ forallb is_fence es = true
}.

(** What a successful [EnsureSyncsWaitedForOffset] with end index [en]
    did. *)
Record EnsureSyncs_post (en : Z) (b b' : SyncingStreamBuffer) : Prop := {
  es_size : m_size b' = m_size b;
  es_bpb : m_bytes_per_block b' = m_bytes_per_block b;
  es_position : m_position b' = m_position b;
  es_used : m_used_block_index b' = m_used_block_index b;
  es_available :
    m_available_block_index b' = Z.max (m_available_block_index b) en;
  es_available_le :
    m_available_block_index b' <= Z.max (m_available_block_index b) 16;
  es_length : length (m_sync_objects b') = length (m_sync_objects b);
  es_cleared : forall i,
      m_available_block_index b <= i < m_available_block_index b' ->
      slot b' i = Some None;
  es_kept : forall i,
      0 <= i ->
      ~ (m_available_block_index b <= i < m_available_block_index b') ->
      slot b' i = slot b i;
  es_log : exists es,
      gl_calls (gl b') = gl_calls (gl b) ++ es /\
      forallb is_wait_or_delete es = true /\
      forall i,
        m_available_block_index b <= i < m_available_block_index b' ->
        exists f, slot b i = Some (Some f) /\
                  In (glClientWaitSync (Some f)) es
}.

(** The two paths through [AllocateSpace]. *)
Inductive AllocateSpace_path (size : Z) (b b' : SyncingStreamBuffer) : Prop :=
| path_straight (b1 : SyncingStreamBuffer) :
    AddSyncsForOffset (m_position b) b = Ok b1 ->
    EnsureSyncsWaitedForOffset (u32 (m_position b1 + size)) b1 = Ok b' ->
    u32 (m_position b' + size) <= m_size b' ->
    AllocateSpace_path size b b'
| path_rewind (b1 b2 b4 b6 b8 : SyncingStreamBuffer) :
    AddSyncsForOffset (m_position b) b = Ok b1 ->
    EnsureSyncsWaitedForOffset (u32 (m_position b1 + size)) b1 = Ok b2 ->
    u32 (m_position b2 + size) > m_size b2 ->
    AddSyncsForOffset (m_size b2) (emit [rewind] b2) = Ok b4 ->
    WaitForSync 0 (set_position 0 b4) = Ok b6 ->
    EnsureSyncsWaitedForOffset size (set_available 1 b6) = Ok b8 ->
    b' = set_used 0 b8 ->
    AllocateSpace_path size b b'.

(** The block size the constructor computes for a capacity [size] below
    2^32 - 16. *)
Definition bytes_per_block (size : Z) : Z := (size + 15) / 16.

(** What holds between two calls on a buffer of capacity [size]. *)
Record ring (size : Z) (b : SyncingStreamBuffer) : Prop := {
  ring_size : m_size b = size;
  ring_bpb : m_bytes_per_block b = bytes_per_block size;
  ring_used : 0 <= m_used_block_index b <= 16;
  ring_available : 1 <= m_available_block_index b <= 16;
  ring_order :
    m_used_block_index b < m_available_block_index b \/
    m_available_block_index b = 16;
  ring_length : length (m_sync_objects b) = 16%nat;
  ring_first : 1 <= m_used_block_index b -> fenced b 0;
  ring_fresh :
    ~ In rewind (gl_calls (gl b)) -> m_available_block_index b = 16;
  ring_logged : logged b
}.

Definition Inv (size : Z) (b : SyncingStreamBuffer) : Prop :=
  ring size b /\ 0 <= m_position b <= size.

(** The invariant for runs whose requests are never empty, and for runs
    on a capacity that is a multiple of 16. *)
Definition Inv_strict (size : Z) (b : SyncingStreamBuffer) : Prop :=
  Inv size b /\ m_used_block_index b < m_available_block_index b.

Definition Inv_slots (size : Z) (b : SyncingStreamBuffer) : Prop :=
  Inv size b /\ slots_exact b.

(** The state between the wait on block 0 and the second round of waits
    in the wrap-around branch. *)
Definition rewound (w : option GLsync) (b4 : SyncingStreamBuffer)
  : SyncingStreamBuffer :=
  set_available 1
    (set_sync 0 None
       (emit [glClientWaitSync w; glDeleteSync w] (set_position 0 b4))).

(** The facts gathered along each path of [AllocateSpace], with the
    wrap-around of the sums removed. *)
Inductive AllocateSpace_facts (size s : Z) (b b' : SyncingStreamBuffer)
  : Prop :=
| facts_straight (b1 : SyncingStreamBuffer) :
    AddSyncs_post (m_position b / bytes_per_block size) b b1 ->
    EnsureSyncs_post
      (Z.min ((m_position b + s) / bytes_per_block size + 1) 16) b1 b' ->
    m_position b + s <= size ->
    AllocateSpace_facts size s b b'
| facts_rewind (b1 b2 b4 b8 : SyncingStreamBuffer) (w : option GLsync) :
    AddSyncs_post (m_position b / bytes_per_block size) b b1 ->
    EnsureSyncs_post
      (Z.min ((m_position b + s) / bytes_per_block size + 1) 16) b1 b2 ->
    m_position b + s > size ->
    AddSyncs_post (size / bytes_per_block size) (emit [rewind] b2) b4 ->
    slot b4 0 = Some w ->
    EnsureSyncs_post (Z.min (s / bytes_per_block size + 1) 16)
      (rewound w b4) b8 ->
    b' = set_used 0 b8 ->
    AllocateSpace_facts size s b b'.

(** The requests the caller may make: at most the capacity. *)
Definition call_ok (size : Z) (c : call) : Prop :=
  match c with
  | Map_call _ min_size => 0 <= min_size <= size
  | Unmap_call _ => True
  end.

(** Requests that ask for at least one byte. *)
Definition call_nonempty (c : call) : Prop :=
  match c with
  | Map_call _ min_size => 1 <= min_size
  | Unmap_call _ => True
  end.

(** One round of the producer: [Map(alignment, min_size)], then
    [Unmap(used_size)]. *)
Record round : Type := mkRound {
  r_alignment : Z;
  r_min_size : Z;
  r_used_size : Z
}.

Definition round_calls (r : round) : list call :=
  [Map_call (r_alignment r) (r_min_size r); Unmap_call (r_used_size r)].

Definition protocol (rs : list round) : list call := flat_map round_calls rs.

(** A round that keeps to the protocol, with an alignment of at most one
    block. *)
Definition round_ok (size : Z) (r : round) : Prop :=
  0 < r_alignment r <= bytes_per_block size /\
  0 <= r_used_size r <= r_min_size r /\ r_min_size r <= size.

(** The ring between two rounds on a capacity that is a multiple of 16:
    the position has not passed the available blocks. *)
Definition ready (size : Z) (b : SyncingStreamBuffer) : Prop :=
  Inv size b /\ slots_exact b /\
  m_position b <= m_available_block_index b * bytes_per_block size.

(** Two objects used as examples: a naive buffer of 1 MiB, and a
    non-coherent persistent-mapped buffer of 1 MiB whose position is
    4096. *)
Definition example_naive : NaiveStreamBuffer :=
  mkNaive 34962 1 1048576 [] gl_init.


(** A fresh coherent buffer of 1 MiB, and one of 17 bytes. *)
Definition fresh_1MiB : SyncingStreamBuffer :=
  fresh_buffer 34962 1 true 1048576.

Definition fresh_17 : SyncingStreamBuffer := fresh_buffer 34962 1 true 17.

(** A driver that supports buffer storage, accepts the allocation and then
    fails to map the buffer. *)
Definition driver_mapping_fails : Driver :=
  mkDriver true true false 1 false false false.

(** A driver that supports buffer storage and rejects the allocation. *)
Definition driver_storage_rejected : Driver :=
  mkDriver true true false 1 true false false.

(** ** Vocabulary of the further properties *)

(** Properties of the ring that every elementary step of [Map] keeps. *)
Record stable (P : SyncingStreamBuffer -> Prop) : Prop := {
  st_fence : forall b b1, P b -> AddSyncs_body b = Ok b1 -> P b1;
  st_wait : forall i b b1, P b -> WaitForSync i b = Ok b1 -> P b1;
  st_rewind : forall b, P b -> P (emit [rewind] b);
  st_position : forall p b, P b -> P (set_position p b);
  st_available : forall a b, P b -> P (set_available a b);
  st_used : forall u b, P b -> P (set_used u b)
}.

(** The sync objects held by the fence array. *)
Definition slot_syncs (b : SyncingStreamBuffer) : list GLsync :=
  omap id (m_sync_objects b).

(** The books balance: the sync objects alive in the GL context are those
    held by the fence array, each once. *)
Definition accounted (b : SyncingStreamBuffer) : Prop :=
  Permutation (live_syncs (gl_calls (gl b))) (slot_syncs b) /\
  NoDup (slot_syncs b) /\
  Forall (fun f => (f < gl_next_sync (gl b))%nat) (slot_syncs b) /\
  length (m_sync_objects b) = 16%nat.

(** Events that neither create nor delete a sync object. *)
Definition is_neutral (e : event) : bool :=
  match e with
  | glFenceSync _ _ => false
  | glDeleteSync (Some _) => false
  | _ => true
  end.

(** The blocks that hold a fence lie entirely below the position. *)
Definition written (size : Z) (b : SyncingStreamBuffer) : Prop :=
  m_used_block_index b * bytes_per_block size <= m_position b.

Definition safe_ring (size : Z) (b : SyncingStreamBuffer) : Prop :=
  ready size b /\ written size b.

(** The events of the fence ring: sync-object calls and the wrap-around
    marker. *)
Definition is_ring_event (e : event) : bool :=
  match e with
  | glFenceSync _ _ | glClientWaitSync _ | glDeleteSync _ | rewind => true
  | _ => false
  end.

(** Since the log [base], a coherent buffer issued ring events only. *)
Definition quiet_since (base : list event) (b : SyncingStreamBuffer) : Prop :=
  m_coherent b = true /\
  exists es, gl_calls (gl b) = base ++ es /\ forallb is_ring_event es = true.

(** ** The backends behind the [StreamBuffer] interface *)

Module Backend.

(** The GL context a backend works in. *)
Definition context (x : backend) : GLstate :=
  match x with
  | BufferSubData n | BufferData n => n_gl n
  | BufferStorage b => gl b
  end.

(** [m_buffer_id] of the base class. *)
Definition buffer_id (x : backend) : Z :=
  match x with
  | BufferSubData n | BufferData n => n_buffer_id n
  | BufferStorage b => m_buffer_id b
  end.

(** A call through the virtual [Map] or [Unmap]. *)
Definition step (c : call) (x : backend) : result backend :=
  match x, c with
  | BufferSubData n, Map_call alignment min_size =>
      do r <- BufferSubDataStreamBuffer.Map alignment min_size n ;
      Ok (BufferSubData (snd r))
  | BufferSubData n, Unmap_call used_size =>
      do n' <- BufferSubDataStreamBuffer.Unmap used_size n ;
      Ok (BufferSubData n')
  | BufferData n, Map_call alignment min_size =>
      do r <- BufferDataStreamBuffer.Map alignment min_size n ;
      Ok (BufferData (snd r))
  | BufferData n, Unmap_call used_size =>
      do n' <- BufferDataStreamBuffer.Unmap used_size n ;
      Ok (BufferData n')
  | BufferStorage b, _ =>
      do b' <- step c b ; Ok (BufferStorage b')
  end.

Fixpoint run (cs : list call) (x : backend) : result backend :=
  match cs with
  | [] => Ok x
  | c :: cs' => do x1 <- step c x ; run cs' x1
  end.

(** The virtual destructor.  The naive backends run [~StreamBuffer] only
    ([glDeleteBuffers(1, &m_buffer_id)]). *)
Definition destroy (x : backend) : result GLstate :=
  match x with
  | BufferSubData n | BufferData n =>
      Ok (gl_emit [glDeleteBuffers (n_buffer_id n)] (n_gl n))
  | BufferStorage b => BufferStorageStreamBuffer.destroy b
  end.

End Backend.

(** Buffer objects generated and not yet deleted, from the log of GL
    calls.  The driver may hand out a name again after it was deleted, so
    a deletion removes one occurrence. *)
Fixpoint remove_first (x : Z) (l : list Z) : list Z :=
  match l with
  | [] => []
  | y :: rest => if x =? y then rest else y :: remove_first x rest
  end.

Definition track_buffer (live : list Z) (e : event) : list Z :=
  match e with
  | glGenBuffers id => id :: live
  | glDeleteBuffers id => remove_first id live
  | _ => live
  end.

Definition live_buffers (log : list event) : list Z :=
  fold_left track_buffer log [].

Definition keeps_buffers (e : event) : bool :=
  match e with
  | glGenBuffers _ | glDeleteBuffers _ => false
  | _ => true
  end.

(** Since the log [base], the backend kept its buffer object: the name is
    [id] and no buffer was generated or deleted. *)
Definition holds_buffer (id : Z) (base : list event) (g : GLstate) (i : Z)
  : Prop :=
  i = id /\
  exists es, gl_calls g = base ++ es /\ forallb keeps_buffers es = true.

(** * The host interface (core/host_interface.cpp) *)

(** ** [GetRelativePath], the variant compiled under [ANDROID] *)

(** A [std::string] is a sequence of characters, NUL among them;
    [c_str()], read as a C string, ends before the first NUL.  A
    [const char*] argument is given by its characters and read the same
    way. *)
Definition NUL : ascii := "000"%char.

Fixpoint c_str (s : list ascii) : list ascii :=
  match s with
  | [] => []
  | c :: rest => if Ascii.eqb c NUL then [] else c :: c_str rest
  end.

(** [std::strrchr(s, c) - s] for a character [c] other than NUL: the index
    of the last [c] in the C string [s], if there is one. *)
Fixpoint strrchr (s : list ascii) (c : ascii) : option nat :=
  match s with
  | [] => None
  | x :: rest =>
      match strrchr rest c with
      | Some i => Some (S i)
      | None => if Ascii.eqb x c then Some O else None
      end
  end.

Definition GetRelativePath (path new_filename : list ascii) : list ascii :=
  match strrchr (c_str path) "/"%char with
  | None => c_str new_filename
  | Some last => take (last + 1) (c_str path) ++ c_str new_filename
  end.

(** Paths and file names used as examples. *)
Definition example_dir : list ascii := list_ascii_of_string "bios".
Definition example_file : list ascii := list_ascii_of_string "bios.bin".
Definition example_path : list ascii := list_ascii_of_string "bios/bios.bin".

Definition scph1000 : list ascii := list_ascii_of_string "scph1000.bin".
Definition scph5500 : list ascii := list_ascii_of_string "scph5500.bin".
Definition scph1001 : list ascii := list_ascii_of_string "scph1001.bin".
Definition scph5501 : list ascii := list_ascii_of_string "scph5501.bin".
Definition scph1002 : list ascii := list_ascii_of_string "scph1002.bin".
Definition scph5502 : list ascii := list_ascii_of_string "scph5502.bin".

(** ** [HostInterface::GetBIOSImage] *)

(** The regions the [switch] names, and its [default] branch. *)
Inductive ConsoleRegion : Type :=
| NTSC_J
| NTSC_U
| PAL
| other_region.

Section BIOS.

(** The namespace [BIOS] (bios.h) is not part of the sources at hand: the
    image and hash types and the three functions the code calls are left
    open. *)
Variables Image Hash : Type.
Variable LoadImageFromFile : list ascii -> option Image.
Variable GetHash : Image -> Hash.
Variable IsValidHashForRegion : ConsoleRegion -> Hash -> bool.

(** The macro [TRY_FILENAME], with the rest of the function as
    [otherwise].  The outer [option] is [None] where the behaviour is
    undefined: [*found_image] is evaluated whether or not the file could
    be loaded. *)
Definition TRY_FILENAME (region : ConsoleRegion) (filename : list ascii)
    (otherwise : option (option Image)) : option (option Image) :=
  let try_filename := filename in
  let found_image := LoadImageFromFile try_filename in
  match found_image with
  | None => None
  | Some image =>
      let found_hash := GetHash image in
      if IsValidHashForRegion region found_hash then Some found_image
      else otherwise
  end.

Definition GetBIOSImage (bios_path : list ascii) (region : ConsoleRegion)
  : option (option Image) :=
  (* Try the configured image. *)
  TRY_FILENAME region bios_path
    (* Fall back to the default image. *)
    (let fallback := Some (LoadImageFromFile bios_path) in
     (* Try searching in the same folder for other region's images. *)
     match region with
     | NTSC_J =>
         TRY_FILENAME region (GetRelativePath bios_path scph1000)
           (TRY_FILENAME region (GetRelativePath bios_path scph5500) fallback)
     | NTSC_U =>
         TRY_FILENAME region (GetRelativePath bios_path scph1001)
           (TRY_FILENAME region (GetRelativePath bios_path scph5501) fallback)
     | PAL =>
         TRY_FILENAME region (GetRelativePath bios_path scph1002)
           (TRY_FILENAME region (GetRelativePath bios_path scph5502) fallback)
     | other_region => fallback
     end).

End BIOS.

Arguments TRY_FILENAME {Image Hash}.
Arguments GetBIOSImage {Image Hash}.

(** The file names tried for a region, after the configured one. *)
Definition region_filenames (region : ConsoleRegion) : list (list ascii) :=
  match region with
  | NTSC_J => [scph1000; scph5500]
  | NTSC_U => [scph1001; scph5501]
  | PAL => [scph1002; scph5502]
  | other_region => []
  end.

(** What a defined result of [GetBIOSImage] is: the configured image, or
    an image next to it under a name of the region, valid for the
    region. *)
Definition chosen {Image Hash : Type}
    (LoadImageFromFile : list ascii -> option Image) (GetHash : Image -> Hash)
    (IsValidHashForRegion : ConsoleRegion -> Hash -> bool)
    (bios_path : list ascii) (region : ConsoleRegion) (image : Image)
  : Prop :=
  LoadImageFromFile bios_path = Some image \/
  exists name,
    In name (region_filenames region) /\
    LoadImageFromFile (GetRelativePath bios_path name) = Some image /\
    IsValidHashForRegion region (GetHash image) = true.

(** A directory that holds one image, [scph5501.bin], valid for NTSC-U
    only; images are numbers, an image is its own hash. *)
Definition example_load (filename : list ascii) : option nat :=
  if List.list_eq_dec ascii_dec filename example_path then Some 1%nat
  else if List.list_eq_dec ascii_dec filename
            (list_ascii_of_string "bios/scph1001.bin") then Some 2%nat
  else if List.list_eq_dec ascii_dec filename
            (list_ascii_of_string "bios/scph5501.bin") then Some 3%nat
  else None.

Definition example_valid (region : ConsoleRegion) (hash : nat) : bool :=
  match region with
  | NTSC_U => Nat.eqb hash 3
  | _ => false
  end.

(** ** The state of [HostInterface] *)

Definition u64 (z : Z) : Z := z mod 2 ^ 64.

(** [static_cast<s64>] of a [u64] value. *)
Definition s64 (z : Z) : Z := if z <? 2 ^ 63 then z else z - 2 ^ 64.

(** [static_cast<long>] of an [s64] value, for a [long] of [bits] bits. *)
Definition slong (bits : Z) (z : Z) : Z :=
  let m := z mod 2 ^ bits in
  if m <? 2 ^ (bits - 1) then m else m - 2 ^ bits.

(** What the build fixes: whether [WIN32] is defined, and the width of
    [long]. *)
Record Platform : Type := mkPlatform {
  WIN32 : bool;
  long_bits : Z
}.

(** The fields of [Settings] this file reads ([bios_path] is an argument
    of [GetBIOSImage] above). *)
Record Settings : Type := mkSettings {
  speed_limiter_enabled : bool;
  audio_sync_enabled : bool;
  video_sync_enabled : bool;
  start_paused : bool
}.

Inductive open_flag : Type :=
| BYTESTREAM_OPEN_READ
| BYTESTREAM_OPEN_WRITE
| BYTESTREAM_OPEN_CREATE
| BYTESTREAM_OPEN_TRUNCATE
| BYTESTREAM_OPEN_ATOMIC_UPDATE
| BYTESTREAM_OPEN_STREAMED.

(** The calls the host makes on its collaborators, in the order made.
    Log output is left out, and so is the text of the messages. *)
Inductive host_event : Type :=
| System_Create                       (* System::Create(this) *)
| System_GetSettings                  (* m_system->GetSettings() *)
| System_Boot (filename : list ascii) (* m_system->Boot(filename) *)
| System_LoadState                    (* m_system->LoadState(stream) *)
| System_SaveState                    (* m_system->SaveState(stream) *)
| System_Reset                        (* m_system->Reset() *)
| System_destroy                      (* m_system.reset() *)
| audio_stream_SetSync (enabled : bool)
| display_SetVSync (enabled : bool)
| throttle_timer_Reset                (* m_throttle_timer.Reset() *)
| Sleep (dwMilliseconds : Z)
| nanosleep (tv_sec tv_nsec : Z)
| ByteStream_OpenFileStream (filename : list ascii) (mode : list open_flag)
| stream_Discard
| stream_Commit
| stream_Release
| AddOSDMessage
| ReportError.

(** [m_system] is kept as the fact whether the pointer is set.  The
    members are declared in host_interface.h, which is not part of the
    sources at hand: [m_last_throttle_time] is a [u64] (the code relies on
    its wrap-around), [m_throttle_period] is compared with an [s64] and
    added to a [u64], which gives the same results for every 64-bit
    integer type. *)
Record HostInterface : Type := mkHost {
  m_settings : Settings;
  m_system : bool;
  m_paused : bool;
  m_speed_limiter_enabled : bool;
  m_speed_limiter_temp_disabled : bool;
  m_last_throttle_time : Z;
  m_throttle_period : Z;
  host_calls : list host_event
}.

Definition set_settings (s : Settings) (h : HostInterface) : HostInterface :=
  mkHost s (m_system h) (m_paused h) (m_speed_limiter_enabled h)
    (m_speed_limiter_temp_disabled h) (m_last_throttle_time h)
    (m_throttle_period h) (host_calls h).

Definition set_system (s : bool) (h : HostInterface) : HostInterface :=
  mkHost (m_settings h) s (m_paused h) (m_speed_limiter_enabled h)
    (m_speed_limiter_temp_disabled h) (m_last_throttle_time h)
    (m_throttle_period h) (host_calls h).

Definition set_paused (p : bool) (h : HostInterface) : HostInterface :=
  mkHost (m_settings h) (m_system h) p (m_speed_limiter_enabled h)
    (m_speed_limiter_temp_disabled h) (m_last_throttle_time h)
    (m_throttle_period h) (host_calls h).

Definition set_speed_limiter_enabled (e : bool) (h : HostInterface)
  : HostInterface :=
  mkHost (m_settings h) (m_system h) (m_paused h) e
    (m_speed_limiter_temp_disabled h) (m_last_throttle_time h)
    (m_throttle_period h) (host_calls h).

Definition set_last_throttle_time (t : Z) (h : HostInterface) : HostInterface :=
  mkHost (m_settings h) (m_system h) (m_paused h) (m_speed_limiter_enabled h)
    (m_speed_limiter_temp_disabled h) t (m_throttle_period h) (host_calls h).

Definition host_emit (es : list host_event) (h : HostInterface) : HostInterface :=
  mkHost (m_settings h) (m_system h) (m_paused h) (m_speed_limiter_enabled h)
    (m_speed_limiter_temp_disabled h) (m_last_throttle_time h)
    (m_throttle_period h) (host_calls h ++ es).

(** What the collaborators answer during one call: [System::Create]
    returned a system and the settings that system reports; the results
    of [Boot], of [ByteStream_OpenFileStream], and of the system's
    [LoadState] and [SaveState]. *)
Record Answers : Type := mkAnswers {
  create_succeeds : bool;
  system_settings : Settings;
  boot_succeeds : bool;
  open_succeeds : bool;
  load_succeeds : bool;
  save_succeeds : bool
}.

(** ** [UpdateSpeedLimiterState] and the life cycle of the system *)

Definition UpdateSpeedLimiterState (h : HostInterface) : HostInterface :=
  let h1 :=
    set_speed_limiter_enabled
      (speed_limiter_enabled (m_settings h)
       && negb (m_speed_limiter_temp_disabled h)) h in
  let audio_sync_enabled :=
    negb (m_system h1) || m_paused h1
    || (m_speed_limiter_enabled h1 && audio_sync_enabled (m_settings h1)) in
  let video_sync_enabled :=
    negb (m_system h1) || m_paused h1
    || (m_speed_limiter_enabled h1 && video_sync_enabled (m_settings h1)) in
  set_last_throttle_time 0
    (host_emit [audio_stream_SetSync audio_sync_enabled;
                display_SetVSync video_sync_enabled;
                throttle_timer_Reset] h1).

(** [None] where the behaviour is undefined: a call through a null
    [m_system]. *)
Definition CreateSystem (a : Answers) (h : HostInterface)
  : option (bool * HostInterface) :=
  let h1 := set_system (create_succeeds a) (host_emit [System_Create] h) in
  if negb (m_system h1) then None else
  let h2 := set_settings (system_settings a)
              (host_emit [System_GetSettings] h1) in
  let h3 := set_paused true h2 in
  Some (true, UpdateSpeedLimiterState h3).

Definition LoadState (a : Answers) (filename : list ascii) (h : HostInterface)
  : option (bool * HostInterface) :=
  let h1 := host_emit [ByteStream_OpenFileStream filename
                         [BYTESTREAM_OPEN_READ; BYTESTREAM_OPEN_STREAMED]] h in
  if negb (open_succeeds a) then Some (false, h1) else
  let h2 := host_emit [AddOSDMessage] h1 in
  if negb (m_system h2) then None else
  let result := load_succeeds a in
  let h3 := host_emit [System_LoadState] h2 in
  let h4 := if negb result then host_emit [ReportError; System_Reset] h3
            else h3 in
  Some (result, host_emit [stream_Release] h4).

Definition SaveState (a : Answers) (filename : list ascii) (h : HostInterface)
  : option (bool * HostInterface) :=
  let h1 := host_emit [ByteStream_OpenFileStream filename
                         [BYTESTREAM_OPEN_CREATE; BYTESTREAM_OPEN_WRITE;
                          BYTESTREAM_OPEN_TRUNCATE;
                          BYTESTREAM_OPEN_ATOMIC_UPDATE;
                          BYTESTREAM_OPEN_STREAMED]] h in
  if negb (open_succeeds a) then Some (false, h1) else
  if negb (m_system h1) then None else
  let result := save_succeeds a in
  let h2 := host_emit [System_SaveState] h1 in
  let h3 := if negb result then host_emit [ReportError; stream_Discard] h2
            else host_emit [AddOSDMessage; stream_Commit] h2 in
  Some (result, host_emit [stream_Release] h3).

(** [ConnectControllers] is empty in this class. *)
Definition BootSystem (a : Answers) (filename : list ascii)
    (state_filename : option (list ascii)) (h : HostInterface)
  : option (bool * HostInterface) :=
  if negb (m_system h) then None else
  let h1 := host_emit [System_Boot filename] h in
  if negb (boot_succeeds a) then Some (false, h1) else
  let h2 := set_paused (start_paused (m_settings h1)) h1 in
  let h3 := UpdateSpeedLimiterState h2 in
  match state_filename with
  | Some name =>
      match LoadState a name h3 with
      | None => None
      | Some (loaded, h4) =>
          if negb loaded then Some (false, h4) else Some (true, h4)
      end
  | None => Some (true, h3)
  end.

Definition DestroySystem (h : HostInterface) : HostInterface :=
  (* [m_system.reset()] destroys the system if there is one *)
  let h1 := set_system false
              (if m_system h then host_emit [System_destroy] h else h) in
  let h2 := set_paused false h1 in
  UpdateSpeedLimiterState h2.

(** ** [Throttle] *)

Definition MAX_VARIANCE_TIME : Z := 40000000.
Definition MINIMUM_SLEEP_TIME : Z := 1000000.

(** [time] is the reading of [m_throttle_timer], as the [u64] the code
    casts it to.  [std::abs] of the least [s64] is undefined.  The
    messages of release builds are left out. *)
Definition Throttle (p : Platform) (time : Z) (h : HostInterface)
  : option HostInterface :=
  let sleep_time := s64 (u64 (m_last_throttle_time h - time)) in
  if sleep_time =? - 2 ^ 63 then None else
  let h1 :=
    if Z.abs sleep_time >=? MAX_VARIANCE_TIME then
      host_emit [throttle_timer_Reset] (set_last_throttle_time 0 h)
    else if (sleep_time >=? MINIMUM_SLEEP_TIME)
            && (sleep_time <=? m_throttle_period h) then
      if WIN32 p then
        host_emit [Sleep (u32 (Z.quot sleep_time 1000000))] h
      else
        host_emit [nanosleep 0 (slong (long_bits p) sleep_time)] h
    else h in
  Some (set_last_throttle_time
          (u64 (m_last_throttle_time h1 + m_throttle_period h1)) h1).

(** ** Sequences of calls on the host *)

Inductive host_op : Type :=
| op_CreateSystem
| op_BootSystem (filename : list ascii) (state_filename : option (list ascii))
| op_DestroySystem
| op_LoadState (filename : list ascii)
| op_SaveState (filename : list ascii)
| op_UpdateSpeedLimiterState
| op_Throttle (time : Z).

Definition host_step (p : Platform) (a : Answers) (op : host_op)
    (h : HostInterface) : option HostInterface :=
  match op with
  | op_CreateSystem => option_map snd (CreateSystem a h)
  | op_BootSystem filename state_filename =>
      option_map snd (BootSystem a filename state_filename h)
  | op_DestroySystem => Some (DestroySystem h)
  | op_LoadState filename => option_map snd (LoadState a filename h)
  | op_SaveState filename => option_map snd (SaveState a filename h)
  | op_UpdateSpeedLimiterState => Some (UpdateSpeedLimiterState h)
  | op_Throttle time => Throttle p time h
  end.

Fixpoint host_run (p : Platform) (ops : list (Answers * host_op))
    (h : HostInterface) : option HostInterface :=
  match ops with
  | [] => Some h
  | (a, op) :: rest =>
      match host_step p a op h with
      | Some h1 => host_run p rest h1
      | None => None
      end
  end.

(** The calls made since [h]. *)
Definition host_new_calls (h h' : HostInterface) : list host_event :=
  drop (List.length (host_calls h)) (host_calls h').

(** The last value handed to the audio stream and to the display. *)
Definition last_call {A : Type} (f : host_event -> option A)
    (es : list host_event) : option A :=
  fold_left (fun acc e => match f e with Some x => Some x | None => acc end)
            es None.

Definition audio_sync_set (e : host_event) : option bool :=
  match e with audio_stream_SetSync b => Some b | _ => None end.

Definition vsync_set (e : host_event) : option bool :=
  match e with display_SetVSync b => Some b | _ => None end.

Definition last_audio_sync (es : list host_event) : option bool :=
  last_call audio_sync_set es.

Definition last_vsync (es : list host_event) : option bool :=
  last_call vsync_set es.

(** The synchronisation the state asks for. *)
Definition sync_wanted (setting : bool) (h : HostInterface) : bool :=
  negb (m_system h) || m_paused h || (m_speed_limiter_enabled h && setting).

(** The audio stream and the display were told what the state asks for. *)
Definition in_sync (h : HostInterface) : Prop :=
  m_speed_limiter_enabled h
    = speed_limiter_enabled (m_settings h)
      && negb (m_speed_limiter_temp_disabled h) /\
  last_audio_sync (host_calls h)
    = Some (sync_wanted (audio_sync_enabled (m_settings h)) h) /\
  last_vsync (host_calls h)
    = Some (sync_wanted (video_sync_enabled (m_settings h)) h).


Definition is_throttle (op : Answers * host_op) : bool :=
  match snd op with op_Throttle _ => true | _ => false end.

(** A 64-bit build for Linux, a host without a system whose period is a
    sixtieth of a second, and collaborators that always succeed. *)
Definition linux64 : Platform := mkPlatform false 64.

Definition example_settings : Settings := mkSettings true true false false.

Definition example_host : HostInterface :=
  mkHost example_settings false false false false 0 16666667 [].

Definition all_succeed : Answers :=
  mkAnswers true example_settings true true true true.

(** Calls other than those that set the synchronisation. *)
Definition keeps_sync (e : host_event) : bool :=
  match e with
  | audio_stream_SetSync _ | display_SetVSync _ => false
  | _ => true
  end.

(** [h'] differs from [h] in the time that is due and in calls that do
    not set the synchronisation. *)
Definition quiet (h h' : HostInterface) : Prop :=
  exists es t,
    h' = set_last_throttle_time t (host_emit es h) /\
    forallb keeps_sync es = true.

(** A host with a booted, running system. *)
Definition example_running : HostInterface :=
  mkHost example_settings true false true false 0 16666667
    [audio_stream_SetSync true; display_SetVSync false].

(** * Properties *)

(** Splits a conjunction of closed facts and evaluates each of them, in
    order, so that the states named by the first equations are known to
    the later ones. *)
Ltac conj_split :=
  repeat match goal with |- _ /\ _ => split end.

Ltac evaluate :=
  conj_split;
  first [ vm_compute; reflexivity
        | vm_compute; discriminate
        | vm_compute; intuition discriminate ].

(** ** Machine arithmetic and inversion of the monadic code *)

Lemma u32_small (z : Z) : 0 <= z < 2 ^ 32 -> u32 z = z.
Proof. intros H. unfold u32. apply Z.mod_small. exact H. Qed.

Lemma u32_range (z : Z) : 0 <= u32 z < 2 ^ 32.
Proof. unfold u32. apply Z.mod_pos_bound. reflexivity. Qed.

Lemma new_events_app (b b' : SyncingStreamBuffer) (es : list event) :
  gl_calls (gl b') = gl_calls (gl b) ++ es -> new_events b b' = es.
Proof.
  intros H. unfold new_events. rewrite H. apply drop_app_length.
Qed.

(** ** The two loops of the ring *)

Lemma bind_Ok {A B : Type} (r : result A) (k : A -> result B) (y : B) :
  bind r k = Ok y -> exists x, r = Ok x /\ k x = Ok y.
Proof. destruct r; cbn; [eauto | discriminate]. Qed.

Lemma DebugAssert_Ok (c : bool) (u : unit) : DebugAssert c = Ok u -> c = true.
Proof. destruct c; [reflexivity | discriminate]. Qed.

Lemma udiv_Ok (a d q : Z) : udiv a d = Ok q -> d <> 0 /\ q = a / d.
Proof.
  unfold udiv. destruct (d =? 0) eqn:E; [discriminate|].
  intros [= <-]. apply Z.eqb_neq in E. auto.
Qed.

Lemma sync_at_Ok (i : Z) (b : SyncingStreamBuffer) (s : option GLsync) :
  sync_at i b = Ok s -> 0 <= i < 16 /\ slot b i = Some s.
Proof.
  unfold sync_at, slot, NUM_SYNC_POINTS.
  destruct (0 <=? i) eqn:E1; [|discriminate].
  destruct (i <? 16) eqn:E2; [|discriminate]. cbn.
  destruct (m_sync_objects b !! Z.to_nat i); [|discriminate].
  intros [= ->]. apply Z.leb_le in E1. apply Z.ltb_lt in E2. auto.
Qed.

Tactic Notation "bind_inv" hyp(H) "as" ident(x) ident(Hx) :=
  apply bind_Ok in H; destruct H as (x & Hx & H).

Lemma AddSyncs_body_Ok (b b1 : SyncingStreamBuffer) :
  AddSyncs_body b = Ok b1 ->
  0 <= m_used_block_index b < 16 /\
  slot b (m_used_block_index b) = Some None /\
  b1 = set_used (m_used_block_index b + 1)
         (set_sync (m_used_block_index b) (Some (gl_next_sync (gl b)))
            (set_gl (gl_new_sync (m_used_block_index b) (gl b)) b)).
Proof.
  unfold AddSyncs_body. intros H.
  bind_inv H as s Hs. apply sync_at_Ok in Hs as [Hr Hs].
  bind_inv H as u Ha. apply DebugAssert_Ok in Ha.
  destruct s as [f|]; [discriminate|].
  rewrite u32_small in H by lia.
  injection H as <-. auto.
Qed.

Lemma WaitForSync_Ok (i : Z) (b b1 : SyncingStreamBuffer) :
  WaitForSync i b = Ok b1 ->
  exists s, 0 <= i < 16 /\ slot b i = Some s /\
    b1 = set_sync i None (emit [glClientWaitSync s; glDeleteSync s] b).
Proof.
  unfold WaitForSync. intros H. bind_inv H as s Hs.
  apply sync_at_Ok in Hs as [Hr Hs]. injection H as <-. eauto.
Qed.

Lemma EnsureSyncs_body_Ok (b b1 : SyncingStreamBuffer) :
  EnsureSyncs_body b = Ok b1 ->
  exists f,
    0 <= m_available_block_index b < 16 /\
    slot b (m_available_block_index b) = Some (Some f) /\
    b1 = set_available (m_available_block_index b + 1)
           (set_sync (m_available_block_index b) None
              (emit [glClientWaitSync (Some f); glDeleteSync (Some f)] b)).
Proof.
  unfold EnsureSyncs_body. intros H.
  bind_inv H as s Hs. apply sync_at_Ok in Hs as [Hr Hs].
  bind_inv H as u Ha. apply DebugAssert_Ok in Ha.
  destruct s as [f|]; [|discriminate].
  bind_inv H as b2 Hw. apply WaitForSync_Ok in Hw as (s & _ & Hs' & ->).
  rewrite Hs in Hs'. injection Hs' as <-.
  rewrite u32_small in H by lia.
  injection H as <-. eauto.
Qed.

(** The loops are unrolled over the number of turns that remain; giving
    them more turns changes nothing. *)
Lemma AddSyncs_loop_turns (n : nat) (en : Z) (b : SyncingStreamBuffer) :
  0 <= m_used_block_index b ->
  (Z.to_nat (en - m_used_block_index b) <= n)%nat ->
  AddSyncs_loop n en b
    = AddSyncs_loop (Z.to_nat (en - m_used_block_index b)) en b.
Proof.
  revert b. induction n as [|n IH]; intros b Hu Hn.
  - replace (Z.to_nat (en - m_used_block_index b)) with O by lia.
    reflexivity.
  - destruct (Z.to_nat (en - m_used_block_index b)) as [|k] eqn:Hk.
    + cbn. destruct (m_used_block_index b <? en) eqn:E; [|reflexivity].
      apply Z.ltb_lt in E. lia.
    + cbn. destruct (m_used_block_index b <? en) eqn:E; [|reflexivity].
      destruct (AddSyncs_body b) as [b1|f] eqn:Hb; [|reflexivity].
      apply AddSyncs_body_Ok in Hb as (Hr & _ & ->). cbn [bind].
      rewrite IH by (cbn; lia). f_equal. cbn. lia.
Qed.

Lemma EnsureSyncs_loop_turns (n : nat) (en : Z) (b : SyncingStreamBuffer) :
  0 <= m_available_block_index b ->
  (Z.to_nat (en - m_available_block_index b) <= n)%nat ->
  EnsureSyncs_loop n en b
    = EnsureSyncs_loop (Z.to_nat (en - m_available_block_index b)) en b.
Proof.
  revert b. induction n as [|n IH]; intros b Hu Hn.
  - replace (Z.to_nat (en - m_available_block_index b)) with O by lia.
    reflexivity.
  - destruct (Z.to_nat (en - m_available_block_index b)) as [|k] eqn:Hk.
    + cbn. destruct (m_available_block_index b <? en) eqn:E; [|reflexivity].
      apply Z.ltb_lt in E. lia.
    + cbn. destruct (m_available_block_index b <? en) eqn:E; [|reflexivity].
      destruct (EnsureSyncs_body b) as [b1|f] eqn:Hb; [|reflexivity].
      apply EnsureSyncs_body_Ok in Hb as (g & Hr & _ & ->). cbn [bind].
      rewrite IH by (cbn; lia). f_equal. cbn. lia.
Qed.

Lemma destroy_loop_turns (n : nat) (i : Z) (b : SyncingStreamBuffer) :
  0 <= i ->
  (Z.to_nat (m_used_block_index b + 1 - i) <= n)%nat ->
  destroy_loop n i b
    = destroy_loop (Z.to_nat (m_used_block_index b + 1 - i)) i b.
Proof.
  revert i b. induction n as [|n IH]; intros i b Hi Hn.
  - replace (Z.to_nat (m_used_block_index b + 1 - i)) with O by lia.
    reflexivity.
  - destruct (Z.to_nat (m_used_block_index b + 1 - i)) as [|k] eqn:Hk.
    + cbn. destruct (i <=? m_used_block_index b) eqn:E; [|reflexivity].
      apply Z.leb_le in E. lia.
    + cbn. destruct (i <=? m_used_block_index b) eqn:E; [|reflexivity].
      destruct (sync_at i b) as [s|f] eqn:Hs; [|reflexivity].
      apply sync_at_Ok in Hs as [Hr _]. cbn [bind].
      destruct (DebugAssert (bool_decide (is_Some s))); [|reflexivity].
      cbn [bind]. rewrite u32_small by lia.
      rewrite IH by (cbn; lia). f_equal. cbn. lia.
Qed.

Lemma slot_length (b : SyncingStreamBuffer) (i : Z) (s : option GLsync) :
  slot b i = Some s -> (Z.to_nat i < length (m_sync_objects b))%nat.
Proof. unfold slot. apply lookup_lt_Some. Qed.

Lemma AddSyncs_loop_post (n : nat) (en : Z) (b b' : SyncingStreamBuffer) :
  0 <= m_used_block_index b ->
  n = Z.to_nat (en - m_used_block_index b) ->
  AddSyncs_loop n en b = Ok b' ->
  AddSyncs_post en b b'.
Proof.
  revert b. induction n as [|n IH]; intros b Hu Hn H.
  - injection H as <-.
    constructor; try reflexivity; try lia.
    exists []. split; [now rewrite app_nil_r | reflexivity].
  - cbn in H. destruct (m_used_block_index b <? en) eqn:E; [|apply Z.ltb_ge in E; lia].
    apply Z.ltb_lt in E. bind_inv H as b1 Hb.
    apply AddSyncs_body_Ok in Hb as (Hr & Hs & ->).
    apply IH in H; [|cbn; lia|cbn; lia].
    destruct H as [H1 H2 H3 H4 H5 H6 H7 H8 H9 (es & Hes & Hf)].
    pose proof (slot_length _ _ _ Hs) as Hlen.
    unfold slot in *. cbn in *.
    constructor; unfold slot; cbn; try congruence; try lia.
    + rewrite H7. apply length_insert.
    + intros i Hi.
      destruct (Z.eq_dec i (m_used_block_index b)) as [->|Hne].
      * split; [assumption|].
        exists (gl_next_sync (gl b)). split.
        -- rewrite H9 by lia. now apply list_lookup_insert_eq.
        -- rewrite Hes. apply in_or_app. left. apply in_or_app. right.
           left. reflexivity.
      * destruct (H8 i) as [Hn' Hf']; [lia|].
        rewrite list_lookup_insert_ne in Hn' by lia.
        split; [exact Hn'|exact Hf'].
    + intros i Hi Hout. rewrite H9 by lia.
      apply list_lookup_insert_ne; lia.
    + exists (glFenceSync (m_used_block_index b) (gl_next_sync (gl b)) :: es).
      split; [rewrite Hes, <- app_assoc; reflexivity | cbn; assumption].
Qed.

Lemma EnsureSyncs_loop_post (n : nat) (en : Z) (b b' : SyncingStreamBuffer) :
  0 <= m_available_block_index b ->
  n = Z.to_nat (en - m_available_block_index b) ->
  EnsureSyncs_loop n en b = Ok b' ->
  EnsureSyncs_post en b b'.
Proof.
  revert b. induction n as [|n IH]; intros b Hu Hn H.
  - injection H as <-.
    constructor; try reflexivity; try lia.
    exists []. split; [now rewrite app_nil_r|]. split; [reflexivity|].
    intros i Hi. lia.
  - cbn in H.
    destruct (m_available_block_index b <? en) eqn:E;
      [|apply Z.ltb_ge in E; lia].
    apply Z.ltb_lt in E. bind_inv H as b1 Hb.
    apply EnsureSyncs_body_Ok in Hb as (f & Hr & Hs & ->).
    apply IH in H; [|cbn; lia|cbn; lia].
    destruct H as [H1 H2 H3 H4 H5 H6 H7 H8 H9 (es & Hes & Hf & Hw)].
    pose proof (slot_length _ _ _ Hs) as Hlen.
    unfold slot in *. cbn in *.
    constructor; unfold slot; cbn; try congruence; try lia.
    + rewrite H7. apply length_insert.
    + intros i Hi.
      destruct (Z.eq_dec i (m_available_block_index b)) as [->|Hne].
      * rewrite H9 by lia. now apply list_lookup_insert_eq.
      * apply H8. lia.
    + intros i Hi Hout. rewrite H9 by lia.
      apply list_lookup_insert_ne; lia.
    + exists (glClientWaitSync (Some f) :: glDeleteSync (Some f) :: es).
      split; [rewrite Hes, <- app_assoc; reflexivity|].
      split; [cbn; assumption|].
      intros i Hi.
      destruct (Z.eq_dec i (m_available_block_index b)) as [->|Hne].
      * exists f. split; [assumption | left; reflexivity].
      * destruct (Hw i) as (g & Hg & Hin); [lia|].
        rewrite list_lookup_insert_ne in Hg by lia.
        exists g. split; [assumption | right; right; assumption].
Qed.

(** The two functions built on the loops. *)
Lemma AddSyncsForOffset_post (offset : Z) (b b' : SyncingStreamBuffer) :
  0 <= m_used_block_index b ->
  AddSyncsForOffset offset b = Ok b' ->
  m_bytes_per_block b <> 0 /\
  AddSyncs_post (offset / m_bytes_per_block b) b b'.
Proof.
  intros Hu H. unfold AddSyncsForOffset, GetSyncIndexForOffset in H.
  bind_inv H as en Hen. apply udiv_Ok in Hen as [Hne ->].
  split; [assumption|]. eapply AddSyncs_loop_post; eauto.
Qed.

Lemma EnsureSyncsWaitedForOffset_post (offset : Z) (b b' : SyncingStreamBuffer) :
  0 <= m_available_block_index b ->
  EnsureSyncsWaitedForOffset offset b = Ok b' ->
  m_bytes_per_block b <> 0 /\
  EnsureSyncs_post
    (Z.min (u32 (offset / m_bytes_per_block b + 1)) NUM_SYNC_POINTS) b b'.
Proof.
  intros Hu H. unfold EnsureSyncsWaitedForOffset, GetSyncIndexForOffset in H.
  bind_inv H as en Hen. apply udiv_Ok in Hen as [Hne ->].
  split; [assumption|]. eapply EnsureSyncs_loop_post; eauto.
Qed.

Lemma AllocateSpace_Ok (size : Z) (b b' : SyncingStreamBuffer) :
  AllocateSpace size b = Ok b' -> AllocateSpace_path size b b'.
Proof.
  unfold AllocateSpace. intros H.
  bind_inv H as b1 H1. bind_inv H as b2 H2.
  destruct (u32 (m_position b2 + size) >? m_size b2) eqn:E.
  - bind_inv H as b4 H4. bind_inv H as b6 H6. bind_inv H as b8 H8.
    injection H as <-.
    eapply path_rewind; eauto. apply Z.gtb_lt in E. lia.
  - injection H as <-. eapply path_straight; eauto.
    rewrite Z.gtb_ltb in E. apply Z.ltb_ge in E. exact E.
Qed.

(** [Map] is an optional alignment of the position, [AllocateSpace], and
    the computation of the result. *)
Lemma Map_Ok (alignment min_size : Z) (b b' : SyncingStreamBuffer)
    (r : MappingResult) :
  BufferStorageStreamBuffer.Map alignment min_size b = Ok (r, b') ->
  exists p,
    AllocateSpace min_size (set_position p b) = Ok b' /\
    (AlignUp (m_position b) alignment = Ok p \/ p = m_position b) /\
    alignment <> 0 /\
    u32 (m_position b' + min_size)
      <= u32 (m_available_block_index b' * m_bytes_per_block b') /\
    r = mkMappingResult (mapped_ptr (m_position b')) (m_position b')
          (m_position b' / alignment)
          (u32 (u32 (m_available_block_index b' * m_bytes_per_block b')
                - m_position b') / alignment).
Proof.
  unfold BufferStorageStreamBuffer.Map. intros H.
  bind_inv H as b1 H1. bind_inv H as b2 H2.
  bind_inv H as u Ha. apply DebugAssert_Ok, Z.leb_le in Ha.
  bind_inv H as idx Hi. apply udiv_Ok in Hi as [Hne ->].
  bind_inv H as sp Hsp. apply udiv_Ok in Hsp as [_ ->].
  injection H as <- <-.
  destruct (m_position b >? 0) eqn:E.
  - bind_inv H1 as p Hp. injection H1 as <-.
    exists p. repeat split; auto.
  - injection H1 as <-. exists (m_position b).
    replace (set_position (m_position b) b) with b by (destruct b; reflexivity).
    repeat split; auto.
Qed.

Lemma AlignUp_range (value alignment p : Z) :
  AlignUp value alignment = Ok p -> 0 <= p < 2 ^ 32.
Proof.
  unfold AlignUp. intros H. bind_inv H as q Hq. injection H as <-.
  apply u32_range.
Qed.

Lemma div_le_bound (p d k : Z) : 0 < d -> p / d <= k -> p < (k + 1) * d.
Proof.
  intros Hd Hq. pose proof (Z.mul_succ_div_gt p d Hd). nia.
Qed.

Lemma div_ge_bound (p d k : Z) : 0 < d -> k * d <= p -> k <= p / d.
Proof.
  intros Hd Hp. apply Z.div_le_lower_bound; lia.
Qed.

(** ** Invariants of the ring *)

Section Ring.

(** The capacity the buffer was created with.  The bound keeps every
    sum the code forms below 2^32. *)
Variable size : Z.
Hypothesis size_pos : 0 < size.
Hypothesis size_le : size <= 2 ^ 30.

Local Abbreviation bpb := (bytes_per_block size).

Lemma bytes_per_block_bounds :
  1 <= bpb <= 2 ^ 26 /\
  size <= 16 * bpb <= size + 15.
Proof. unfold bytes_per_block. Z.div_mod_to_equations. lia. Qed.

Lemma construct_bytes_per_block target buffer_id coherent g :
  m_bytes_per_block (construct target buffer_id size coherent g)
    = bpb.
Proof.
  cbn. unfold NUM_SYNC_POINTS, bpb.
  rewrite (u32_small (size + 16)) by lia.
  rewrite u32_small by lia. f_equal. lia.
Qed.

Lemma construct_Inv target buffer_id coherent :
  Inv size (construct target buffer_id size coherent gl_init).
Proof.
  split; [|cbn; lia].
  constructor.
  - reflexivity.
  - apply construct_bytes_per_block.
  - cbn. lia.
  - cbn. unfold NUM_SYNC_POINTS. lia.
  - right. reflexivity.
  - reflexivity.
  - cbn. lia.
  - intros _. reflexivity.
  - intros i f Hi. unfold slot. cbn.
    intros H. apply list_elem_of_lookup_2 in H.
    apply elem_of_replicate in H as [H _]. discriminate.
Qed.

Lemma AllocateSpace_facts_of (s : Z) (b b' : SyncingStreamBuffer) :
  ring size b ->
  0 <= m_position b < 2 ^ 32 ->
  0 <= s <= size ->
  AllocateSpace s b = Ok b' ->
  AllocateSpace_facts size s b b'.
Proof.
  intros R Hp Hs H.
  pose proof bytes_per_block_bounds as Hb.
  destruct R as [Rs Rb Ru Ra Ro Rl Rf Rfr Rlg].
  apply AllocateSpace_Ok in H.
  assert (Hcommon : forall b1,
    AddSyncsForOffset (m_position b) b = Ok b1 ->
    AddSyncs_post (m_position b / bpb) b b1 /\
    m_position b + s < 2 ^ 32 - 1).
  { intros b1 H1. apply AddSyncsForOffset_post in H1 as [_ P1]; [|lia].
    rewrite Rb in P1. split; [assumption|].
    pose proof (as_used _ _ _ P1) as Hu1.
    pose proof (as_used_le _ _ _ P1) as Hu2.
    assert (Hq : m_position b / bpb <= 16) by lia.
    apply div_le_bound in Hq; lia. }
  assert (Hens : forall off c c',
    0 <= off < 2 ^ 32 - 1 ->
    0 <= m_available_block_index c ->
    m_bytes_per_block c = bpb ->
    EnsureSyncsWaitedForOffset (u32 off) c = Ok c' ->
    EnsureSyncs_post (Z.min (off / bpb + 1) 16) c c').
  { intros off c c' Ho Hc Hcb H2.
    apply EnsureSyncsWaitedForOffset_post in H2 as [_ P2]; [|assumption].
    rewrite Hcb, (u32_small off) in P2 by lia.
    rewrite u32_small in P2; [exact P2|].
    pose proof (Z.div_pos off bpb).
    pose proof (Z.div_lt_upper_bound off bpb (2 ^ 32 - 1)).
    nia. }
  destruct H as [b1 H1 H2 Hle | b1 b2 b4 b6 b8 H1 H2 Hgt H4 H6 H8 ->].
  - destruct (Hcommon b1 H1) as [P1 Hsum].
    rewrite (as_position _ _ _ P1) in H2.
    pose proof (Hens (m_position b + s) b1 b') as P2.
    apply P2 in H2;
      [|lia|rewrite (as_available _ _ _ P1); lia
       |rewrite (as_bpb _ _ _ P1); assumption].
    rewrite (es_position _ _ _ H2), (as_position _ _ _ P1) in Hle.
    rewrite (es_size _ _ _ H2), (as_size _ _ _ P1), Rs in Hle.
    rewrite u32_small in Hle by lia.
    eapply facts_straight; eauto.
  - destruct (Hcommon b1 H1) as [P1 Hsum].
    rewrite (as_position _ _ _ P1) in H2.
    pose proof (Hens (m_position b + s) b1 b2) as P2.
    apply P2 in H2;
      [|lia|rewrite (as_available _ _ _ P1); lia
       |rewrite (as_bpb _ _ _ P1); assumption].
    rewrite (es_position _ _ _ H2), (as_position _ _ _ P1) in Hgt.
    rewrite (es_size _ _ _ H2), (as_size _ _ _ P1), Rs in Hgt.
    rewrite u32_small in Hgt by lia.
    rewrite (es_size _ _ _ H2), (as_size _ _ _ P1), Rs in H4.
    apply AddSyncsForOffset_post in H4 as [_ P4];
      [|cbn; rewrite (es_used _ _ _ H2), (as_used _ _ _ P1); lia].
    cbn [emit set_gl m_bytes_per_block] in P4.
    rewrite (es_bpb _ _ _ H2), (as_bpb _ _ _ P1), Rb in P4.
    apply WaitForSync_Ok in H6 as (w & _ & Hw & ->).
    rewrite <- (u32_small s) in H8 by lia.
    apply Hens in H8; [|lia|cbn; lia|].
    + eapply facts_rewind; eauto.
    + cbn. rewrite (as_bpb _ _ _ P4). cbn.
      rewrite (es_bpb _ _ _ H2), (as_bpb _ _ _ P1). assumption.
Qed.

(** *** Bookkeeping on the log and on the slots *)

Lemma AddSyncs_post_logged en b b' :
  AddSyncs_post en b b' -> logged b -> logged b'.
Proof.
  intros P L i f Hi Hs.
  destruct (as_log _ _ _ P) as (es & Hes & _).
  destruct (Z_lt_dec i (m_used_block_index b)) as [Hlt|Hge].
  - rewrite (as_kept _ _ _ P) in Hs by lia.
    rewrite Hes. apply in_or_app. left. now apply L.
  - destruct (Z_lt_dec i (m_used_block_index b')) as [Hlt'|Hge'].
    + destruct (as_filled _ _ _ P i) as (_ & g & Hg & Hin); [lia|].
      rewrite Hg in Hs. injection Hs as <-. exact Hin.
    + rewrite (as_kept _ _ _ P) in Hs by lia.
      rewrite Hes. apply in_or_app. left. now apply L.
Qed.

Lemma EnsureSyncs_post_logged en b b' :
  EnsureSyncs_post en b b' -> logged b -> logged b'.
Proof.
  intros P L i f Hi Hs.
  destruct (es_log _ _ _ P) as (es & Hes & _).
  destruct (Z_lt_dec i (m_available_block_index b)) as [Hlt|Hge].
  - rewrite (es_kept _ _ _ P) in Hs by lia.
    rewrite Hes. apply in_or_app. left. now apply L.
  - destruct (Z_lt_dec i (m_available_block_index b')) as [Hlt'|Hge'].
    + rewrite (es_cleared _ _ _ P) in Hs by lia. discriminate.
    + rewrite (es_kept _ _ _ P) in Hs by lia.
      rewrite Hes. apply in_or_app. left. now apply L.
Qed.

Lemma emit_logged es b : logged b -> logged (emit es b).
Proof.
  intros L i f Hi Hs. cbn. apply in_or_app. left. now apply L.
Qed.

Lemma slot_rewound_0 w b4 f : slot (rewound w b4) 0 <> Some (Some f).
Proof.
  unfold slot, rewound. cbn.
  destruct (m_sync_objects b4) as [|x l]; cbn; discriminate.
Qed.

Lemma slot_rewound_other w b4 i :
  0 < i -> slot (rewound w b4) i = slot b4 i.
Proof.
  intros Hi. unfold slot, rewound. cbn.
  apply list_lookup_insert_ne. lia.
Qed.

Lemma rewound_logged w b4 : logged b4 -> logged (rewound w b4).
Proof.
  intros L i f Hi Hs.
  destruct (Z.eq_dec i 0) as [->|Hne].
  - exfalso. now apply (slot_rewound_0 w b4 f).
  - rewrite slot_rewound_other in Hs by lia.
    cbn. apply in_or_app. left. now apply L.
Qed.

(** *** [AllocateSpace] re-establishes the invariant *)

Ltac fields :=
  cbn [m_size m_bytes_per_block m_position m_used_block_index
       m_available_block_index m_sync_objects gl gl_calls
       set_position set_used set_available set_sync set_gl emit gl_emit
       rewound] in *.

Lemma div_mono_add (p s : Z) :
  0 <= s -> p / bpb <= (p + s) / bpb.
Proof.
  intros Hs. pose proof bytes_per_block_bounds.
  apply Z.div_le_mono; lia.
Qed.

Lemma size_div_ge_1 : 1 <= size / bpb.
Proof.
  pose proof bytes_per_block_bounds.
  apply div_ge_bound; [lia|].
  unfold bytes_per_block in *. Z.div_mod_to_equations. lia.
Qed.

Lemma AllocateSpace_Inv (s : Z) (b b' : SyncingStreamBuffer) :
  ring size b ->
  0 <= m_position b < 2 ^ 32 ->
  0 <= s <= size ->
  AllocateSpace s b = Ok b' ->
  Inv size b'.
Proof.
  intros R Hp Hs H.
  destruct (AllocateSpace_facts_of s b b' R Hp Hs H)
    as [b1 P1 P2 Hle | b1 b2 b4 b8 w P1 P2 Hgt P4 Hw P8 ->].
  - pose proof (div_mono_add (m_position b) s (proj1 Hs)) as Hq.
    destruct R as [Rs Rb Ru Ra Ro Rl Rf Rfr Rlg].
    destruct P1 as [A1 A2 A3 A4 A5 A6 A7 A8 A9 (es1 & Hes1 & Hf1)].
    destruct P2 as [E1 E2 E3 E4 E5 E6 E7 E8 E9 (es2 & Hes2 & Hf2 & Hw2)].
    split; [constructor|]; try lia; try congruence.
    + (* block 0 stays fenced while used_block_index is positive *)
      intros Hu. unfold fenced. rewrite E9 by lia.
      destruct (Z_lt_dec 0 (m_used_block_index b)) as [Hpos|Hz].
      * rewrite A9 by lia. apply Rf. lia.
      * destruct (A8 0) as (_ & f & Hf & _); [lia|]. eauto.
    + intros Hnr. rewrite Hes2, Hes1 in Hnr.
      assert (Hn : ~ In rewind (gl_calls (gl b))).
      { intros Hin. apply Hnr. apply in_or_app. left.
        apply in_or_app. left. exact Hin. }
      apply Rfr in Hn. lia.
    + eapply EnsureSyncs_post_logged;
        [constructor; eauto|].
      eapply AddSyncs_post_logged; [constructor; eauto|]. exact Rlg.
  - pose proof (AddSyncs_post_logged _ _ _ P1 (ring_logged _ _ R)) as L1.
    pose proof (EnsureSyncs_post_logged _ _ _ P2 L1) as L2.
    pose proof (AddSyncs_post_logged _ _ _ P4 (emit_logged [rewind] _ L2))
      as L4.
    pose proof (EnsureSyncs_post_logged _ _ _ P8 (rewound_logged w _ L4))
      as L8.
    destruct R as [Rs Rb Ru Ra Ro Rl Rf Rfr Rlg].
    destruct P1 as [A1 A2 A3 A4 A5 A6 A7 _ _ _].
    destruct P2 as [E1 E2 E3 E4 E5 E6 E7 _ _ _].
    destruct P4 as [B1 B2 B3 B4 B5 B6 B7 _ _ (es4 & Hes4 & _)].
    destruct P8 as [F1 F2 F3 F4 F5 F6 F7 _ _ (es8 & Hes8 & _)].
    fields.
    split; [constructor|]; fields; try lia; try congruence.
    + rewrite F7, length_insert. congruence.
    + intros Hnr. exfalso. apply Hnr.
      rewrite Hes8, Hes4. apply in_or_app. left. apply in_or_app. left.
      apply in_or_app. left. apply in_or_app. right. left. reflexivity.
    + intros i f Hi Hsl. apply L8; assumption.
Qed.

(** *** Strictness: with non-empty requests a fenced block is never
    available *)

Lemma AllocateSpace_strict (s : Z) (b b' : SyncingStreamBuffer) :
  ring size b ->
  0 <= m_position b < 2 ^ 32 ->
  1 <= s <= size ->
  m_used_block_index b < m_available_block_index b ->
  AllocateSpace s b = Ok b' ->
  m_used_block_index b' < m_available_block_index b'.
Proof.
  intros R Hp Hs Hlt H.
  assert (Hs' : 0 <= s <= size) by lia.
  destruct (AllocateSpace_facts_of s b b' R Hp Hs' H)
    as [b1 P1 P2 Hle | b1 b2 b4 b8 w P1 P2 Hgt P4 Hw P8 ->].
  - pose proof (div_mono_add (m_position b) s (proj1 Hs')) as Hq.
    pose proof bytes_per_block_bounds as Hb.
    assert (Hq16 : m_position b / bpb < 16).
    { apply Z.div_lt_upper_bound; lia. }
    destruct R as [Rs Rb Ru Ra Ro Rl Rf Rfr Rlg].
    destruct P1 as [A1 A2 A3 A4 A5 A6 A7 _ _ _].
    destruct P2 as [E1 E2 E3 E4 E5 E6 E7 _ _ _].
    lia.
  - destruct P8 as [F1 F2 F3 F4 F5 F6 F7 _ _ _]. fields. lia.
Qed.

(** *** Which slots hold a fence, for a capacity that is a multiple of
    the number of blocks *)

Lemma not_fenced_None b i : slot b i = Some None -> ~ fenced b i.
Proof. intros H (f & Hf). rewrite H in Hf. discriminate. Qed.

Lemma AddSyncs_post_slots en b b' (a : Z) :
  AddSyncs_post en b b' ->
  0 <= m_used_block_index b <= a ->
  a <= 16 ->
  (forall i, 0 <= i < 16 -> (fenced b i <-> i < m_used_block_index b \/ a <= i)) ->
  m_used_block_index b' <= a /\
  (forall i, 0 <= i < 16 -> (fenced b' i <-> i < m_used_block_index b' \/ a <= i)).
Proof.
  intros P Hu Ha F.
  pose proof (as_used _ _ _ P) as Hmax.
  pose proof (as_used_le _ _ _ P) as Hmax16.
  assert (Hle : m_used_block_index b' <= a).
  { destruct (Z_le_dec (m_used_block_index b') a) as [|Hgt]; [assumption|].
    exfalso.
    destruct (as_filled _ _ _ P a) as (Hn & _); [lia|].
    apply not_fenced_None in Hn. apply Hn. apply F; lia. }
  split; [assumption|].
  intros i Hi.
  destruct (Z_lt_dec i (m_used_block_index b)) as [H1|H1].
  - unfold fenced. rewrite (as_kept _ _ _ P) by lia.
    split; [intros _; lia|]. intros _. apply F; lia.
  - destruct (Z_lt_dec i (m_used_block_index b')) as [H2|H2].
    + destruct (as_filled _ _ _ P i) as (_ & f & Hf & _); [lia|].
      split; [intros _; lia|]. intros _. exists f. exact Hf.
    + unfold fenced. rewrite (as_kept _ _ _ P) by lia.
      split.
      * intros Hf. apply F in Hf; lia.
      * intros Hc. apply F; lia.
Qed.

Lemma EnsureSyncs_post_slots en b b' (u : Z) :
  EnsureSyncs_post en b b' ->
  u <= m_available_block_index b ->
  0 <= m_available_block_index b ->
  (forall i, 0 <= i < 16 ->
     (fenced b i <-> i < u \/ m_available_block_index b <= i)) ->
  (forall i, 0 <= i < 16 ->
     (fenced b' i <-> i < u \/ m_available_block_index b' <= i)).
Proof.
  intros P Hu Ha F i Hi.
  pose proof (es_available _ _ _ P) as Hmax.
  destruct (Z_lt_dec i (m_available_block_index b)) as [H1|H1].
  - unfold fenced. rewrite (es_kept _ _ _ P) by lia.
    split.
    + intros Hf. apply F in Hf; lia.
    + intros Hc. apply F; lia.
  - destruct (Z_lt_dec i (m_available_block_index b')) as [H2|H2].
    + pose proof (es_cleared _ _ _ P i) as Hn.
      split; [|lia]. intros Hf. exfalso.
      apply (not_fenced_None b' i); [apply Hn; lia | exact Hf].
    + unfold fenced. rewrite (es_kept _ _ _ P) by lia.
      split; [intros _; lia|]. intros _. apply F; lia.
Qed.

Lemma AllocateSpace_slots (s : Z) (b b' : SyncingStreamBuffer) :
  size = 16 * bpb ->
  ring size b ->
  0 <= m_position b < 2 ^ 32 ->
  0 <= s <= size ->
  slots_exact b ->
  AllocateSpace s b = Ok b' ->
  slots_exact b'.
Proof.
  intros Hdiv R Hp Hs F H.
  pose proof bytes_per_block_bounds as Hb.
  destruct (AllocateSpace_facts_of s b b' R Hp Hs H)
    as [b1 P1 P2 Hle | b1 b2 b4 b8 w P1 P2 Hgt P4 Hw P8 ->].
  - destruct (AddSyncs_post_slots _ _ _ (m_available_block_index b) P1)
      as [Hu1 F1]; [destruct R; lia | destruct R; lia | exact F |].
    rewrite <- (as_available _ _ _ P1) in Hu1, F1.
    pose proof (EnsureSyncs_post_slots _ _ _ _ P2 Hu1) as F2.
    unfold slots_exact. rewrite (es_used _ _ _ P2).
    apply F2; [|exact F1].
    rewrite (as_available _ _ _ P1). destruct R; lia.
  - destruct (AddSyncs_post_slots _ _ _ (m_available_block_index b) P1)
      as [Hu1 F1]; [destruct R; lia | destruct R; lia | exact F |].
    rewrite <- (as_available _ _ _ P1) in Hu1, F1.
    pose proof (EnsureSyncs_post_slots _ _ _ _ P2 Hu1) as F2.
    assert (Ha1 : 0 <= m_available_block_index b1).
    { rewrite (as_available _ _ _ P1). destruct R; lia. }
    specialize (F2 Ha1 F1).
    (* everything up to the end of the buffer has been waited for *)
    assert (Hq : 16 <= (m_position b + s) / bpb).
    { apply div_ge_bound; lia. }
    assert (Ha2 : m_available_block_index b2 = 16).
    { pose proof (es_available _ _ _ P2).
      pose proof (es_available_le _ _ _ P2).
      rewrite (as_available _ _ _ P1) in *. destruct R. lia. }
    (* the tail is fenced: all sixteen slots hold a fence *)
    assert (Hq4 : size / bpb = 16).
    { rewrite Hdiv at 1. apply Z.div_mul. lia. }
    assert (F3 : forall i, 0 <= i < 16 ->
               (fenced (emit [rewind] b2) i <->
                i < m_used_block_index (emit [rewind] b2) \/ 16 <= i)).
    { intros i Hi. specialize (F2 i Hi).
      rewrite Ha2, <- (es_used _ _ _ P2) in F2. exact F2. }
    destruct (AddSyncs_post_slots _ _ _ 16 P4) as [_ F4];
      [fields; rewrite (es_used _ _ _ P2);
       pose proof (as_used _ _ _ P1); pose proof (as_used_le _ _ _ P1);
       destruct R; lia
      | lia | exact F3 |].
    assert (Hu4 : m_used_block_index b4 = 16).
    { pose proof (as_used _ _ _ P4). pose proof (as_used_le _ _ _ P4).
      fields. rewrite Hq4 in *. rewrite (es_used _ _ _ P2) in *.
      pose proof (as_used _ _ _ P1). pose proof (as_used_le _ _ _ P1).
      destruct R. lia. }
    (* after the wait on block 0 exactly the blocks from 1 on are fenced *)
    assert (F7 : forall i, 0 <= i < 16 ->
               (fenced (rewound w b4) i <->
                i < 0 \/ m_available_block_index (rewound w b4) <= i)).
    { intros i Hi. fields.
      destruct (Z.eq_dec i 0) as [->|Hne].
      - split; [|lia]. intros (f & Hf). exfalso.
        now apply (slot_rewound_0 w b4 f).
      - unfold fenced. rewrite slot_rewound_other by lia.
        split; [intros _; lia|]. intros _. apply F4; lia. }
    pose proof (EnsureSyncs_post_slots _ _ _ 0 P8) as F8.
    intros i Hi. fields. apply F8; fields; try lia. exact F7.
Qed.

(** *** Blocks become available only through a wait on their fence *)

Lemma fences_no_rewind es : forallb is_fence es = true -> ~ In rewind es.
Proof.
  intros H Hin. rewrite forallb_forall in H. apply H in Hin. discriminate.
Qed.

Lemma waits_no_rewind es :
  forallb is_wait_or_delete es = true -> ~ In rewind es.
Proof.
  intros H Hin. rewrite forallb_forall in H. apply H in Hin. discriminate.
Qed.

Lemma AddSyncs_post_first en b b' :
  AddSyncs_post en b b' ->
  0 <= m_used_block_index b ->
  (1 <= m_used_block_index b -> fenced b 0) ->
  1 <= m_used_block_index b' -> fenced b' 0.
Proof.
  intros P Hu Hf Hu'.
  destruct (Z_lt_dec 0 (m_used_block_index b)) as [Hpos|Hz].
  - unfold fenced. rewrite (as_kept _ _ _ P) by lia. apply Hf. lia.
  - destruct (as_filled _ _ _ P 0) as (_ & f & Hs & _); [lia|].
    exists f. exact Hs.
Qed.

Lemma AllocateSpace_waits (s : Z) (b b' : SyncingStreamBuffer) :
  ring size b ->
  0 <= m_position b < 2 ^ 32 ->
  0 <= s <= size ->
  AllocateSpace s b = Ok b' ->
  exists es,
    gl_calls (gl b') = gl_calls (gl b) ++ es /\
    forall i,
      0 <= i < m_available_block_index b' ->
      m_available_block_index b <= i \/ In rewind es ->
      exists f,
        In (glFenceSync i f) (gl_calls (gl b')) /\
        In (glClientWaitSync (Some f)) es.
Proof.
  intros R Hp Hs H.
  destruct (AllocateSpace_facts_of s b b' R Hp Hs H)
    as [b1 P1 P2 Hle | b1 b2 b4 b8 w P1 P2 Hgt P4 Hw P8 ->].
  - pose proof (AddSyncs_post_logged _ _ _ P1 (ring_logged _ _ R)) as L1.
    destruct (as_log _ _ _ P1) as (es1 & Hes1 & Hf1).
    destruct (es_log _ _ _ P2) as (es2 & Hes2 & Hf2 & Hw2).
    exists (es1 ++ es2). split; [rewrite Hes2, Hes1, app_assoc; reflexivity|].
    intros i Hi [Hnew|Hrew].
    + destruct (Hw2 i) as (f & Hsl & Hin);
        [rewrite (as_available _ _ _ P1); lia|].
      exists f. split.
      * rewrite Hes2. apply in_or_app. left. apply L1; [lia|exact Hsl].
      * apply in_or_app. right. exact Hin.
    + exfalso. apply in_app_or in Hrew as [Hrew|Hrew].
      * now apply (fences_no_rewind es1).
      * now apply (waits_no_rewind es2).
  - pose proof (AddSyncs_post_logged _ _ _ P1 (ring_logged _ _ R)) as L1.
    pose proof (EnsureSyncs_post_logged _ _ _ P2 L1) as L2.
    pose proof (AddSyncs_post_logged _ _ _ P4 (emit_logged [rewind] _ L2))
      as L4.
    (* block 0 is fenced when the wait on it is issued *)
    assert (Hfirst : fenced b4 0).
    { apply (AddSyncs_post_first _ _ _ P4).
      - fields. rewrite (es_used _ _ _ P2).
        pose proof (as_used _ _ _ P1). destruct R. lia.
      - fields. intros Hu2. unfold fenced.
        change (slot (emit [rewind] b2) 0) with (slot b2 0).
        rewrite (es_kept _ _ _ P2);
          [|lia|rewrite (as_available _ _ _ P1); destruct R; lia].
        apply (AddSyncs_post_first _ _ _ P1);
          [destruct R; lia | apply (ring_first _ _ R) |].
        rewrite <- (es_used _ _ _ P2). exact Hu2.
      - pose proof (as_used _ _ _ P4). pose proof size_div_ge_1. lia. }
    destruct Hfirst as (f0 & Hf0).
    rewrite Hf0 in Hw. injection Hw as <-.
    destruct (as_log _ _ _ P1) as (es1 & Hes1 & _).
    destruct (es_log _ _ _ P2) as (es2 & Hes2 & _).
    destruct (as_log _ _ _ P4) as (es4 & Hes4 & _).
    destruct (es_log _ _ _ P8) as (es8 & Hes8 & _ & Hw8).
    fields.
    exists (es1 ++ es2 ++ [rewind] ++ es4
            ++ [glClientWaitSync (Some f0); glDeleteSync (Some f0)] ++ es8).
    split.
    { rewrite Hes8, Hes4, Hes2, Hes1.
      repeat rewrite <- app_assoc. reflexivity. }
    intros i Hi _.
    destruct (Z.eq_dec i 0) as [->|Hne].
    + exists f0. split.
      * rewrite Hes8. apply in_or_app. left. apply in_or_app. left.
        apply L4; [lia|exact Hf0].
      * do 4 (apply in_or_app; right). left. reflexivity.
    + destruct (Hw8 i) as (f & Hsl & Hin); [fields; lia|].
      rewrite slot_rewound_other in Hsl by lia.
      exists f. split.
      * rewrite Hes8. apply in_or_app. left. apply in_or_app. left.
        apply L4; [lia|exact Hsl].
      * do 4 (apply in_or_app; right). right. right. exact Hin.
Qed.

(** *** The calls of the producer *)

Lemma ring_set_position p b : ring size b -> ring size (set_position p b).
Proof. intros [? ? ? ? ? ? ? ? ?]. constructor; assumption. Qed.

Lemma Map_Inv alignment s b r b' :
  Inv size b -> 0 <= s <= size ->
  BufferStorageStreamBuffer.Map alignment s b = Ok (r, b') ->
  Inv size b'.
Proof.
  intros [R Hp] Hs H.
  pose proof size_le.
  apply Map_Ok in H as (p & Ha & Hal & _).
  apply (AllocateSpace_Inv s (set_position p b)); auto.
  - now apply ring_set_position.
  - cbn. destruct Hal as [Hal| ->]; [now apply AlignUp_range in Hal|lia].
Qed.

Lemma Unmap_Inv u b b' :
  Inv size b -> BufferStorageStreamBuffer.Unmap u b = Ok b' -> Inv size b'.
Proof.
  intros [R Hp] H. unfold BufferStorageStreamBuffer.Unmap in H.
  bind_inv H as t Ha. apply DebugAssert_Ok, Z.leb_le in Ha.
  injection H as <-.
  destruct R as [Rs Rb Ru Ra Ro Rl Rf Rfr Rlg].
  destruct (m_coherent b).
  - split; [constructor; assumption|]. cbn.
    pose proof (u32_range (m_position b + u)). lia.
  - split; [constructor; try assumption|].
    + intros Hnr. apply Rfr. intros Hin. apply Hnr. cbn.
      apply in_or_app. left. exact Hin.
    + intros i f Hi Hsl. cbn. apply in_or_app. left. now apply Rlg.
    + cbn in *. pose proof (u32_range (m_position b + u)). lia.
Qed.

Lemma run_invariant (P : SyncingStreamBuffer -> Prop) (Q : call -> Prop) :
  (forall c b b', Q c -> P b -> step c b = Ok b' -> P b') ->
  forall cs b b', Forall Q cs -> P b -> run cs b = Ok b' -> P b'.
Proof.
  intros Hstep cs. induction cs as [|c cs IH]; intros b b' Hq Hb H.
  - injection H as <-. exact Hb.
  - cbn in H. bind_inv H as b1 H1.
    apply Forall_cons in Hq as [Hc Hcs].
    apply (IH b1 b' Hcs); [|exact H].
    apply (Hstep c b b1); assumption.
Qed.

Lemma step_Map alignment s b b' :
  step (Map_call alignment s) b = Ok b' ->
  exists r, BufferStorageStreamBuffer.Map alignment s b = Ok (r, b').
Proof.
  cbn. intros H. bind_inv H as rb Hm. injection H as <-.
  exists (fst rb). destruct rb; exact Hm.
Qed.

Lemma step_Inv c b b' : call_ok size c -> Inv size b -> step c b = Ok b' -> Inv size b'.
Proof.
  destruct c as [a s|u]; intros Hc Hb H.
  - apply step_Map in H as (r & H). eapply Map_Inv; eauto.
  - eapply Unmap_Inv; eauto.
Qed.

Lemma run_Inv target buffer_id coherent cs b :
  Forall (call_ok size) cs ->
  run cs (construct target buffer_id size coherent gl_init) = Ok b ->
  Inv size b.
Proof.
  intros Hcs H.
  eapply (run_invariant (Inv size) (call_ok size) step_Inv); eauto.
  apply construct_Inv.
Qed.

(** *** Runs with non-empty requests, and runs on aligned capacities *)

Lemma Unmap_Ok u b b' :
  BufferStorageStreamBuffer.Unmap u b = Ok b' ->
  m_used_block_index b' = m_used_block_index b /\
  m_available_block_index b' = m_available_block_index b /\
  m_sync_objects b' = m_sync_objects b.
Proof.
  unfold BufferStorageStreamBuffer.Unmap. intros H.
  bind_inv H as t Ha. injection H as <-.
  destruct (m_coherent b); cbn; auto.
Qed.

Lemma step_strict c b b' :
  call_ok size c /\ call_nonempty c ->
  Inv_strict size b -> step c b = Ok b' -> Inv_strict size b'.
Proof.
  intros [Hc Hn] [Hb Hlt] H.
  split; [eapply step_Inv; eauto|].
  destruct c as [a s|u].
  - apply step_Map in H as (r & H).
    apply Map_Ok in H as (p & Ha & Hal & _).
    destruct Hb as [R Hp]. pose proof size_le.
    apply (AllocateSpace_strict s (set_position p b)); auto.
    + now apply ring_set_position.
    + cbn. destruct Hal as [Hal| ->]; [now apply AlignUp_range in Hal|lia].
    + cbn in Hc, Hn. lia.
  - apply Unmap_Ok in H as (-> & -> & _). exact Hlt.
Qed.

Lemma step_slots c b b' :
  size = 16 * bpb ->
  call_ok size c -> Inv_slots size b -> step c b = Ok b' -> Inv_slots size b'.
Proof.
  intros Hdiv Hc [Hb F] H.
  split; [eapply step_Inv; eauto|].
  destruct c as [a s|u].
  - apply step_Map in H as (r & H).
    apply Map_Ok in H as (p & Ha & Hal & _).
    destruct Hb as [R Hp]. pose proof size_le.
    apply (AllocateSpace_slots s (set_position p b)); auto.
    + now apply ring_set_position.
    + cbn. destruct Hal as [Hal| ->]; [now apply AlignUp_range in Hal|lia].
  - apply Unmap_Ok in H as (Hu & Ha & Hs).
    intros i Hi. unfold fenced, slot. rewrite Hu, Ha, Hs. now apply F.
Qed.

Lemma construct_slots_exact target buffer_id coherent :
  slots_exact (construct target buffer_id size coherent gl_init).
Proof.
  intros i Hi. cbn. unfold NUM_SYNC_POINTS. split; [|lia].
  intros (f & Hf). unfold slot in Hf. cbn in Hf.
  apply list_elem_of_lookup_2 in Hf.
  apply elem_of_replicate in Hf as [Hf _]. discriminate.
Qed.

Lemma run_strict target buffer_id coherent cs b :
  Forall (call_ok size) cs ->
  Forall call_nonempty cs ->
  run cs (construct target buffer_id size coherent gl_init) = Ok b ->
  m_used_block_index b < m_available_block_index b.
Proof.
  intros Hcs Hne H.
  assert (Hq : Forall (fun c => call_ok size c /\ call_nonempty c) cs)
    by (apply Forall_and; auto).
  eapply (run_invariant (Inv_strict size) _ step_strict) in H; eauto.
  - exact (proj2 H).
  - split; [apply construct_Inv|]. cbn. unfold NUM_SYNC_POINTS. lia.
Qed.

Lemma run_slots target buffer_id coherent cs b :
  size = 16 * bpb ->
  Forall (call_ok size) cs ->
  run cs (construct target buffer_id size coherent gl_init) = Ok b ->
  slots_exact b.
Proof.
  intros Hdiv Hcs H.
  eapply (run_invariant (Inv_slots size) (call_ok size)) in H; eauto.
  - exact (proj2 H).
  - intros c b0 b1. now apply step_slots.
  - split; [apply construct_Inv | apply construct_slots_exact].
Qed.

(** *** What a single [Map] does to a state of the ring *)

Lemma Map_waits alignment s b r b' :
  Inv size b -> 0 <= s <= size ->
  BufferStorageStreamBuffer.Map alignment s b = Ok (r, b') ->
  forall i,
    0 <= i < m_available_block_index b' ->
    m_available_block_index b <= i \/ In rewind (new_events b b') ->
    exists f,
      In (glFenceSync i f) (gl_calls (gl b')) /\
      In (glClientWaitSync (Some f)) (new_events b b').
Proof.
  intros [R Hp] Hs H.
  pose proof size_le.
  apply Map_Ok in H as (p & Ha & Hal & _).
  apply AllocateSpace_waits in Ha as (es & Hes & Hw); auto.
  - cbn in Hes. rewrite (new_events_app b b' es Hes). exact Hw.
  - now apply ring_set_position.
  - cbn. destruct Hal as [Hal| ->]; [now apply AlignUp_range in Hal|lia].
Qed.

(** On a capacity that is a multiple of 16 the granted region ends
    inside the buffer. *)
Lemma Map_grant_within_capacity alignment s b r b' :
  size = 16 * bpb ->
  Inv size b -> 0 <= s <= size -> 0 < alignment ->
  BufferStorageStreamBuffer.Map alignment s b = Ok (r, b') ->
  0 <= buffer_offset r /\
  buffer_offset r + space_aligned r * alignment <= size.
Proof.
  intros Hdiv Hb Hs Hal H.
  pose proof (Map_Inv _ _ _ _ _ Hb Hs H) as [R' Hp'].
  pose proof bytes_per_block_bounds as Hbb. pose proof size_le.
  apply Map_Ok in H as (p & _ & _ & _ & Hassert & ->).
  cbn [buffer_offset space_aligned].
  destruct R' as [Rs Rb Ru Ra Ro Rl Rf Rfr Rlg].
  rewrite Rb in *.
  assert (Hlim : 0 <= m_available_block_index b' * bpb <= size) by nia.
  rewrite (u32_small (m_available_block_index b' * bpb)) in * by lia.
  rewrite (u32_small (m_position b' + s)) in Hassert by lia.
  rewrite u32_small by lia.
  split; [lia|].
  pose proof (Z.mul_div_le
                (m_available_block_index b' * bpb - m_position b')
                alignment Hal).
  nia.
Qed.

End Ring.

Lemma aligned_capacity (size : Z) :
  0 < size -> size mod 16 = 0 -> size = 16 * bytes_per_block size.
Proof.
  intros Hp Hm. unfold bytes_per_block. Z.div_mod_to_equations. lia.
Qed.

(** ** Progress: calls that follow the protocol do not fault *)

Lemma AddSyncs_loop_succeeds (n : nat) (en : Z) (b : SyncingStreamBuffer) :
  0 <= m_used_block_index b ->
  n = Z.to_nat (en - m_used_block_index b) ->
  en <= 16 ->
  (forall i, m_used_block_index b <= i < en -> slot b i = Some None) ->
  exists b', AddSyncs_loop n en b = Ok b'.
Proof.
  revert b. induction n as [|n IH]; intros b Hu Hn Hen Hfree.
  - eexists. reflexivity.
  - cbn. destruct (m_used_block_index b <? en) eqn:E; [|eauto].
    apply Z.ltb_lt in E.
    pose proof (Hfree (m_used_block_index b) ltac:(lia)) as Hs.
    unfold AddSyncs_body, sync_at, NUM_SYNC_POINTS.
    replace (0 <=? m_used_block_index b) with true
      by (symmetry; apply Z.leb_le; lia).
    replace (m_used_block_index b <? 16) with true
      by (symmetry; apply Z.ltb_lt; lia).
    unfold slot in Hs. cbn [andb]. rewrite Hs. cbn [bind DebugAssert].
    cbn. rewrite u32_small by lia.
    apply IH; cbn; try lia.
    intros i Hi. unfold slot. cbn.
    rewrite list_lookup_insert_ne by lia. apply Hfree. lia.
Qed.

Lemma EnsureSyncs_loop_succeeds (n : nat) (en : Z) (b : SyncingStreamBuffer) :
  0 <= m_available_block_index b ->
  n = Z.to_nat (en - m_available_block_index b) ->
  en <= 16 ->
  (forall i, m_available_block_index b <= i < en -> fenced b i) ->
  exists b', EnsureSyncs_loop n en b = Ok b'.
Proof.
  revert b. induction n as [|n IH]; intros b Hu Hn Hen Hf.
  - eexists. reflexivity.
  - cbn. destruct (m_available_block_index b <? en) eqn:E; [|eauto].
    apply Z.ltb_lt in E.
    destruct (Hf (m_available_block_index b) ltac:(lia)) as (f & Hs).
    unfold EnsureSyncs_body, WaitForSync, sync_at, NUM_SYNC_POINTS.
    replace (0 <=? m_available_block_index b) with true
      by (symmetry; apply Z.leb_le; lia).
    replace (m_available_block_index b <? 16) with true
      by (symmetry; apply Z.ltb_lt; lia).
    unfold slot in Hs. cbn [andb]. rewrite Hs. cbn [bind DebugAssert].
    cbn. rewrite u32_small by lia.
    apply IH; cbn; try lia.
    intros i Hi. destruct (Hf i ltac:(lia)) as (g & Hg).
    exists g. unfold slot in *. cbn.
    rewrite list_lookup_insert_ne by lia. exact Hg.
Qed.

Lemma free_slot (b : SyncingStreamBuffer) (i : Z) :
  length (m_sync_objects b) = 16%nat ->
  0 <= i < 16 -> ~ fenced b i -> slot b i = Some None.
Proof.
  intros Hl Hi Hn. unfold fenced, slot in *.
  destruct (m_sync_objects b !! Z.to_nat i) as [[f|]|] eqn:E.
  - exfalso. apply Hn. eauto.
  - reflexivity.
  - apply lookup_ge_None in E. lia.
Qed.

Lemma AlignUp_succeeds (value alignment : Z) :
  0 < alignment -> 0 <= value -> value + alignment <= 2 ^ 32 ->
  exists p, AlignUp value alignment = Ok p /\ value <= p < value + alignment.
Proof.
  intros Ha Hv Hsum. unfold AlignUp, udiv.
  replace (alignment =? 0) with false by (symmetry; apply Z.eqb_neq; lia).
  cbn [bind].
  rewrite (u32_small (alignment - 1)) by lia.
  rewrite (u32_small (value + (alignment - 1))) by lia.
  pose proof (Z.mul_div_le (value + (alignment - 1)) alignment Ha).
  pose proof (Z.mul_succ_div_gt (value + (alignment - 1)) alignment Ha).
  eexists. split; [reflexivity|].
  rewrite u32_small by nia. nia.
Qed.

Section Progress.

Variable size : Z.
Hypothesis size_pos : 0 < size.
Hypothesis size_le : size <= 2 ^ 30.
Hypothesis size_aligned : size = 16 * bytes_per_block size.

Local Abbreviation bpb := (bytes_per_block size).

Lemma AddSyncsForOffset_succeeds offset b (a : Z) :
  ring size b ->
  0 <= offset -> offset / bpb <= a -> a <= 16 ->
  m_used_block_index b <= a ->
  (forall i, 0 <= i < 16 ->
     (fenced b i <-> i < m_used_block_index b \/ a <= i)) ->
  exists b', AddSyncsForOffset offset b = Ok b'.
Proof.
  intros R Ho Hen Ha Hu F.
  pose proof (bytes_per_block_bounds size size_pos size_le) as Hb.
  unfold AddSyncsForOffset, GetSyncIndexForOffset, udiv.
  rewrite (ring_bpb _ _ R).
  replace (bpb =? 0) with false by (symmetry; apply Z.eqb_neq; lia).
  cbn [bind].
  apply AddSyncs_loop_succeeds; try lia.
  - destruct R; lia.
  - intros i Hi. apply free_slot.
    + apply (ring_length _ _ R).
    + destruct R; lia.
    + intros Hf. apply F in Hf; destruct R; lia.
Qed.

Lemma EnsureSyncsWaitedForOffset_succeeds offset b (u : Z) :
  m_bytes_per_block b = bpb ->
  0 <= m_available_block_index b ->
  (forall i, 0 <= i < 16 ->
     (fenced b i <-> i < u \/ m_available_block_index b <= i)) ->
  exists b', EnsureSyncsWaitedForOffset offset b = Ok b'.
Proof.
  intros Hbpb Ha F.
  pose proof (bytes_per_block_bounds size size_pos size_le) as Hb.
  unfold EnsureSyncsWaitedForOffset, GetSyncIndexForOffset, udiv.
  rewrite Hbpb.
  replace (bpb =? 0) with false by (symmetry; apply Z.eqb_neq; lia).
  cbn [bind].
  apply EnsureSyncs_loop_succeeds; try lia.
  - unfold NUM_SYNC_POINTS. lia.
  - intros i Hi. apply F; unfold NUM_SYNC_POINTS in Hi; lia.
Qed.

Lemma AllocateSpace_succeeds s b :
  ring size b ->
  slots_exact b ->
  0 <= m_position b < (m_available_block_index b + 1) * bpb ->
  0 <= s <= size ->
  exists b', AllocateSpace s b = Ok b'.
Proof.
  intros R F Hp Hs.
  pose proof (bytes_per_block_bounds size size_pos size_le) as Hb.
  assert (Hidx : m_position b / bpb <= m_available_block_index b).
  { apply Z.lt_succ_r. apply Z.div_lt_upper_bound; lia. }
  assert (Hua : m_used_block_index b <= m_available_block_index b)
    by (destruct R; lia).
  (* fences for what was written *)
  destruct (AddSyncsForOffset_succeeds (m_position b) b
              (m_available_block_index b) R) as (b1 & H1);
    [lia | exact Hidx | destruct R; lia | exact Hua | exact F |].
  pose proof H1 as P1.
  apply AddSyncsForOffset_post in P1 as [_ P1]; [|destruct R; lia].
  destruct (AddSyncs_post_slots _ _ _ (m_available_block_index b) P1)
    as [Hu1 F1]; [destruct R; lia | destruct R; lia | exact F |].
  rewrite <- (as_available _ _ _ P1) in Hu1, F1.
  assert (Ha1 : 0 <= m_available_block_index b1)
    by (rewrite (as_available _ _ _ P1); destruct R; lia).
  assert (Hb1 : m_bytes_per_block b1 = bpb)
    by (rewrite (as_bpb _ _ _ P1); apply (ring_bpb _ _ R)).
  (* waits for what is asked *)
  destruct (EnsureSyncsWaitedForOffset_succeeds
              (u32 (m_position b1 + s)) b1 _ Hb1 Ha1 F1) as (b2 & H2).
  unfold AllocateSpace. rewrite H1. cbn [bind]. rewrite H2. cbn [bind].
  destruct (u32 (m_position b2 + s) >? m_size b2) eqn:E; [|eauto].
  (* the wrap-around branch *)
  pose proof H2 as P2.
  apply EnsureSyncsWaitedForOffset_post in P2 as [_ P2]; [|exact Ha1].
  pose proof (EnsureSyncs_post_slots _ _ _ _ P2 Hu1 Ha1 F1) as F2.
  apply Z.gtb_lt in E.
  rewrite (es_position _ _ _ P2), (as_position _ _ _ P1) in E.
  rewrite (es_size _ _ _ P2), (as_size _ _ _ P1), (ring_size _ _ R) in E.
  rewrite (as_position _ _ _ P1), Hb1 in P2.
  assert (Hsum : m_position b + s < 2 ^ 32 - 1).
  { pose proof (ring_available _ _ R) as Hav.
    assert ((m_available_block_index b + 1) * bpb <= 17 * bpb) by nia.
    lia. }
  rewrite (u32_small (m_position b + s)) in E, P2 by lia.
  assert (Hq : 16 <= (m_position b + s) / bpb).
  { apply Z.div_le_lower_bound; lia. }
  assert (Ha2 : m_available_block_index b2 = 16).
  { pose proof (es_available _ _ _ P2) as Hx.
    pose proof (es_available_le _ _ _ P2) as Hy.
    rewrite u32_small in Hx.
    - unfold NUM_SYNC_POINTS in Hx.
      rewrite (as_available _ _ _ P1) in *. destruct R. lia.
    - pose proof (Z.div_lt_upper_bound (m_position b + s) bpb (2 ^ 32 - 1)).
      lia. }
  assert (Hu2 : 0 <= m_used_block_index b2 <= 16).
  { rewrite (es_used _ _ _ P2).
    pose proof (as_used _ _ _ P1). pose proof (as_used_le _ _ _ P1).
    destruct R. lia. }
  assert (R3 : m_bytes_per_block (emit [rewind] b2) = bpb)
    by (cbn; rewrite (es_bpb _ _ _ P2); exact Hb1).
  assert (F3 : forall i, 0 <= i < 16 ->
             (fenced (emit [rewind] b2) i <->
              i < m_used_block_index (emit [rewind] b2) \/ 16 <= i)).
  { intros i Hi. specialize (F2 i Hi).
    rewrite Ha2, <- (es_used _ _ _ P2) in F2. exact F2. }
  assert (Hq4 : m_size b2 / bpb = 16).
  { rewrite (es_size _ _ _ P2), (as_size _ _ _ P1), (ring_size _ _ R).
    rewrite size_aligned at 1. apply Z.div_mul. lia. }
  assert (H4 : exists b4, AddSyncsForOffset (m_size b2) (emit [rewind] b2)
                            = Ok b4).
  { unfold AddSyncsForOffset, GetSyncIndexForOffset, udiv.
    rewrite R3.
    replace (bpb =? 0) with false by (symmetry; apply Z.eqb_neq; lia).
    cbn [bind]. rewrite Hq4.
    apply AddSyncs_loop_succeeds; try (cbn; lia).
    intros i Hi. cbn in Hi. apply free_slot.
    - cbn. rewrite (es_length _ _ _ P2), (as_length _ _ _ P1).
      apply (ring_length _ _ R).
    - lia.
    - intros Hf. apply F3 in Hf; cbn in Hf; lia. }
  destruct H4 as (b4 & H4). cbv zeta.
  change (m_size (emit [rewind] b2)) with (m_size b2).
  rewrite H4. cbn [bind].
  pose proof H4 as P4.
  apply AddSyncsForOffset_post in P4 as [_ P4]; [|cbn; lia].
  rewrite R3 in P4. cbn [emit set_gl m_size] in P4. rewrite Hq4 in P4.
  destruct (AddSyncs_post_slots _ _ _ 16 P4) as [_ F4];
    [cbn; lia | lia | exact F3 |].
  assert (Hu4 : m_used_block_index b4 = 16).
  { pose proof (as_used _ _ _ P4). pose proof (as_used_le _ _ _ P4).
    cbn in *. lia. }
  destruct (proj2 (F4 0 ltac:(lia)) ltac:(lia)) as (f0 & Hf0).
  unfold WaitForSync, sync_at, NUM_SYNC_POINTS.
  cbn [Z.leb Z.ltb Z.compare andb].
  change (m_sync_objects (set_position 0 b4) !! Z.to_nat 0)
    with (slot b4 0).
  rewrite Hf0. cbn [bind].
  change (set_available 1
            (set_sync 0 None
               (emit [glClientWaitSync (Some f0); glDeleteSync (Some f0)]
                  (set_position 0 b4))))
    with (rewound (Some f0) b4).
  destruct (EnsureSyncsWaitedForOffset_succeeds s (rewound (Some f0) b4) 0)
    as (b8 & H8).
  - cbn. rewrite (as_bpb _ _ _ P4). exact R3.
  - cbn. lia.
  - intros i Hi. cbn [rewound set_available m_available_block_index].
    destruct (Z.eq_dec i 0) as [->|Hne].
    + split; [|lia]. intros (f & Hf). exfalso.
      now apply (slot_rewound_0 (Some f0) b4 f).
    + unfold fenced. rewrite slot_rewound_other by lia.
      split; [intros _; lia|]. intros _. apply F4; lia.
  - rewrite H8. cbn [bind]. eauto.
Qed.

Lemma AllocateSpace_room s b b' :
  ring size b ->
  0 <= m_position b < 2 ^ 32 ->
  0 <= s <= size ->
  AllocateSpace s b = Ok b' ->
  m_position b' + s <= size /\
  m_position b' + s <= m_available_block_index b' * bpb.
Proof.
  intros R Hp Hs H.
  pose proof (bytes_per_block_bounds size size_pos size_le) as Hb.
  destruct (AllocateSpace_facts_of size size_pos size_le s b b' R Hp Hs H)
    as [b1 P1 P2 Hle | b1 b2 b4 b8 w P1 P2 Hgt P4 Hw P8 ->].
  - pose proof (Z.mul_succ_div_gt (m_position b + s) bpb ltac:(lia)) as Hq.
    pose proof (es_available _ _ _ P2) as Ha.
    rewrite (as_available _ _ _ P1) in Ha.
    rewrite (es_position _ _ _ P2), (as_position _ _ _ P1).
    pose proof (ring_available _ _ R).
    split; [lia|].
    destruct (Z_le_dec ((m_position b + s) / bpb + 1) 16); nia.
  - pose proof (Z.mul_succ_div_gt s bpb ltac:(lia)) as Hq.
    pose proof (es_available _ _ _ P8) as Ha.
    pose proof (es_position _ _ _ P8) as Hpos. cbn in Ha, Hpos. cbn.
    rewrite Hpos. split; [lia|].
    destruct (Z_le_dec (s / bpb + 1) 16); nia.
Qed.

Lemma Map_succeeds alignment s b :
  ready size b ->
  0 < alignment <= bpb ->
  0 <= s <= size ->
  exists r b',
    BufferStorageStreamBuffer.Map alignment s b = Ok (r, b') /\
    m_position b' + s <= size /\
    m_position b' + s <= m_available_block_index b' * bpb.
Proof.
  intros ([R Hp] & F & Hroom) Ha Hs.
  pose proof (bytes_per_block_bounds size size_pos size_le) as Hb.
  pose proof (ring_available _ _ R) as Hav.
  assert (Hp0 : exists p,
    (if m_position b >? 0
     then do p <- AlignUp (m_position b) alignment ; Ok (set_position p b)
     else Ok b) = Ok (set_position p b) /\
    m_position b <= p < m_position b + alignment).
  { destruct (m_position b >? 0) eqn:E.
    - destruct (AlignUp_succeeds (m_position b) alignment)
        as (p & Hal & Hpp); try lia.
      exists p. rewrite Hal. split; [reflexivity | exact Hpp].
    - exists (m_position b). split; [|lia].
      destruct b; reflexivity. }
  destruct Hp0 as (p & Hal & Hpp).
  destruct (AllocateSpace_succeeds s (set_position p b)) as (b' & H);
    [now apply ring_set_position | exact F | cbn; nia | exact Hs |].
  destruct (AllocateSpace_room s (set_position p b) b') as [Hr1 Hr2];
    [now apply ring_set_position | cbn; lia | exact Hs | exact H |].
  pose proof (AllocateSpace_Inv size size_pos size_le s (set_position p b) b')
    as [R' Hp']; [now apply ring_set_position | cbn; lia | exact Hs | exact H |].
  pose proof (ring_available _ _ R') as Hav'.
  unfold BufferStorageStreamBuffer.Map.
  rewrite Hal. cbn [bind]. rewrite H. cbn [bind].
  rewrite (ring_bpb _ _ R').
  rewrite (u32_small (m_position b' + s)) by lia.
  rewrite (u32_small (m_available_block_index b' * bpb)) by nia.
  replace (m_position b' + s <=? m_available_block_index b' * bpb)
    with true by (symmetry; apply Z.leb_le; lia).
  unfold udiv.
  replace (alignment =? 0) with false by (symmetry; apply Z.eqb_neq; lia).
  cbn [bind DebugAssert].
  do 2 eexists. split; [reflexivity|]. split; assumption.
Qed.

Lemma round_succeeds r b :
  ready size b -> round_ok size r ->
  exists b', run (round_calls r) b = Ok b' /\ ready size b'.
Proof.
  intros Hb (Ha & Hu & Hsz).
  destruct (Map_succeeds (r_alignment r) (r_min_size r) b)
    as (res & b1 & Hm & Hr1 & Hr2); [exact Hb | exact Ha | lia |].
  destruct Hb as (Hinv & F & _).
  assert (Hstep : step (Map_call (r_alignment r) (r_min_size r)) b = Ok b1)
    by (cbn; rewrite Hm; reflexivity).
  assert (Hok : call_ok size (Map_call (r_alignment r) (r_min_size r)))
    by (cbn; lia).
  destruct (step_slots size size_pos size_le _ b b1 size_aligned
              Hok (conj Hinv F) Hstep) as [Hinv1 F1].
  destruct Hinv1 as [R1 Hp1].
  assert (Hun : exists b2,
    BufferStorageStreamBuffer.Unmap (r_used_size r) b1 = Ok b2 /\
    m_position b2 = m_position b1 + r_used_size r).
  { unfold BufferStorageStreamBuffer.Unmap.
    rewrite (u32_small (m_position b1 + r_used_size r)) by lia.
    rewrite (ring_size _ _ R1).
    replace (m_position b1 + r_used_size r <=? size) with true
      by (symmetry; apply Z.leb_le; lia).
    cbn [bind DebugAssert]. eexists. split; [reflexivity|].
    destruct (m_coherent b1); cbn; apply u32_small; lia. }
  destruct Hun as (b2 & Hun & Hpos2).
  exists b2. split.
  - unfold round_calls. cbn [run]. rewrite Hstep. cbn [bind step].
    rewrite Hun. reflexivity.
  - pose proof (Unmap_Ok _ _ _ Hun) as (Hu2 & Ha2 & Hs2).
    split; [|split].
    + apply (Unmap_Inv size (r_used_size r) b1 b2); [split; assumption|].
      exact Hun.
    + intros i Hi. unfold fenced, slot. rewrite Hu2, Ha2, Hs2.
      now apply F1.
    + rewrite Hpos2, Ha2. lia.
Qed.

Lemma run_app cs1 cs2 b b1 :
  run cs1 b = Ok b1 -> run (cs1 ++ cs2) b = run cs2 b1.
Proof.
  revert b. induction cs1 as [|c cs IH]; intros b H.
  - injection H as <-. reflexivity.
  - cbn in *. destruct (step c b) as [b0|f]; [|discriminate].
    cbn [bind] in *. now apply IH.
Qed.

Lemma protocol_succeeds rs b :
  ready size b -> Forall (round_ok size) rs ->
  exists b', run (protocol rs) b = Ok b' /\ ready size b'.
Proof.
  revert b. induction rs as [|r rs IH]; intros b Hb Hrs.
  - exists b. split; [reflexivity | exact Hb].
  - apply Forall_cons in Hrs as [Hr Hrs].
    destruct (round_succeeds r b Hb Hr) as (b1 & H1 & Hb1).
    destruct (IH b1 Hb1 Hrs) as (b' & H' & Hb').
    exists b'. split; [|exact Hb'].
    unfold protocol. cbn [flat_map].
    rewrite (run_app _ _ _ _ H1). exact H'.
Qed.

End Progress.

(** X6.  Rounds of [Map(alignment, min_size)] / [Unmap(used_size)] with
    [used_size <= min_size <= capacity] and an alignment of at most one
    block, on a capacity that is a multiple of 16, never trip an assertion
    and never leave the fence array. *)
Theorem protocol_never_faults
    (size target buffer_id : Z) (coherent : bool) (rs : list round) :
  0 < size <= 2 ^ 30 ->
  size mod 16 = 0 ->
  Forall (round_ok size) rs ->
  exists b,
    run (protocol rs) (fresh_buffer target buffer_id coherent size) = Ok b /\
    Inv size b /\ slots_exact b.
Proof.
  intros [Hpos Hle] Hm Hrs.
  destruct (protocol_succeeds size Hpos Hle (aligned_capacity size Hpos Hm)
              rs (fresh_buffer target buffer_id coherent size)) as (b & H & Hb).
  - split; [apply construct_Inv; assumption|].
    split; [apply construct_slots_exact|].
    cbn. unfold NUM_SYNC_POINTS.
    pose proof (bytes_per_block_bounds size Hpos Hle). lia.
  - exact Hrs.
  - exists b. split; [exact H|]. destruct Hb as (Hi & F & _). auto.
Qed.

(** * The claims *)

(** ** Concrete scenarios on the 1 MiB buffer *)

Lemma blocks_of_1MiB (target buffer_id : Z) (coherent : bool) :
  m_bytes_per_block (fresh_buffer target buffer_id coherent 1048576)
    = 65536 /\
  length (m_sync_objects (fresh_buffer target buffer_id coherent 1048576))
    = 16%nat.
Proof. split; reflexivity. Qed.

(** C1.  Seventeen rounds of [Map(16, 65536)] / [Unmap(65536)] on the
    1 MiB buffer: the fence of block 0 is created by the second [Map],
    no call before the seventeenth waits or rewinds, and the seventeenth
    [Map] takes the wrap-around branch, waits on that very fence and
    returns offset 0. *)
Theorem C1_seventeenth_map_wraps (target buffer_id : Z) (coherent : bool) :
  exists b1 b2 b16 r b17,
    (* after the first round no fence exists *)
    run (rounds 1 16 65536) (fresh_buffer target buffer_id coherent 1048576)
      = Ok b1 /\
    existsb is_fence (gl_calls (gl b1)) = false /\
    (* the second Map creates fence 0 for block 0 *)
    step (Map_call 16 65536) b1 = Ok b2 /\
    new_events b1 b2 = [glFenceSync 0 0%nat] /\
    slot b2 0 = Some (Some 0%nat) /\
    (* sixteen rounds: nothing waited for, no wrap-around, the buffer is
       full and block 0 still carries fence 0 *)
    run (rounds 16 16 65536) (fresh_buffer target buffer_id coherent 1048576)
      = Ok b16 /\
    existsb is_wait (gl_calls (gl b16)) = false /\
    ~ In rewind (gl_calls (gl b16)) /\
    m_position b16 = m_size b16 /\
    slot b16 0 = Some (Some 0%nat) /\
    (* the seventeenth Map *)
    BufferStorageStreamBuffer.Map 16 65536 b16 = Ok (r, b17) /\
    new_events b16 b17 =
      [glFenceSync 15 15%nat; rewind;
       glClientWaitSync (Some 0%nat); glDeleteSync (Some 0%nat);
       glClientWaitSync (Some 1%nat); glDeleteSync (Some 1%nat)] /\
    m_position b17 = 0 /\
    buffer_offset r = 0 /\
    slot b17 0 = Some None.
Proof.
  destruct coherent; do 5 eexists; evaluate.
Qed.

(** C4.  The first [Map(16, 4096)] on the fresh 1 MiB buffer returns
    offset 0 with at least 256 sixteen-byte elements and issues no GL
    call at all (no fence, no wait).  With rounds of 4096 bytes the fence
    of block 0 is created by a later [Map]: none of the first sixteen
    rounds creates a fence, the seventeenth [Map] does. *)
Theorem C4_first_map_on_fresh_buffer
    (target buffer_id : Z) (coherent : bool) :
  exists r b1 b16 b17,
    BufferStorageStreamBuffer.Map 16 4096
      (fresh_buffer target buffer_id coherent 1048576) = Ok (r, b1) /\
    mr_pointer r = mapped_ptr 0 /\
    buffer_offset r = 0 /\
    index_aligned r = 0 /\
    256 <= space_aligned r /\
    new_events (fresh_buffer target buffer_id coherent 1048576) b1 = [] /\
    slot b1 0 = Some None /\
    run (rounds 16 16 4096) (fresh_buffer target buffer_id coherent 1048576)
      = Ok b16 /\
    existsb is_fence (gl_calls (gl b16)) = false /\
    slot b16 0 = Some None /\
    step (Map_call 16 4096) b16 = Ok b17 /\
    new_events b16 b17 = [glFenceSync 0 0%nat] /\
    slot b17 0 = Some (Some 0%nat).
Proof.
  destruct coherent; do 4 eexists; evaluate.
Qed.

(** C3.  The destructor does not release outstanding fences.  With one
    fence outstanding (after the second [Map]) its loop runs from index 16
    to index 1, issues no [glDeleteSync], and the fence is still alive
    when the buffer object is deleted; with all sixteen outstanding and
    both indices at 16 it reads past the end of the fence array. *)
Theorem C3_destructor_leaks_fences
    (target buffer_id : Z) (coherent : bool) :
  (exists b g,
     run [Map_call 16 65536; Unmap_call 65536; Map_call 16 65536]
         (fresh_buffer target buffer_id coherent 1048576) = Ok b /\
     slot b 0 = Some (Some 0%nat) /\
     m_available_block_index b = 16 /\
     m_used_block_index b = 1 /\
     BufferStorageStreamBuffer.destroy b = Ok g /\
     existsb is_delete (gl_calls g) = false /\
     live_syncs (gl_calls g) = [0%nat]) /\
  (exists b,
     run (rounds 16 16 65536 ++ [Map_call 16 0])
         (fresh_buffer target buffer_id coherent 1048576) = Ok b /\
     m_used_block_index b = 16 /\
     m_available_block_index b = 16 /\
     BufferStorageStreamBuffer.destroy b = Fault OutOfBounds).
Proof.
  destruct coherent; (split; [ do 2 eexists | eexists ]); evaluate.
Qed.

(** C6.  A capacity that is not a multiple of 16: on a fresh buffer of
    1000 bytes (63 bytes per block) [Map(1, 1)] grants 1008 bytes from
    offset 0, eight more than the buffer holds, and committing what was
    granted trips the assertion of [Unmap]. *)
Theorem C6_grant_exceeds_capacity (target buffer_id : Z) (coherent : bool) :
  exists r b,
    BufferStorageStreamBuffer.Map 1 1
      (fresh_buffer target buffer_id coherent 1000) = Ok (r, b) /\
    m_size b = 1000 /\
    m_bytes_per_block b = 63 /\
    buffer_offset r = 0 /\
    space_aligned r = 1008 /\
    buffer_offset r + space_aligned r * 1 > m_size b /\
    BufferStorageStreamBuffer.Unmap (space_aligned r * 1) b
      = Fault AssertFailed.
Proof.
  destruct coherent; do 2 eexists; evaluate.
Qed.

(** ** The naive backends *)

(** C9.  [Map] of the reupload and of the orphan backend: for a non-zero
    alignment it returns the start of the staging buffer, byte offset 0,
    aligned offset 0 and [capacity / alignment] elements, and hands the
    object back as it was (no GL call, no fence, no change). *)
Theorem C9_naive_map (alignment min_size : Z) (b : NaiveStreamBuffer) :
  alignment <> 0 ->
  BufferSubDataStreamBuffer.Map alignment min_size b
    = Ok (mkMappingResult (cpu_buffer_data 0) 0 0 (n_size b / alignment), b) /\
  BufferDataStreamBuffer.Map alignment min_size b
    = Ok (mkMappingResult (cpu_buffer_data 0) 0 0 (n_size b / alignment), b).
Proof.
  intros Ha.
  unfold BufferSubDataStreamBuffer.Map, BufferDataStreamBuffer.Map, udiv.
  apply Z.eqb_neq in Ha. rewrite Ha. split; reflexivity.
Qed.

Lemma C9_naive_map_witness :
  BufferSubDataStreamBuffer.Map 16 4096 example_naive
    = Ok (mkMappingResult (cpu_buffer_data 0) 0 0 (1048576 / 16),
          example_naive) /\
  BufferDataStreamBuffer.Map 16 4096 example_naive
    = Ok (mkMappingResult (cpu_buffer_data 0) 0 0 (1048576 / 16),
          example_naive).
Proof.
  apply (C9_naive_map 16 4096 example_naive). discriminate.
Defined.

(** ** [Unmap] of the persistent-mapped backend *)






(** ** Construction and fallback *)

(** C5, as stated, fails for a rejected mapping: the persistent-mapped
    [Create] does not return an empty result and the factory does not fall
    back, whether [Assert] stops the program or is compiled out. *)
Lemma C5_mapping_failure_is_not_empty :
  BufferStorageStreamBuffer.Create Assert_fatal driver_mapping_fails
    34962 1048576 true gl_init = Fault AssertFailed /\
  StreamBuffer.Create Assert_fatal driver_mapping_fails
    34962 1048576 gl_init = Fault AssertFailed /\
  (exists b,
     BufferStorageStreamBuffer.Create Assert_ignored driver_mapping_fails
       34962 1048576 true gl_init = Ok (instance b)) /\
  (exists b,
     StreamBuffer.Create Assert_ignored driver_mapping_fails
       34962 1048576 gl_init = Ok (instance (BufferStorage b))).
Proof.
  split; [reflexivity|]. split; [reflexivity|].
  split; eexists; reflexivity.
Qed.

(** C5, amended.  When the driver reports an error for the creation or the
    storage allocation, every [Create] returns an empty result.  The
    factory goes by priority: on a driver with buffer storage it attempts
    the persistent-mapped backend first and returns that instance; when
    the attempt comes back empty it falls back to the orphan backend, in
    the GL context the abandoned attempt left, and returns what that
    [Create] returns, an orphan instance or an empty result when that
    allocation fails too; on a driver without buffer storage it goes to
    the orphan backend at once.  A failed mapping is never reported as an
    empty result: what [Assert] does then is what the factory does. *)
Theorem C5_construction_fallback
    (Assert : bool -> result unit) (d : Driver) (target size : Z)
    (g : GLstate) :
  (* the naive backends *)
  (data_error d = true ->
     is_empty (BufferSubDataStreamBuffer.Create d target size g) = true /\
     is_empty (BufferDataStreamBuffer.Create d target size g) = true) /\
  (* the persistent-mapped backend *)
  (storage_error d = true ->
     forall coherent, exists g',
       BufferStorageStreamBuffer.Create Assert d target size coherent g
         = Ok (empty g')) /\
  (storage_error d = false ->
     forall coherent p,
       BufferStorageStreamBuffer.Create Assert d target size coherent g = Ok p ->
       is_empty p = false) /\
  (* the factory *)
  (storage_error d = true ->
     exists g',
       StreamBuffer.Create Assert d target size g
         = Ok (upcast BufferData
                 (BufferDataStreamBuffer.Create d target size g')) /\
       (data_error d = false ->
          exists n, StreamBuffer.Create Assert d target size g
                      = Ok (instance (BufferData n))) /\
       (data_error d = true ->
          exists g'', StreamBuffer.Create Assert d target size g
                        = Ok (empty g''))) /\
  (* the factory on a driver with buffer storage: the persistent-mapped
     backend is attempted first *)
  (GLAD_GL_VERSION_4_4 d || GLAD_GL_ARB_buffer_storage d
   || GLAD_GL_EXT_buffer_storage d = true ->
     (forall b,
        BufferStorageStreamBuffer.Create Assert d target size true g
          = Ok (instance b) ->
        StreamBuffer.Create Assert d target size g
          = Ok (instance (BufferStorage b))) /\
     (forall g',
        BufferStorageStreamBuffer.Create Assert d target size true g
          = Ok (empty g') ->
        StreamBuffer.Create Assert d target size g
          = Ok (upcast BufferData
                  (BufferDataStreamBuffer.Create d target size g'))) /\
     (forall f,
        BufferStorageStreamBuffer.Create Assert d target size true g
          = Fault f ->
        StreamBuffer.Create Assert d target size g = Fault f) /\
     (storage_error d = false ->
      Assert (mapping_succeeds d) = Ok tt ->
      exists b,
        BufferStorageStreamBuffer.Create Assert d target size true g
          = Ok (instance b) /\
        StreamBuffer.Create Assert d target size g
          = Ok (instance (BufferStorage b))) /\
     (storage_error d = true ->
      exists g' e,
        BufferStorageStreamBuffer.Create Assert d target size true g
          = Ok (empty g') /\
        (* the abandoned attempt is what the context has seen *)
        gl_calls g'
          = gl_calls g ++
            [glGetError; glGenBuffers (gen_buffer d);
             glBindBuffer target (gen_buffer d); e; glGetError;
             glDeleteBuffers (gen_buffer d)] /\
        (e = glBufferStorage target size
               (Z.lor (Z.lor GL_MAP_WRITE_BIT GL_MAP_PERSISTENT_BIT)
                      GL_MAP_COHERENT_BIT) \/
         e = glBufferStorageEXT target size
               (Z.lor (Z.lor GL_MAP_WRITE_BIT GL_MAP_PERSISTENT_BIT)
                      GL_MAP_COHERENT_BIT)) /\
        StreamBuffer.Create Assert d target size g
          = Ok (upcast BufferData
                  (BufferDataStreamBuffer.Create d target size g')))) /\
  (* the factory on a driver without buffer storage *)
  (GLAD_GL_VERSION_4_4 d || GLAD_GL_ARB_buffer_storage d
   || GLAD_GL_EXT_buffer_storage d = false ->
     StreamBuffer.Create Assert d target size g
       = Ok (upcast BufferData
               (BufferDataStreamBuffer.Create d target size g))).
Proof.
  split; [|split; [|split; [|split; [|split]]]].
  - intros H. split.
    + unfold BufferSubDataStreamBuffer.Create. now rewrite H.
    + unfold BufferDataStreamBuffer.Create. now rewrite H.
  - intros Hs coherent. unfold BufferStorageStreamBuffer.Create.
    rewrite Hs. eexists. reflexivity.
  - intros Hs coherent p. unfold BufferStorageStreamBuffer.Create.
    rewrite Hs. destruct (Assert (mapping_succeeds d)); cbn [bind].
    + intros [= <-]. reflexivity.
    + discriminate.
  - intros Hs. unfold StreamBuffer.Create, BufferStorageStreamBuffer.Create.
    rewrite Hs.
    destruct (GLAD_GL_VERSION_4_4 d || GLAD_GL_ARB_buffer_storage d
              || GLAD_GL_EXT_buffer_storage d); cbn [bind].
    + eexists. split; [reflexivity|].
      unfold BufferDataStreamBuffer.Create.
      split; intros Hd; rewrite Hd; eexists; reflexivity.
    + eexists. split; [reflexivity|].
      unfold BufferDataStreamBuffer.Create.
      split; intros Hd; rewrite Hd; eexists; reflexivity.
  - intros Hcap. unfold StreamBuffer.Create. rewrite Hcap.
    split; [|split; [|split; [|split]]].
    + intros b Hb. rewrite Hb. reflexivity.
    + intros g' Hg'. rewrite Hg'. reflexivity.
    + intros f Hf. rewrite Hf. reflexivity.
    + intros Hs Ha. unfold BufferStorageStreamBuffer.Create.
      rewrite Hs, Ha. cbn [bind]. eexists. split; reflexivity.
    + intros Hs. unfold BufferStorageStreamBuffer.Create. rewrite Hs.
      cbn [bind].
      destruct (GLAD_GL_VERSION_4_4 d || GLAD_GL_ARB_buffer_storage d)
        eqn:H44; cbn [orb] in Hcap; [|rewrite Hcap];
        eexists _, _; (split; [reflexivity|]);
        (split; [unfold gl_emit; cbn [gl_calls]; rewrite <- !app_assoc;
                 reflexivity|]);
        (split; [|reflexivity]); [left|right]; reflexivity.
  - intros Hcap. unfold StreamBuffer.Create. rewrite Hcap. reflexivity.
Qed.

Lemma C5_construction_fallback_witness :
  storage_error driver_storage_rejected = true /\
  data_error driver_storage_rejected = false /\
  (exists g',
     BufferStorageStreamBuffer.Create Assert_fatal driver_storage_rejected
       34962 4096 true gl_init = Ok (empty g')) /\
  (exists n,
     StreamBuffer.Create Assert_fatal driver_storage_rejected
       34962 4096 gl_init = Ok (instance (BufferData n))) /\
  (exists g',
     BufferStorageStreamBuffer.Create Assert_fatal driver_storage_rejected
       34962 4096 true gl_init = Ok (empty g') /\
     gl_calls g'
       = [glGetError; glGenBuffers 1; glBindBuffer 34962 1;
          glBufferStorage 34962 4096 194; glGetError; glDeleteBuffers 1] /\
     StreamBuffer.Create Assert_fatal driver_storage_rejected
       34962 4096 gl_init
       = Ok (upcast BufferData
               (BufferDataStreamBuffer.Create driver_storage_rejected
                  34962 4096 g'))) /\
  (exists b,
     BufferStorageStreamBuffer.Create Assert_fatal
       (mkDriver true false false 1 false true false) 34962 4096 true gl_init
       = Ok (instance b) /\
     StreamBuffer.Create Assert_fatal
       (mkDriver true false false 1 false true false) 34962 4096 gl_init
       = Ok (instance (BufferStorage b))) /\
  StreamBuffer.Create Assert_fatal
    (mkDriver false false false 1 false true false) 34962 4096 gl_init
    = Ok (upcast BufferData
            (BufferDataStreamBuffer.Create
               (mkDriver false false false 1 false true false)
               34962 4096 gl_init)).
Proof.
  pose proof (C5_construction_fallback Assert_fatal driver_storage_rejected
                34962 4096 gl_init) as (_ & Hps & _ & Hf & Hcap & _).
  pose proof (C5_construction_fallback Assert_fatal
                (mkDriver true false false 1 false true false)
                34962 4096 gl_init) as (_ & _ & _ & _ & Hcap' & _).
  pose proof (C5_construction_fallback Assert_fatal
                (mkDriver false false false 1 false true false)
                34962 4096 gl_init) as (_ & _ & _ & _ & _ & Hno).
  split; [reflexivity|]. split; [reflexivity|]. split; [|split; [|split; [|split]]].
  - apply (Hps eq_refl true).
  - destruct (Hf eq_refl) as (g' & _ & Hinst & _). apply (Hinst eq_refl).
  - destruct (Hcap eq_refl) as (_ & _ & _ & _ & Hrej).
    destruct (Hrej eq_refl) as (g' & e & H1 & H2 & He & H4).
    exists g'. split; [exact H1|]. split; [|exact H4].
    pose proof H1 as H1'. vm_compute in H1'. injection H1' as <-.
    reflexivity.
  - destruct (Hcap' eq_refl) as (_ & _ & _ & Hacc & _).
    apply (Hacc eq_refl eq_refl).
  - apply (Hno eq_refl).
Defined.

(** ** The ring between calls *)

(** C2, as stated, fails in the very first state: on a fresh buffer all
    sixteen blocks are available, none has been fenced, and
    [available_block_index] is 16 while [used_block_index + 1] is 1. *)
Lemma C2_fresh_buffer_counterexample :
  run [] fresh_1MiB = Ok fresh_1MiB /\
  m_used_block_index fresh_1MiB = 0 /\
  m_available_block_index fresh_1MiB = 16 /\
  ~ (m_available_block_index fresh_1MiB <= m_used_block_index fresh_1MiB + 1) /\
  gl_calls (gl fresh_1MiB) = [] /\
  (forall i, 0 <= i < 16 -> ~ fenced fresh_1MiB i).
Proof.
  conj_split; try reflexivity.
  - vm_compute. intros H. apply H. reflexivity.
  - intros i Hi (f & Hf). unfold slot in Hf. cbn in Hf.
    apply list_elem_of_lookup_2 in Hf.
    apply elem_of_replicate in Hf as [Hf _]. discriminate.
Qed.

(** C2, amended.  In every state reached from construction by [Map] and
    [Unmap] calls with [min_size <= capacity] the indices satisfy
    [used_block_index <= available_block_index <= 16], and a [Map] call
    makes a block available (by moving [available_block_index] past it, or
    by rewinding) only by waiting, within that call, on a fence that was
    created for that block; [Unmap] leaves [available_block_index] as it
    is. *)
Theorem C2_available_after_wait
    (size target buffer_id : Z) (coherent : bool) (cs : list call)
    (b : SyncingStreamBuffer) :
  0 < size <= 2 ^ 30 ->
  Forall (call_ok size) cs ->
  run cs (fresh_buffer target buffer_id coherent size) = Ok b ->
  m_used_block_index b <= m_available_block_index b <= 16 /\
  (forall alignment min_size r b',
    0 <= min_size <= size ->
    BufferStorageStreamBuffer.Map alignment min_size b = Ok (r, b') ->
    forall i,
      0 <= i < m_available_block_index b' ->
      m_available_block_index b <= i \/ In rewind (new_events b b') ->
      exists f,
        In (glFenceSync i f) (gl_calls (gl b')) /\
        In (glClientWaitSync (Some f)) (new_events b b')) /\
  (forall used_size b',
     BufferStorageStreamBuffer.Unmap used_size b = Ok b' ->
     m_available_block_index b' = m_available_block_index b).
Proof.
  intros [Hpos Hle] Hcs H.
  pose proof (run_Inv size Hpos Hle _ _ _ _ _ Hcs H) as Hb.
  split; [|split].
  - destruct Hb as [[] _]. lia.
  - intros alignment min_size r b' Hs Hm.
    exact (Map_waits size Hpos Hle alignment min_size b r b' Hb Hs Hm).
  - intros used_size b' Hu. now apply Unmap_Ok in Hu as (_ & Ha & _).
Qed.

Lemma C2_available_after_wait_witness :
  exists b,
    run (rounds 16 16 65536) fresh_1MiB = Ok b /\
    m_used_block_index b <= m_available_block_index b <= 16 /\
    (forall alignment min_size r b',
      0 <= min_size <= 1048576 ->
      BufferStorageStreamBuffer.Map alignment min_size b = Ok (r, b') ->
      forall i,
        0 <= i < m_available_block_index b' ->
        m_available_block_index b <= i \/ In rewind (new_events b b') ->
        exists f,
          In (glFenceSync i f) (gl_calls (gl b')) /\
          In (glClientWaitSync (Some f)) (new_events b b')) /\
    (forall used_size b',
       BufferStorageStreamBuffer.Unmap used_size b = Ok b' ->
       m_available_block_index b' = m_available_block_index b).
Proof.
  eexists. split; [vm_compute; reflexivity|].
  apply (C2_available_after_wait 1048576 34962 1 true (rounds 16 16 65536)).
  - lia.
  - cbn [rounds]. repeat constructor; cbn; lia.
  - vm_compute. reflexivity.
Defined.

(** C10, as stated, fails twice.  A request of zero bytes at the end of
    the 1 MiB buffer leaves both indices at 16, so
    [available_block_index >= used_block_index + 1] is false.  On a
    capacity of 17 bytes (2 bytes per block, the end of the buffer lies in
    block 8) a wrap-around leaves the slots 8 to 15 empty although they
    lie in [[available_block_index, 16)]. *)
Lemma C10_counterexample :
  (exists b,
     run (rounds 16 16 65536 ++ [Map_call 16 0])
         fresh_1MiB = Ok b /\
     m_used_block_index b = 16 /\
     m_available_block_index b = 16 /\
     ~ (m_available_block_index b >= m_used_block_index b + 1)) /\
  (exists b,
     run [Map_call 1 9; Unmap_call 9; Map_call 1 9]
         fresh_17 = Ok b /\
     In rewind (gl_calls (gl b)) /\
     m_used_block_index b = 0 /\
     m_available_block_index b = 5 /\
     slot b 8 = Some None /\
     ~ slots_exact b).
Proof.
  split.
  - eexists. conj_split; try (vm_compute; reflexivity).
    vm_compute. intros H. apply H. reflexivity.
  - eexists. conj_split; try (vm_compute; reflexivity).
    + vm_compute. tauto.
    + intros F. specialize (F 8 ltac:(lia)).
      destruct F as [_ F].
      destruct F as (f & Hf); [right; vm_compute; discriminate|].
      vm_compute in Hf. discriminate.
Qed.

(** C10, amended.  In every state reached from construction by [Map] and
    [Unmap] calls with [min_size <= capacity]:
    [used_block_index <= available_block_index <= 16];
    [available_block_index >= used_block_index + 1] when no request was
    empty; [available_block_index] is still 16 before the first
    wrap-around; and, when the capacity is a multiple of 16, the slots
    holding a fence are exactly those below [used_block_index] and those
    from [available_block_index] on. *)
Theorem C10_ring_invariant
    (size target buffer_id : Z) (coherent : bool) (cs : list call)
    (b : SyncingStreamBuffer) :
  0 < size <= 2 ^ 30 ->
  Forall (call_ok size) cs ->
  run cs (fresh_buffer target buffer_id coherent size) = Ok b ->
  m_available_block_index b <= 16 /\
  m_used_block_index b <= m_available_block_index b /\
  (Forall call_nonempty cs ->
     m_available_block_index b >= m_used_block_index b + 1) /\
  (~ In rewind (gl_calls (gl b)) -> m_available_block_index b = 16) /\
  (size mod 16 = 0 ->
     forall i, 0 <= i < 16 ->
       (fenced b i <->
        i < m_used_block_index b \/ m_available_block_index b <= i)).
Proof.
  intros [Hpos Hle] Hcs H.
  pose proof (run_Inv size Hpos Hle _ _ _ _ _ Hcs H) as [R _].
  conj_split.
  - destruct R. lia.
  - destruct R. lia.
  - intros Hne.
    pose proof (run_strict size Hpos Hle _ _ _ _ _ Hcs Hne H). lia.
  - apply (ring_fresh _ _ R).
  - intros Hm.
    exact (run_slots size Hpos Hle _ _ _ _ _
             (aligned_capacity size Hpos Hm) Hcs H).
Qed.

Lemma C10_ring_invariant_witness :
  exists b,
    run (rounds 16 16 65536 ++ [Map_call 16 65536])
        fresh_1MiB = Ok b /\
    m_available_block_index b <= 16 /\
    m_used_block_index b <= m_available_block_index b /\
    m_available_block_index b >= m_used_block_index b + 1 /\
    (forall i, 0 <= i < 16 ->
       (fenced b i <->
        i < m_used_block_index b \/ m_available_block_index b <= i)).
Proof.
  eexists. split; [vm_compute; reflexivity|].
  pose proof (C10_ring_invariant 1048576 34962 1 true
                (rounds 16 16 65536 ++ [Map_call 16 65536])) as T.
  edestruct T as (H1 & H2 & H3 & _ & H5).
  - lia.
  - cbn [rounds app]. repeat constructor; cbn; lia.
  - vm_compute. reflexivity.
  - split; [exact H1|]. split; [exact H2|]. split.
    + apply H3. cbn [rounds app]. repeat constructor; cbn; lia.
    + apply H5. reflexivity.
Defined.

(** * Further properties *)

(** ** Properties kept by every step of the ring *)


Lemma AddSyncs_loop_stable P n en b b' :
  stable P -> P b -> AddSyncs_loop n en b = Ok b' -> P b'.
Proof.
  intros S. revert b. induction n as [|n IH]; intros b Hb H.
  - injection H as <-. exact Hb.
  - cbn in H. destruct (m_used_block_index b <? en).
    + bind_inv H as b1 H1. apply (IH b1); [|exact H].
      eapply st_fence; eauto.
    + injection H as <-. exact Hb.
Qed.

Lemma EnsureSyncs_loop_stable P n en b b' :
  stable P -> P b -> EnsureSyncs_loop n en b = Ok b' -> P b'.
Proof.
  intros S. revert b. induction n as [|n IH]; intros b Hb H.
  - injection H as <-. exact Hb.
  - cbn in H. destruct (m_available_block_index b <? en).
    + bind_inv H as b1 H1. apply (IH b1); [|exact H].
      unfold EnsureSyncs_body in H1.
      bind_inv H1 as s Hs. bind_inv H1 as u Hu. bind_inv H1 as b2 Hw.
      injection H1 as <-. apply (st_available P S).
      eapply st_wait; eauto.
    + injection H as <-. exact Hb.
Qed.

Lemma AllocateSpace_stable P s b b' :
  stable P -> P b -> AllocateSpace s b = Ok b' -> P b'.
Proof.
  intros S Hb H.
  assert (HA : forall o c c', P c -> AddSyncsForOffset o c = Ok c' -> P c').
  { intros o c c' Hc Ha. unfold AddSyncsForOffset in Ha.
    bind_inv Ha as en Hen. eapply AddSyncs_loop_stable; eauto. }
  assert (HE : forall o c c',
             P c -> EnsureSyncsWaitedForOffset o c = Ok c' -> P c').
  { intros o c c' Hc Ha. unfold EnsureSyncsWaitedForOffset in Ha.
    bind_inv Ha as en Hen. eapply EnsureSyncs_loop_stable; eauto. }
  apply AllocateSpace_Ok in H.
  destruct H as [b1 H1 H2 _ | b1 b2 b4 b6 b8 H1 H2 _ H4 H6 H8 ->].
  - eauto.
  - apply (st_used P S). eapply HE; [|exact H8].
    apply (st_available P S). eapply (st_wait P S); [|exact H6].
    apply (st_position P S). eapply HA; [|exact H4].
    apply (st_rewind P S). eauto.
Qed.

Lemma Unmap_form u b b' :
  BufferStorageStreamBuffer.Unmap u b = Ok b' ->
  b' = set_position (u32 (m_position b + u))
         (if m_coherent b then b
          else emit [glBindBuffer (m_target b) (m_buffer_id b);
                     glFlushMappedBufferRange (m_target b) (m_position b) u]
                    b).
Proof.
  unfold BufferStorageStreamBuffer.Unmap. intros H.
  bind_inv H as t Ha. injection H as <-.
  destruct (m_coherent b); reflexivity.
Qed.

Lemma step_stable P c b b' :
  stable P ->
  (forall b t i o l,
     P b -> m_coherent b = false ->
     P (emit [glBindBuffer t i; glFlushMappedBufferRange t o l] b)) ->
  P b -> step c b = Ok b' -> P b'.
Proof.
  intros S Hflush Hb H. destruct c as [a s|u].
  - apply step_Map in H as (r & H).
    apply Map_Ok in H as (p & Ha & _).
    eapply AllocateSpace_stable; [exact S| |exact Ha].
    now apply (st_position P S).
  - apply Unmap_form in H. subst b'. apply (st_position P S).
    destruct (m_coherent b) eqn:Hc; [exact Hb|]. now apply Hflush.
Qed.

Lemma run_stable P cs b b' :
  stable P ->
  (forall b t i o l,
     P b -> m_coherent b = false ->
     P (emit [glBindBuffer t i; glFlushMappedBufferRange t o l] b)) ->
  P b -> run cs b = Ok b' -> P b'.
Proof.
  intros S Hflush Hb H.
  assert (Hall : Forall (fun _ : call => True) cs)
    by (clear; induction cs; constructor; auto).
  apply (run_invariant P (fun _ => True)) with (cs := cs) (b := b);
    try assumption.
  intros c b0 b1 _ H0 H1. eapply step_stable; eauto.
Qed.

(** *** The log and the live sync objects *)

Lemma existsb_app_single {A} (f : A -> bool) l x :
  existsb f (l ++ [x]) = existsb f l || f x.
Proof. rewrite existsb_app. cbn. now rewrite orb_false_r. Qed.

Lemma live_syncs_fence log i f :
  live_syncs (log ++ [glFenceSync i f]) = live_syncs log ++ [f].
Proof.
  induction log as [|e log IH]; [reflexivity|].
  destruct e; cbn; try exact IH.
  rewrite existsb_app_single. cbn. rewrite orb_false_r.
  destruct (existsb (is_delete_of sync) log); [exact IH|].
  cbn. now rewrite IH.
Qed.

Lemma live_syncs_neutral log e :
  is_neutral e = true -> live_syncs (log ++ [e]) = live_syncs log.
Proof.
  intros He. induction log as [|x log IH].
  - destruct e as [| | | | | | | | | | | | |[g|]|]; try reflexivity; discriminate.
  - destruct x; cbn; try exact IH.
    rewrite existsb_app_single.
    replace (is_delete_of sync e) with false.
    + rewrite orb_false_r.
      destruct (existsb (is_delete_of sync) log); [exact IH|]. now rewrite IH.
    + destruct e as [| | | | | | | | | | | | |[g|]|]; try reflexivity.
      discriminate.
Qed.

Lemma live_syncs_neutrals log es :
  forallb is_neutral es = true -> live_syncs (log ++ es) = live_syncs log.
Proof.
  revert log. induction es as [|e es IH]; intros log H.
  - now rewrite app_nil_r.
  - cbn in H. apply andb_true_iff in H as [He Hes].
    change (e :: es) with ([e] ++ es).
    rewrite app_assoc, IH by exact Hes. now apply live_syncs_neutral.
Qed.

Lemma live_syncs_delete log f :
  live_syncs (log ++ [glDeleteSync (Some f)])
    = filter (fun g => g <> f) (live_syncs log).
Proof.
  induction log as [|x log IH]; [reflexivity|].
  destruct x; cbn [live_syncs app]; try exact IH.
  rewrite existsb_app_single. cbn [is_delete_of].
  destruct (existsb (is_delete_of sync) log) eqn:E; cbn [orb].
  - exact IH.
  - destruct (Nat.eqb_spec sync f) as [->|Hne].
    + rewrite filter_cons_False by (intros H; now apply H). exact IH.
    + rewrite filter_cons_True by exact Hne. now rewrite IH.
Qed.

Lemma filter_ne_notin (f : GLsync) (l : list GLsync) :
  ~ In f l -> filter (fun g => g <> f) l = l.
Proof.
  induction l as [|x l IH]; intros Hn; [reflexivity|].
  rewrite filter_cons_True.
  - rewrite IH; [reflexivity|]. intros H. apply Hn. now right.
  - intros ->. apply Hn. now left.
Qed.

Lemma slot_syncs_insert_fence (l : list (option GLsync)) i f :
  l !! i = Some None ->
  Permutation (omap id (<[i := Some f]> l)) (f :: omap id l).
Proof.
  intros H. pose proof (lookup_lt_Some _ _ _ H) as Hlt.
  rewrite insert_take_drop by exact Hlt.
  rewrite <- (take_drop_middle l i None H) at 3.
  rewrite !omap_app. cbn.
  symmetry. apply Permutation_middle.
Qed.

Lemma slot_syncs_insert_null (l : list (option GLsync)) i f :
  l !! i = Some (Some f) ->
  omap id l = omap id (take i l) ++ f :: omap id (drop (S i) l) /\
  omap id (<[i := None]> l) = omap id (take i l) ++ omap id (drop (S i) l).
Proof.
  intros H. pose proof (lookup_lt_Some _ _ _ H) as Hlt. split.
  - rewrite <- (take_drop_middle l i _ H) at 1. now rewrite omap_app.
  - rewrite insert_take_drop by exact Hlt. now rewrite omap_app.
Qed.

Lemma accounted_stable : stable accounted.
Proof.
  constructor.
  - (* a fence is created *)
    intros b b1 (Hperm & Hnd & Hlt & Hlen) H.
    apply AddSyncs_body_Ok in H as (Hr & Hs & ->).
    unfold accounted, slot_syncs, slot in *. cbn.
    pose proof (slot_syncs_insert_fence _ _ (gl_next_sync (gl b)) Hs) as Hp.
    assert (Hfresh : ~ In (gl_next_sync (gl b)) (omap id (m_sync_objects b))).
    { intros Hin. rewrite Forall_forall in Hlt.
      apply list_elem_of_In, Hlt in Hin. lia. }
    split; [|split; [|split]].
    + rewrite live_syncs_fence, Hp, <- Hperm.
      symmetry. apply Permutation_cons_append.
    + rewrite Hp. constructor; [|exact Hnd].
      intros Hin. apply Hfresh. now apply list_elem_of_In.
    + rewrite Hp. constructor; [lia|].
      eapply Forall_impl; [exact Hlt|]. cbn. intros; lia.
    + rewrite length_insert. exact Hlen.
  - (* a fence is waited for and deleted *)
    intros i b b1 (Hperm & Hnd & Hlt & Hlen) H.
    apply WaitForSync_Ok in H as (s & Hr & Hs & ->).
    unfold accounted, slot_syncs, slot in *. cbn.
    destruct s as [f|].
    + destruct (slot_syncs_insert_null _ _ _ Hs) as [E1 E2].
      rewrite E1 in Hperm, Hnd, Hlt. rewrite E2.
      apply NoDup_app in Hnd as (HA & HAB & HB').
      apply NoDup_cons in HB' as [HfB HB].
      assert (HfA : ~ In f (omap id (take (Z.to_nat i) (m_sync_objects b)))).
      { intros Hin. apply list_elem_of_In in Hin.
        apply (HAB f Hin). now left. }
      split; [|split; [|split]].
      * change (gl_calls (gl b) ++
                [glClientWaitSync (Some f); glDeleteSync (Some f)])
          with (gl_calls (gl b) ++
                [glClientWaitSync (Some f)] ++ [glDeleteSync (Some f)]).
        rewrite app_assoc, live_syncs_delete.
        rewrite live_syncs_neutral by reflexivity.
        rewrite (filter_Permutation _ _ _ Hperm).
        rewrite filter_app, filter_cons_False by (intros Hx; now apply Hx).
        rewrite !filter_ne_notin; [reflexivity| |exact HfA].
        intros Hin. apply HfB. now apply list_elem_of_In.
      * apply NoDup_app. split; [exact HA|]. split; [|exact HB].
        intros x Hx HxB. apply (HAB x Hx). now right.
      * apply Forall_app in Hlt as [HlA HlB].
        apply Forall_cons in HlB as [_ HlB].
        apply Forall_app. split; assumption.
      * rewrite length_insert. exact Hlen.
    + rewrite list_insert_id by exact Hs.
      split; [|split; [|split]]; try assumption.
      change (gl_calls (gl b) ++ [glClientWaitSync None; glDeleteSync None])
        with (gl_calls (gl b) ++ [glClientWaitSync None] ++ [glDeleteSync None]).
      rewrite app_assoc, !live_syncs_neutral by reflexivity. exact Hperm.
  - intros b (Hperm & Hnd & Hlt & Hlen).
    unfold accounted, slot_syncs in *. cbn.
    rewrite live_syncs_neutral by reflexivity. auto.
  - intros p b H. exact H.
  - intros a b H. exact H.
  - intros u b H. exact H.
Qed.

(** ** The sync objects alive are those of the fence array *)

Lemma fresh_accounted target buffer_id coherent size :
  accounted (fresh_buffer target buffer_id coherent size).
Proof.
  unfold accounted, slot_syncs. cbn.
  split; [reflexivity|]. split; [constructor|]. split; [constructor|].
  reflexivity.
Qed.

Lemma run_accounted cs b b' : accounted b -> run cs b = Ok b' -> accounted b'.
Proof.
  apply run_stable; [exact accounted_stable|].
  intros c t i o l (Hperm & Hnd & Hlt & Hlen) _.
  unfold accounted, slot_syncs in *. cbn.
  rewrite live_syncs_neutrals by reflexivity. auto.
Qed.

Lemma omap_length_le {A B} (f : A -> option B) l :
  (length (omap f l) <= length l)%nat.
Proof.
  induction l as [|x l IH]; cbn; [lia|]. destruct (f x); cbn; lia.
Qed.

(** X1.  In every state reached from construction by [Map] and [Unmap]
    calls, whatever their arguments, the sync objects alive in the GL
    context are exactly those held in the fence array: no fence is lost
    while the buffer is in use, and at most sixteen are alive. *)
Theorem X1_fences_accounted
    (size target buffer_id : Z) (coherent : bool) (cs : list call)
    (b : SyncingStreamBuffer) :
  run cs (fresh_buffer target buffer_id coherent size) = Ok b ->
  Permutation (live_syncs (gl_calls (gl b))) (slot_syncs b) /\
  NoDup (live_syncs (gl_calls (gl b))) /\
  (length (live_syncs (gl_calls (gl b))) <= 16)%nat.
Proof.
  intros H.
  destruct (run_accounted cs _ b (fresh_accounted _ _ _ _) H)
    as (Hperm & Hnd & _ & Hlen).
  split; [exact Hperm|]. split.
  - now rewrite Hperm.
  - rewrite Hperm. unfold slot_syncs. rewrite <- Hlen. apply omap_length_le.
Qed.

Lemma X1_fences_accounted_witness :
  exists b,
    run (rounds 16 16 65536 ++ [Map_call 16 65536]) fresh_1MiB = Ok b /\
    Permutation (live_syncs (gl_calls (gl b))) (slot_syncs b) /\
    NoDup (live_syncs (gl_calls (gl b))) /\
    (length (live_syncs (gl_calls (gl b))) <= 16)%nat /\
    length (live_syncs (gl_calls (gl b))) = 14%nat.
Proof.
  eexists. split; [vm_compute; reflexivity|].
  pose proof (X1_fences_accounted 1048576 34962 1 true
                (rounds 16 16 65536 ++ [Map_call 16 65536])) as T.
  edestruct T as (H1 & H2 & H3); [vm_compute; reflexivity|].
  split; [exact H1|]. split; [exact H2|]. split; [exact H3|].
  vm_compute. reflexivity.
Defined.

(** X2.  The destructor, in any state reached with non-empty requests:
    its loop does not run, it issues no [glDeleteSync], and every sync
    object held in the fence array is still alive after the buffer object
    has been deleted. *)
Theorem X2_destructor_releases_no_fence
    (size target buffer_id : Z) (coherent : bool) (cs : list call)
    (b : SyncingStreamBuffer) :
  0 < size <= 2 ^ 30 ->
  Forall (call_ok size) cs ->
  Forall call_nonempty cs ->
  run cs (fresh_buffer target buffer_id coherent size) = Ok b ->
  exists g,
    BufferStorageStreamBuffer.destroy b = Ok g /\
    gl_calls g =
      gl_calls (gl b) ++
      [glBindBuffer (m_target b) (m_buffer_id b); glUnmapBuffer (m_target b);
       glDeleteBuffers (m_buffer_id b)] /\
    Permutation (live_syncs (gl_calls g)) (slot_syncs b).
Proof.
  intros [Hpos Hle] Hcs Hne H.
  pose proof (run_strict size Hpos Hle _ _ _ _ _ Hcs Hne H) as Hlt.
  destruct (run_accounted cs _ b (fresh_accounted _ _ _ _) H)
    as (Hperm & _).
  unfold BufferStorageStreamBuffer.destroy, destroy_syncing.
  cbn [emit set_gl m_used_block_index m_available_block_index].
  replace (Z.to_nat (m_used_block_index b + 1 - m_available_block_index b))
    with O by lia.
  cbn [destroy_loop bind]. eexists. split; [reflexivity|].
  cbn. rewrite <- app_assoc. split; [reflexivity|].
  rewrite live_syncs_neutrals by reflexivity. exact Hperm.
Qed.

Lemma X2_destructor_releases_no_fence_witness :
  exists b g,
    run (rounds 16 16 65536 ++ [Map_call 16 65536]) fresh_1MiB = Ok b /\
    BufferStorageStreamBuffer.destroy b = Ok g /\
    gl_calls g =
      gl_calls (gl b) ++
      [glBindBuffer (m_target b) (m_buffer_id b); glUnmapBuffer (m_target b);
       glDeleteBuffers (m_buffer_id b)] /\
    Permutation (live_syncs (gl_calls g)) (slot_syncs b) /\
    length (slot_syncs b) = 14%nat.
Proof.
  eexists.
  pose proof (X2_destructor_releases_no_fence 1048576 34962 1 true
                (rounds 16 16 65536 ++ [Map_call 16 65536])) as T.
  edestruct T as (g & H1 & H2 & H3).
  - lia.
  - cbn [rounds app]. repeat constructor; cbn; lia.
  - cbn [rounds app]. repeat constructor; cbn; lia.
  - vm_compute. reflexivity.
  - exists g. split; [vm_compute; reflexivity|].
    split; [exact H1|]. split; [exact H2|]. split; [exact H3|].
    vm_compute. reflexivity.
Defined.

(** ** What a [Map] grants *)

Lemma AllocateSpace_fits size s b b' :
  0 < size -> size <= 2 ^ 30 ->
  ring size b ->
  0 <= m_position b < 2 ^ 32 ->
  0 <= s <= size ->
  AllocateSpace s b = Ok b' ->
  m_position b' + s <= size /\
  m_position b' + s <= m_available_block_index b' * bytes_per_block size.
Proof.
  intros size_pos size_le R Hp Hs H.
  pose proof (bytes_per_block_bounds size size_pos size_le) as Hb.
  destruct (AllocateSpace_facts_of size size_pos size_le s b b' R Hp Hs H)
    as [b1 P1 P2 Hle | b1 b2 b4 b8 w P1 P2 Hgt P4 Hw P8 ->].
  - pose proof (Z.mul_succ_div_gt (m_position b + s) (bytes_per_block size)
                  ltac:(lia)) as Hq.
    pose proof (es_available _ _ _ P2) as Ha.
    rewrite (as_available _ _ _ P1) in Ha.
    rewrite (es_position _ _ _ P2), (as_position _ _ _ P1).
    pose proof (ring_available _ _ R).
    split; [lia|].
    destruct (Z_le_dec ((m_position b + s) / bytes_per_block size + 1) 16);
      nia.
  - pose proof (Z.mul_succ_div_gt s (bytes_per_block size) ltac:(lia)) as Hq.
    pose proof (es_available _ _ _ P8) as Ha.
    pose proof (es_position _ _ _ P8) as Hpos. cbn in Ha, Hpos. cbn.
    rewrite Hpos. split; [lia|].
    destruct (Z_le_dec (s / bytes_per_block size + 1) 16); nia.
Qed.

(** X3.  Whatever the capacity (multiple of 16 or not), the bytes a [Map]
    was asked for lie inside the buffer and inside the space it reports:
    [offset + min_size <= capacity] and
    [min_size / alignment <= space_aligned]. *)
Theorem X3_request_fits
    (size target buffer_id : Z) (coherent : bool) (cs : list call)
    (b b' : SyncingStreamBuffer) (alignment min_size : Z) (r : MappingResult) :
  0 < size <= 2 ^ 30 ->
  Forall (call_ok size) cs ->
  run cs (fresh_buffer target buffer_id coherent size) = Ok b ->
  0 < alignment ->
  0 <= min_size <= size ->
  BufferStorageStreamBuffer.Map alignment min_size b = Ok (r, b') ->
  0 <= buffer_offset r /\
  buffer_offset r + min_size <= size /\
  min_size / alignment <= space_aligned r.
Proof.
  intros [Hpos Hle] Hcs H Ha Hs Hm.
  pose proof (run_Inv size Hpos Hle _ _ _ _ _ Hcs H) as Hb.
  pose proof (Map_Inv size Hpos Hle _ _ _ _ _ Hb Hs Hm) as [R' Hp'].
  pose proof (bytes_per_block_bounds size Hpos Hle) as Hbb.
  destruct Hb as [R Hp].
  apply Map_Ok in Hm as (p & Hal & Hp0 & _ & _ & ->).
  destruct (AllocateSpace_fits size min_size (set_position p b) b')
    as [Hf1 Hf2]; try assumption.
  - now apply ring_set_position.
  - cbn. destruct Hp0 as [Hp0| ->]; [now apply AlignUp_range in Hp0|lia].
  - cbn [buffer_offset space_aligned].
    pose proof (ring_available _ _ R') as Hav.
    rewrite (ring_bpb _ _ R').
    rewrite (u32_small (m_available_block_index b' * bytes_per_block size))
      by nia.
    rewrite u32_small by nia.
    split; [lia|]. split; [lia|].
    apply Z.div_le_mono; lia.
Qed.

Lemma X3_request_fits_witness :
  exists r b',
    BufferStorageStreamBuffer.Map 1 1 (fresh_buffer 34962 1 true 1000)
      = Ok (r, b') /\
    0 <= buffer_offset r /\
    buffer_offset r + 1 <= 1000 /\
    1 / 1 <= space_aligned r.
Proof.
  do 2 eexists. split; [vm_compute; reflexivity|].
  eapply (X3_request_fits 1000 34962 1 true [] _ _ 1 1).
  - lia.
  - constructor.
  - reflexivity.
  - lia.
  - lia.
  - vm_compute. reflexivity.
Defined.

(** X5.  On a capacity that is a multiple of 16 the whole region a [Map]
    reports stays inside the buffer:
    [offset + space_aligned * alignment <= capacity]. *)
Theorem X5_grant_within_aligned_capacity
    (size target buffer_id : Z) (coherent : bool) (cs : list call)
    (b b' : SyncingStreamBuffer) (alignment min_size : Z) (r : MappingResult) :
  0 < size <= 2 ^ 30 ->
  size mod 16 = 0 ->
  Forall (call_ok size) cs ->
  run cs (fresh_buffer target buffer_id coherent size) = Ok b ->
  0 < alignment ->
  0 <= min_size <= size ->
  BufferStorageStreamBuffer.Map alignment min_size b = Ok (r, b') ->
  0 <= buffer_offset r /\
  buffer_offset r + space_aligned r * alignment <= size.
Proof.
  intros [Hpos Hle] Hmod Hcs H Ha Hs Hm.
  pose proof (run_Inv size Hpos Hle _ _ _ _ _ Hcs H) as Hb.
  exact (Map_grant_within_capacity size Hpos Hle alignment min_size b r b'
           (aligned_capacity size Hpos Hmod) Hb Hs Ha Hm).
Qed.

Lemma X5_grant_within_aligned_capacity_witness :
  exists b r b',
    run (rounds 16 16 65536) fresh_1MiB = Ok b /\
    BufferStorageStreamBuffer.Map 48 65536 b = Ok (r, b') /\
    0 <= buffer_offset r /\
    buffer_offset r + space_aligned r * 48 <= 1048576.
Proof.
  do 3 eexists. split; [vm_compute; reflexivity|].
  split; [vm_compute; reflexivity|].
  eapply (X5_grant_within_aligned_capacity 1048576 34962 1 true
            (rounds 16 16 65536) _ _ 48 65536).
  - lia.
  - reflexivity.
  - cbn [rounds]. repeat constructor; cbn; lia.
  - vm_compute. reflexivity.
  - lia.
  - lia.
  - vm_compute. reflexivity.
Defined.

(** X7.  The first [Map] on a newly constructed buffer of any capacity
    leaves the object exactly as it was (no GL call, no fence, no wait)
    and grants all sixteen blocks from offset 0. *)
Theorem X7_first_map_changes_nothing
    (size target buffer_id : Z) (coherent : bool) (alignment min_size : Z) :
  0 < size <= 2 ^ 30 ->
  0 < alignment ->
  0 <= min_size <= size ->
  BufferStorageStreamBuffer.Map alignment min_size
    (fresh_buffer target buffer_id coherent size)
  = Ok (mkMappingResult (mapped_ptr 0) 0 0
          (16 * bytes_per_block size / alignment),
        fresh_buffer target buffer_id coherent size).
Proof.
  intros [Hpos Hle] Ha Hs.
  pose proof (bytes_per_block_bounds size Hpos Hle) as Hb.
  set (b0 := fresh_buffer target buffer_id coherent size).
  assert (Hbpb : m_bytes_per_block b0 = bytes_per_block size)
    by apply (construct_bytes_per_block size Hpos Hle).
  assert (Hnz : (bytes_per_block size =? 0) = false)
    by (apply Z.eqb_neq; lia).
  assert (H1 : AddSyncsForOffset 0 b0 = Ok b0).
  { unfold AddSyncsForOffset, GetSyncIndexForOffset, udiv.
    rewrite Hbpb, Hnz. cbn [bind]. rewrite Z.div_0_l by lia. reflexivity. }
  assert (H2 : EnsureSyncsWaitedForOffset (u32 (0 + min_size)) b0 = Ok b0).
  { unfold EnsureSyncsWaitedForOffset, GetSyncIndexForOffset, udiv.
    rewrite Hbpb, Hnz. cbn [bind].
    replace (Z.to_nat _) with O; [reflexivity|].
    change (m_available_block_index b0) with 16. unfold NUM_SYNC_POINTS. lia. }
  assert (H3 : AllocateSpace min_size b0 = Ok b0).
  { unfold AllocateSpace.
    change (m_position b0) with 0. rewrite H1. cbn [bind].
    change (m_position b0) with 0. rewrite H2. cbn [bind].
    change (m_position b0) with 0. change (m_size b0) with size.
    rewrite Z.add_0_l, u32_small by lia.
    replace (min_size >? size) with false; [reflexivity|].
    symmetry. rewrite Z.gtb_ltb. apply Z.ltb_ge. lia. }
  unfold BufferStorageStreamBuffer.Map.
  change (m_position b0 >? 0) with false. cbn [bind]. rewrite H3. cbn [bind].
  rewrite Hbpb. change (m_available_block_index b0) with 16.
  change (m_position b0) with 0.
  rewrite Z.add_0_l, (u32_small min_size) by lia.
  rewrite (u32_small (16 * bytes_per_block size)) by lia.
  unfold DebugAssert, udiv.
  replace (min_size <=? 16 * bytes_per_block size) with true
    by (symmetry; apply Z.leb_le; lia).
  replace (alignment =? 0) with false by (symmetry; apply Z.eqb_neq; lia).
  cbn [bind].
  rewrite Z.sub_0_r, (u32_small (16 * bytes_per_block size)) by lia.
  rewrite Z.div_0_l by lia. reflexivity.
Qed.

Lemma X7_first_map_changes_nothing_witness :
  BufferStorageStreamBuffer.Map 16 400 (fresh_buffer 34962 1 true 1000)
  = Ok (mkMappingResult (mapped_ptr 0) 0 0 (16 * bytes_per_block 1000 / 16),
        fresh_buffer 34962 1 true 1000).
Proof.
  apply (X7_first_map_changes_nothing 1000 34962 1 true 16 400); lia.
Defined.

(** ** The granted region holds no fence *)


Section Safety.

Variable size : Z.
Hypothesis size_pos : 0 < size.
Hypothesis size_le : size <= 2 ^ 30.
Hypothesis size_aligned : size = 16 * bytes_per_block size.

Local Abbreviation bpb := (bytes_per_block size).

Lemma Map_written alignment s b r b' :
  ready size b -> written size b ->
  0 < alignment <= bpb -> 0 <= s <= size ->
  BufferStorageStreamBuffer.Map alignment s b = Ok (r, b') ->
  written size b'.
Proof.
  intros ([R Hp] & F & Hroom) Hw Ha Hs H.
  pose proof (bytes_per_block_bounds size size_pos size_le) as Hb.
  apply Map_Ok in H as (p & Hal & Hp0 & _).
  assert (Hpp : m_position b <= p < 2 ^ 32).
  { destruct Hp0 as [Hp0| ->]; [|lia].
    destruct (AlignUp_succeeds (m_position b) alignment) as (q & Hq & Hqq);
      try lia.
    rewrite Hq in Hp0. injection Hp0 as <-. lia. }
  pose proof (ring_set_position size p b R) as Rp.
  assert (Hp1 : 0 <= m_position (set_position p b) < 2 ^ 32)
    by (cbn; lia).
  destruct (AllocateSpace_facts_of size size_pos size_le s
              (set_position p b) b' Rp Hp1 Hs Hal)
    as [b1 P1 P2 Hle | b1 b2 b4 b8 w P1 P2 Hgt P4 Hw' P8 ->].
  - unfold written in *.
    rewrite (es_used _ _ _ P2), (es_position _ _ _ P2).
    rewrite (as_used _ _ _ P1), (as_position _ _ _ P1). cbn.
    pose proof (Z.mul_div_le p bpb ltac:(lia)).
    pose proof (ring_used _ _ R).
    destruct (Z.max_spec (m_used_block_index b) (p / bpb)) as [[_ ->]|[_ ->]];
      nia.
  - unfold written. cbn. rewrite (es_position _ _ _ P8). cbn. lia.
Qed.

Lemma round_safe r b :
  safe_ring size b -> round_ok size r ->
  exists b', run (round_calls r) b = Ok b' /\ safe_ring size b'.
Proof.
  intros [Hb Hw] Hr.
  destruct (round_succeeds size size_pos size_le size_aligned r b Hb Hr)
    as (b2 & Hrun & Hb2).
  exists b2. split; [exact Hrun|]. split; [exact Hb2|].
  destruct Hr as (Ha & Hu & Hsz).
  unfold round_calls in Hrun. cbn [run] in Hrun.
  bind_inv Hrun as b1 H1. bind_inv Hrun as b2' H2. injection Hrun as <-.
  apply step_Map in H1 as (res & H1).
  assert (Hs : 0 <= r_min_size r <= size) by lia.
  pose proof (Map_written _ _ _ _ _ Hb Hw Ha Hs H1) as Hw1.
  destruct (Map_succeeds size size_pos size_le size_aligned
              (r_alignment r) (r_min_size r) b Hb Ha Hs)
    as (res' & b1' & H1' & Hr1 & Hr2).
  rewrite H1 in H1'. injection H1' as <- <-.
  cbn [step] in H2.
  pose proof (Unmap_Ok _ _ _ H2) as (Hu2 & _).
  apply Unmap_form in H2.
  assert (Hp1 : 0 <= m_position b1).
  { pose proof (Map_Inv size size_pos size_le _ _ _ _ _ (proj1 Hb)
                  Hs H1) as [_ ?]. lia. }
  unfold written in *. rewrite Hu2, H2.
  assert (m_position (set_position (u32 (m_position b1 + r_used_size r))
            (if m_coherent b1 then b1 else
             emit [glBindBuffer (m_target b1) (m_buffer_id b1);
                   glFlushMappedBufferRange (m_target b1) (m_position b1)
                     (r_used_size r)] b1))
          = m_position b1 + r_used_size r) as ->.
  { cbn. apply u32_small. lia. }
  lia.
Qed.

Lemma protocol_safe rs b :
  safe_ring size b -> Forall (round_ok size) rs ->
  exists b', run (protocol rs) b = Ok b' /\ safe_ring size b'.
Proof.
  revert b. induction rs as [|r rs IH]; intros b Hb Hrs.
  - exists b. split; [reflexivity | exact Hb].
  - apply Forall_cons in Hrs as [Hr Hrs].
    destruct (round_safe r b Hb Hr) as (b1 & H1 & Hb1).
    destruct (IH b1 Hb1 Hrs) as (b' & H' & Hb').
    exists b'. split; [|exact Hb'].
    unfold protocol. cbn [flat_map].
    rewrite (run_app _ _ _ _ H1). exact H'.
Qed.

Lemma Map_grants_unfenced alignment s b r b' :
  safe_ring size b ->
  0 < alignment <= bpb -> 0 <= s <= size ->
  BufferStorageStreamBuffer.Map alignment s b = Ok (r, b') ->
  forall x,
    buffer_offset r <= x < buffer_offset r + space_aligned r * alignment ->
    0 <= x / bpb < 16 /\ slot b' (x / bpb) = Some None.
Proof.
  intros [Hb Hw] Ha Hs H x Hx.
  pose proof (bytes_per_block_bounds size size_pos size_le) as Hbb.
  pose proof (Map_written _ _ _ _ _ Hb Hw Ha Hs H) as Hw'.
  destruct Hb as (Hinv & F & _).
  assert (Hstep : step (Map_call alignment s) b = Ok b')
    by (cbn; rewrite H; reflexivity).
  assert (Hok : call_ok size (Map_call alignment s)) by (cbn; lia).
  destruct (step_slots size size_pos size_le _ b b' size_aligned
              Hok (conj Hinv F) Hstep) as [[R' Hp'] F'].
  apply Map_Ok in H as (p & _ & _ & _ & Hassert & ->).
  cbn [buffer_offset space_aligned] in Hx.
  pose proof (ring_available _ _ R') as Hav.
  pose proof (ring_used _ _ R') as Hus.
  rewrite (ring_bpb _ _ R') in *.
  assert (Hab : 0 <= m_available_block_index b' * bpb <= size) by nia.
  rewrite (u32_small (m_available_block_index b' * bpb)) in Hassert, Hx
    by lia.
  rewrite (u32_small (m_position b' + s)) in Hassert by lia.
  rewrite (u32_small (m_available_block_index b' * bpb - m_position b'))
    in Hx by lia.
  pose proof (Z.mul_div_le (m_available_block_index b' * bpb - m_position b')
                alignment ltac:(lia)) as Hgr.
  unfold written in Hw'.
  assert (Hlo : m_used_block_index b' <= x / bpb).
  { apply Z.div_le_lower_bound; nia. }
  assert (Hhi : x / bpb < m_available_block_index b').
  { apply Z.div_lt_upper_bound; nia. }
  split; [lia|].
  apply free_slot; [apply (ring_length _ _ R') | lia |].
  intros Hf. apply F' in Hf; lia.
Qed.

End Safety.

(** X4.  Rounds that keep to the protocol on a capacity that is a multiple
    of 16 and at most 2^30 bytes (so that no [u32] sum wraps): every byte
    of the region a [Map] reports lies in a block whose slot holds no
    fence, so the producer never writes where the GPU may still read. *)
Theorem X4_granted_blocks_hold_no_fence
    (size target buffer_id : Z) (coherent : bool) (rs : list round)
    (b b' : SyncingStreamBuffer) (alignment min_size : Z) (r : MappingResult) :
  0 < size <= 2 ^ 30 ->
  size mod 16 = 0 ->
  Forall (round_ok size) rs ->
  run (protocol rs) (fresh_buffer target buffer_id coherent size) = Ok b ->
  0 < alignment <= bytes_per_block size ->
  0 <= min_size <= size ->
  BufferStorageStreamBuffer.Map alignment min_size b = Ok (r, b') ->
  forall x,
    buffer_offset r <= x < buffer_offset r + space_aligned r * alignment ->
    0 <= x / bytes_per_block size < 16 /\
    slot b' (x / bytes_per_block size) = Some None.
Proof.
  intros [Hpos Hle] Hmod Hrs H Ha Hs Hm.
  pose proof (aligned_capacity size Hpos Hmod) as Hal.
  destruct (protocol_safe size Hpos Hle Hal rs
              (fresh_buffer target buffer_id coherent size)) as (b0 & H0 & Hb).
  - split; [split; [apply construct_Inv; assumption|]|].
    + split; [apply construct_slots_exact|].
      cbn. unfold NUM_SYNC_POINTS.
      pose proof (bytes_per_block_bounds size Hpos Hle). lia.
    + unfold written. cbn. lia.
  - exact Hrs.
  - rewrite H in H0. injection H0 as <-.
    exact (Map_grants_unfenced size Hpos Hle Hal alignment min_size b r b'
             Hb Ha Hs Hm).
Qed.

Lemma X4_granted_blocks_hold_no_fence_witness :
  exists b r b',
    run (protocol (replicate 17 (mkRound 16 65536 65536))) fresh_1MiB = Ok b /\
    BufferStorageStreamBuffer.Map 16 65536 b = Ok (r, b') /\
    buffer_offset r = 65536 /\
    space_aligned r * 16 = 131072 /\
    forall x,
      65536 <= x < 65536 + 131072 ->
      0 <= x / bytes_per_block 1048576 < 16 /\
      slot b' (x / bytes_per_block 1048576) = Some None.
Proof.
  do 3 eexists. split; [vm_compute; reflexivity|].
  split; [vm_compute; reflexivity|].
  split; [reflexivity|]. split; [reflexivity|].
  intros x Hx.
  eapply (X4_granted_blocks_hold_no_fence 1048576 34962 1 true
            (replicate 17 (mkRound 16 65536 65536))) with
    (alignment := 16) (min_size := 65536).
  - lia.
  - reflexivity.
  - cbn [replicate]. repeat constructor; vm_compute; congruence.
  - vm_compute. reflexivity.
  - vm_compute. split; congruence.
  - lia.
  - vm_compute. reflexivity.
  - exact Hx.
Defined.

Lemma protocol_never_faults_witness :
  exists b,
    run (protocol (replicate 17 (mkRound 16 65536 65536))) fresh_1MiB = Ok b /\
    Inv 1048576 b /\ slots_exact b.
Proof.
  apply (protocol_never_faults 1048576 34962 1 true
           (replicate 17 (mkRound 16 65536 65536))).
  - lia.
  - reflexivity.
  - cbn [replicate]. repeat constructor; vm_compute; congruence.
Defined.

(** *** A coherent mapping never touches the buffer binding *)

Lemma quiet_stable base : stable (quiet_since base).
Proof.
  constructor.
  - intros b b1 (Hc & es & Hes & Hf) H.
    apply AddSyncs_body_Ok in H as (_ & _ & ->).
    split; [exact Hc|]. cbn.
    exists (es ++ [glFenceSync (m_used_block_index b) (gl_next_sync (gl b))]).
    split; [rewrite Hes, <- app_assoc; reflexivity|].
    rewrite forallb_app, Hf. reflexivity.
  - intros i b b1 (Hc & es & Hes & Hf) H.
    apply WaitForSync_Ok in H as (s & _ & _ & ->).
    split; [exact Hc|]. cbn.
    exists (es ++ [glClientWaitSync s; glDeleteSync s]).
    split; [rewrite Hes, <- app_assoc; reflexivity|].
    rewrite forallb_app, Hf. reflexivity.
  - intros b (Hc & es & Hes & Hf).
    split; [exact Hc|]. cbn. exists (es ++ [rewind]).
    split; [rewrite Hes, <- app_assoc; reflexivity|].
    rewrite forallb_app, Hf. reflexivity.
  - intros p b H. exact H.
  - intros a b H. exact H.
  - intros u b H. exact H.
Qed.

(** X8.  A persistent-mapped buffer made by the factory is coherent, and a
    coherent buffer issues no [glBindBuffer] and no
    [glFlushMappedBufferRange] in any sequence of [Map] and [Unmap]: the
    only GL calls are those on sync objects. *)
Theorem X8_factory_buffer_never_binds
    (Assert : bool -> result unit) (d : Driver) (target size : Z)
    (g : GLstate) (b0 b : SyncingStreamBuffer) (cs : list call) :
  StreamBuffer.Create Assert d target size g
    = Ok (instance (BufferStorage b0)) ->
  run cs b0 = Ok b ->
  m_coherent b = true /\
  forallb is_ring_event (new_events b0 b) = true.
Proof.
  intros Hc H.
  assert (Hco : m_coherent b0 = true).
  { unfold StreamBuffer.Create, BufferStorageStreamBuffer.Create in Hc.
    destruct (GLAD_GL_VERSION_4_4 d || GLAD_GL_ARB_buffer_storage d
              || GLAD_GL_EXT_buffer_storage d).
    - destruct (storage_error d); cbn [bind] in Hc.
      + unfold BufferDataStreamBuffer.Create in Hc.
        destruct (data_error d); discriminate.
      + destruct (Assert (mapping_succeeds d)); cbn [bind] in Hc;
          [|discriminate].
        injection Hc as <-. reflexivity.
    - unfold BufferDataStreamBuffer.Create in Hc.
      destruct (data_error d); discriminate. }
  assert (Hq : quiet_since (gl_calls (gl b0)) b).
  { apply (run_stable (quiet_since (gl_calls (gl b0))) cs b0 b).
    - apply quiet_stable.
    - intros c t i o l (Hcc & _) Hn. congruence.
    - split; [exact Hco|]. exists []. split; [now rewrite app_nil_r|reflexivity].
    - exact H. }
  destruct Hq as (Hcb & es & Hes & Hf).
  split; [exact Hcb|]. now rewrite (new_events_app b0 b es Hes).
Qed.

Lemma X8_factory_buffer_never_binds_witness :
  exists b0 b,
    StreamBuffer.Create Assert_fatal
      (mkDriver true false false 1 false true false) 34962 1048576 gl_init
      = Ok (instance (BufferStorage b0)) /\
    run (rounds 17 16 65536) b0 = Ok b /\
    m_coherent b = true /\
    forallb is_ring_event (new_events b0 b) = true.
Proof.
  do 2 eexists. split; [vm_compute; reflexivity|].
  split; [vm_compute; reflexivity|].
  eapply (X8_factory_buffer_never_binds Assert_fatal
            (mkDriver true false false 1 false true false) 34962 1048576
            gl_init _ _ (rounds 17 16 65536)).
  - vm_compute. reflexivity.
  - vm_compute. reflexivity.
Defined.

(** ** Buffer objects over the life of a stream buffer *)


Lemma live_buffers_app log es :
  live_buffers (log ++ es) = fold_left track_buffer es (live_buffers log).
Proof. unfold live_buffers. apply fold_left_app. Qed.

Lemma track_kept es live :
  forallb keeps_buffers es = true -> fold_left track_buffer es live = live.
Proof.
  revert live. induction es as [|e es IH]; intros live H; [reflexivity|].
  cbn in H. apply andb_true_iff in H as [He H].
  cbn [fold_left]. rewrite IH by exact H.
  destruct e; try reflexivity; discriminate.
Qed.

Lemma holds_buffer_more id base g i es g' :
  holds_buffer id base g i ->
  gl_calls g' = gl_calls g ++ es ->
  forallb keeps_buffers es = true ->
  holds_buffer id base g' i.
Proof.
  intros (Hi & es0 & H0 & Hf) Hg He. split; [exact Hi|].
  exists (es0 ++ es). split.
  - rewrite Hg, H0. symmetry. apply app_assoc.
  - rewrite forallb_app, Hf, He. reflexivity.
Qed.

Lemma holds_buffer_stable id base :
  stable (fun b => holds_buffer id base (gl b) (m_buffer_id b)).
Proof.
  constructor.
  - intros b b1 Hb H. apply AddSyncs_body_Ok in H as (_ & _ & ->).
    eapply holds_buffer_more; [exact Hb| |]; reflexivity.
  - intros i b b1 Hb H. apply WaitForSync_Ok in H as (s & _ & _ & ->).
    eapply holds_buffer_more; [exact Hb| |]; reflexivity.
  - intros b Hb. eapply holds_buffer_more; [exact Hb| |]; reflexivity.
  - intros p b H. exact H.
  - intros a b H. exact H.
  - intros u b H. exact H.
Qed.

Lemma run_holds_buffer id base cs b b' :
  holds_buffer id base (gl b) (m_buffer_id b) ->
  run cs b = Ok b' ->
  holds_buffer id base (gl b') (m_buffer_id b').
Proof.
  intros Hb H.
  apply (run_stable (fun b => holds_buffer id base (gl b) (m_buffer_id b))
           cs b b'); try assumption.
  - apply holds_buffer_stable.
  - intros b0 t i o l H0 _.
    eapply holds_buffer_more; [exact H0| |]; reflexivity.
Qed.

Lemma Backend_step_holds id base c x x' :
  holds_buffer id base (Backend.context x) (Backend.buffer_id x) ->
  Backend.step c x = Ok x' ->
  holds_buffer id base (Backend.context x') (Backend.buffer_id x').
Proof.
  intros Hx H.
  destruct x as [n|n|b]; destruct c as [a s|u]; cbn [Backend.step] in H.
  - unfold BufferSubDataStreamBuffer.Map in H.
    bind_inv H as r Hr. bind_inv Hr as q Hq.
    injection Hr as <-. injection H as <-. exact Hx.
  - unfold BufferSubDataStreamBuffer.Unmap in H.
    destruct (u =? 0); cbn in H; injection H as <-; [exact Hx|].
    eapply holds_buffer_more; [exact Hx| |]; reflexivity.
  - unfold BufferDataStreamBuffer.Map in H.
    bind_inv H as r Hr. bind_inv Hr as q Hq.
    injection Hr as <-. injection H as <-. exact Hx.
  - unfold BufferDataStreamBuffer.Unmap in H.
    destruct (u =? 0); cbn in H; injection H as <-; [exact Hx|].
    eapply holds_buffer_more; [exact Hx| |]; reflexivity.
  - bind_inv H as b' Hb. injection H as <-.
    apply (run_holds_buffer id base [Map_call a s] b b' Hx).
    cbn [run]. rewrite Hb. reflexivity.
  - bind_inv H as b' Hb. injection H as <-.
    apply (run_holds_buffer id base [Unmap_call u] b b' Hx).
    cbn [run]. rewrite Hb. reflexivity.
Qed.

Lemma Backend_run_holds id base cs x x' :
  holds_buffer id base (Backend.context x) (Backend.buffer_id x) ->
  Backend.run cs x = Ok x' ->
  holds_buffer id base (Backend.context x') (Backend.buffer_id x').
Proof.
  revert x. induction cs as [|c cs IH]; intros x Hx H; cbn [Backend.run] in H.
  - injection H as <-. exact Hx.
  - bind_inv H as x1 H1. eapply IH; [|exact H].
    eapply Backend_step_holds; eauto.
Qed.

Lemma destroy_loop_holds id base turns i b b' :
  holds_buffer id base (gl b) (m_buffer_id b) ->
  destroy_loop turns i b = Ok b' ->
  holds_buffer id base (gl b') (m_buffer_id b').
Proof.
  revert i b. induction turns as [|k IH]; intros i b Hb H; cbn [destroy_loop] in H.
  - injection H as <-. exact Hb.
  - destruct (i <=? m_used_block_index b); [|injection H as <-; exact Hb].
    bind_inv H as s Hs. bind_inv H as u Hu.
    apply IH in H; [exact H|].
    eapply holds_buffer_more; [exact Hb| |]; reflexivity.
Qed.

Lemma Backend_destroy_releases id base x g' :
  holds_buffer id base (Backend.context x) (Backend.buffer_id x) ->
  Backend.destroy x = Ok g' ->
  live_buffers (gl_calls g') = remove_first id (live_buffers base).
Proof.
  intros Hx H.
  assert (Hd : holds_buffer id base
                 (mkGL (removelast (gl_calls g')) 0%nat []) id /\
               gl_calls g' = removelast (gl_calls g') ++ [glDeleteBuffers id]).
  { destruct Hx as (Hi & es & He & Hf). subst id.
    destruct x as [n|n|b]; cbn in H, He |- *.
    - injection H as <-. cbn.
      rewrite removelast_last. split; [|reflexivity].
      split; [reflexivity|]. exists es. auto.
    - injection H as <-. cbn.
      rewrite removelast_last. split; [|reflexivity].
      split; [reflexivity|]. exists es. auto.
    - unfold BufferStorageStreamBuffer.destroy in H.
      bind_inv H as b2 H2. injection H as <-.
      unfold destroy_syncing in H2.
      apply (destroy_loop_holds (m_buffer_id b) base) in H2.
      + destruct H2 as (Hi2 & es2 & He2 & Hf2). cbn. rewrite Hi2.
        rewrite removelast_last. split; [|reflexivity].
        split; [reflexivity|]. exists es2. auto.
      + eapply (holds_buffer_more _ _ (gl b));
          [split; [reflexivity|]; exists es; auto| |]; reflexivity. }
  destruct Hd as [(_ & es & He & Hf) Hlast].
  rewrite Hlast. cbn in He. rewrite He.
  rewrite !live_buffers_app. rewrite (track_kept es) by exact Hf.
  reflexivity.
Qed.

Lemma holds_buffer_created id g es g' i :
  i = id ->
  gl_calls g' = (gl_calls g ++ [glGenBuffers id]) ++ es ->
  forallb keeps_buffers es = true ->
  holds_buffer id (gl_calls g ++ [glGenBuffers id]) g' i.
Proof. intros -> H Hf. split; [reflexivity|]. exists es. auto. Qed.

(** X9.  The factory and the destructors balance the buffer objects: an
    empty result leaves no buffer object behind, also on the path where
    the persistent-mapped attempt was abandoned; an instance holds exactly
    one, under the name the driver handed out, and after any sequence of
    [Map] and [Unmap] its destructor deletes that one. *)
Theorem X9_buffer_object_released
    (Assert : bool -> result unit) (d : Driver) (target size : Z)
    (g : GLstate) (p : unique_ptr backend) :
  StreamBuffer.Create Assert d target size g = Ok p ->
  (forall g', p = empty g' ->
     live_buffers (gl_calls g') = live_buffers (gl_calls g)) /\
  (forall x, p = instance x ->
     Backend.buffer_id x = gen_buffer d /\
     live_buffers (gl_calls (Backend.context x))
       = gen_buffer d :: live_buffers (gl_calls g) /\
     forall cs x' g',
       Backend.run cs x = Ok x' ->
       Backend.destroy x' = Ok g' ->
       live_buffers (gl_calls g') = live_buffers (gl_calls g)).
Proof.
  intros H.
  assert (Hnaive : forall g0,
    live_buffers (gl_calls g0) = live_buffers (gl_calls g) ->
    forall q, upcast BufferData
                (BufferDataStreamBuffer.Create d target size g0) = q ->
    (forall g', q = empty g' ->
       live_buffers (gl_calls g') = live_buffers (gl_calls g)) /\
    (forall x, q = instance x ->
       holds_buffer (gen_buffer d) (gl_calls g0 ++ [glGetError;
                       glGenBuffers (gen_buffer d)])
         (Backend.context x) (Backend.buffer_id x))).
  { intros g0 H0 q Hq. unfold BufferDataStreamBuffer.Create in Hq.
    destruct (data_error d); cbn in Hq; subst q; split;
      intros y Hy; try discriminate; injection Hy as <-.
    - rewrite <- H0. unfold gl_allocate, gl_upload, gl_emit. cbn [gl_calls].
      rewrite !live_buffers_app. cbn. now rewrite Z.eqb_refl.
    - split; [reflexivity|]. cbn.
      exists [glBindBuffer target (gen_buffer d);
              glBufferData target size; glGetError].
      split; [|reflexivity]. rewrite <- !app_assoc. reflexivity. }
  assert (Hfinish : forall base x,
    live_buffers base = gen_buffer d :: live_buffers (gl_calls g) ->
    holds_buffer (gen_buffer d) base (Backend.context x) (Backend.buffer_id x) ->
    Backend.buffer_id x = gen_buffer d /\
    live_buffers (gl_calls (Backend.context x))
      = gen_buffer d :: live_buffers (gl_calls g) /\
    forall cs x' g',
      Backend.run cs x = Ok x' ->
      Backend.destroy x' = Ok g' ->
      live_buffers (gl_calls g') = live_buffers (gl_calls g)).
  { intros base x Hbase Hx. split; [apply Hx|]. split.
    - destruct Hx as (_ & es & He & Hf).
      rewrite He, live_buffers_app, track_kept by exact Hf. exact Hbase.
    - intros cs x' g' Hr Hd.
      rewrite (Backend_destroy_releases (gen_buffer d) base x' g'
                 (Backend_run_holds _ _ _ _ _ Hx Hr) Hd).
      rewrite Hbase. cbn. now rewrite Z.eqb_refl. }
  assert (Hbase : forall g0,
    live_buffers (gl_calls g0) = live_buffers (gl_calls g) ->
    live_buffers (gl_calls g0 ++ [glGetError; glGenBuffers (gen_buffer d)])
      = gen_buffer d :: live_buffers (gl_calls g)).
  { intros g0 H0. rewrite live_buffers_app, H0. reflexivity. }
  unfold StreamBuffer.Create in H.
  destruct (GLAD_GL_VERSION_4_4 d || GLAD_GL_ARB_buffer_storage d
            || GLAD_GL_EXT_buffer_storage d).
  - unfold BufferStorageStreamBuffer.Create in H.
    destruct (storage_error d); cbn [bind] in H.
    + injection H as H.
      match type of H with
      | upcast _ (_ _ _ _ ?g1) = _ =>
          assert (H1 : live_buffers (gl_calls g1) = live_buffers (gl_calls g))
      end.
      { destruct (GLAD_GL_VERSION_4_4 d || GLAD_GL_ARB_buffer_storage d);
          [|destruct (GLAD_GL_EXT_buffer_storage d)];
          unfold gl_emit; cbn [gl_calls];
          rewrite !live_buffers_app; cbn; now rewrite Z.eqb_refl. }
      destruct (Hnaive _ H1 p H) as [He Hi]. split; [exact He|].
      intros x Hx. apply (Hfinish _ x (Hbase _ H1) (Hi x Hx)).
    + destruct (Assert (mapping_succeeds d)); cbn [bind] in H; [|discriminate].
      injection H as <-. split; [discriminate|].
      intros x Hx. injection Hx as <-.
      apply (Hfinish (gl_calls g ++ [glGetError; glGenBuffers (gen_buffer d)])).
      * apply Hbase. reflexivity.
      * split; [reflexivity|]. cbn.
        destruct (GLAD_GL_VERSION_4_4 d || GLAD_GL_ARB_buffer_storage d);
          [|destruct (GLAD_GL_EXT_buffer_storage d)]; cbn;
          eexists; (split; [rewrite <- !app_assoc; cbn; reflexivity|]);
          reflexivity.
  - injection H as H.
    destruct (Hnaive g eq_refl p H) as [He Hi]. split; [exact He|].
    intros x Hx. apply (Hfinish _ x (Hbase g eq_refl) (Hi x Hx)).
Qed.

Lemma X9_buffer_object_released_witness :
  exists x x' g',
    StreamBuffer.Create Assert_fatal driver_storage_rejected
      34962 4096 gl_init = Ok (instance x) /\
    Backend.run (rounds 3 16 256) x = Ok x' /\
    Backend.destroy x' = Ok g' /\
    live_buffers (gl_calls (Backend.context x'))
      = [gen_buffer driver_storage_rejected] /\
    live_buffers (gl_calls g') = live_buffers (gl_calls gl_init).
Proof.
  evar (x : backend).
  assert (Hc : StreamBuffer.Create Assert_fatal driver_storage_rejected
                 34962 4096 gl_init = Ok (instance x))
    by (unfold x; vm_compute; reflexivity).
  evar (x' : backend).
  assert (Hr : Backend.run (rounds 3 16 256) x = Ok x')
    by (unfold x, x'; vm_compute; reflexivity).
  evar (g' : GLstate).
  assert (Hd : Backend.destroy x' = Ok g')
    by (unfold x', g'; vm_compute; reflexivity).
  exists x, x', g'.
  split; [exact Hc|]. split; [exact Hr|]. split; [exact Hd|].
  split; [unfold x'; vm_compute; reflexivity|].
  exact (proj2 (proj2 (proj2 (X9_buffer_object_released Assert_fatal
                                driver_storage_rejected 34962 4096 gl_init
                                (instance x) Hc) x eq_refl))
           (rounds 3 16 256) x' g' Hr Hd).
Defined.

Ltac not_in :=
  let H := fresh "H" in
  intros H; vm_compute in H;
  repeat (destruct H as [H|H]; [discriminate H|]); exact H.


(** ** [GetRelativePath] *)

Lemma c_str_id (s : list ascii) : ~ In NUL s -> c_str s = s.
Proof.
  induction s as [|c s IH]; intros H; [reflexivity|]. cbn.
  destruct (Ascii.eqb_spec c NUL) as [->|_]; [exfalso; apply H; now left|].
  rewrite IH; [reflexivity|]. intros Hin. apply H. now right.
Qed.

Lemma c_str_no_NUL (s : list ascii) : ~ In NUL (c_str s).
Proof.
  induction s as [|c s IH]; cbn; [tauto|].
  destruct (Ascii.eqb_spec c NUL) as [->|Hc]; cbn; [tauto|].
  intros [H|H]; [now apply Hc | now apply IH].
Qed.

Lemma c_str_idem (s : list ascii) : c_str (c_str s) = c_str s.
Proof. apply c_str_id, c_str_no_NUL. Qed.

Lemma strrchr_None (s : list ascii) (c : ascii) :
  strrchr s c = None <-> ~ In c s.
Proof.
  induction s as [|x s IH]; cbn; [tauto|].
  destruct (strrchr s c) as [i|].
  - split; [discriminate|]. intros H. exfalso. apply H. right.
    destruct (in_dec ascii_dec c s) as [Hin|Hn]; [exact Hin|].
    apply IH in Hn. discriminate.
  - destruct (Ascii.eqb_spec x c) as [->|Hx].
    + split; [discriminate|]. intros H. exfalso. apply H. now left.
    + split; [|reflexivity]. intros _ [H|H]; [now apply Hx|].
      now apply (proj1 IH).
Qed.

Lemma strrchr_last (d f : list ascii) (c : ascii) :
  ~ In c f -> strrchr (d ++ c :: f) c = Some (List.length d).
Proof.
  intros Hf. induction d as [|x d IH]; cbn.
  - apply strrchr_None in Hf. rewrite Hf, Ascii.eqb_refl. reflexivity.
  - rewrite IH. reflexivity.
Qed.

Lemma strrchr_Some (s : list ascii) (c : ascii) (i : nat) :
  strrchr s c = Some i ->
  exists f, s = take i s ++ c :: f /\ ~ In c f /\ List.length (take i s) = i.
Proof.
  revert i. induction s as [|x s IH]; intros i H; [discriminate|].
  cbn in H. destruct (strrchr s c) as [j|] eqn:Hs.
  - injection H as <-. destruct (IH j eq_refl) as (f & Hf & Hn & Hl).
    exists f. cbn. rewrite <- Hf, Hl. auto.
  - destruct (Ascii.eqb_spec x c) as [->|_]; [|discriminate].
    injection H as <-. exists s. cbn. split; [reflexivity|].
    split; [|reflexivity]. now apply strrchr_None.
Qed.

Lemma take_S_last (d f : list ascii) (c : ascii) :
  take (List.length d + 1) (d ++ c :: f) = d ++ [c].
Proof.
  replace (d ++ c :: f) with ((d ++ [c]) ++ f) by (now rewrite <- app_assoc).
  replace (List.length d + 1)%nat with (List.length (d ++ [c]))
    by (rewrite length_app; reflexivity).
  apply take_app_length.
Qed.

Lemma GetRelativePath_dir (d f n : list ascii) :
  ~ In NUL d -> ~ In NUL f -> ~ In "/"%char f ->
  GetRelativePath (d ++ "/"%char :: f) n = d ++ "/"%char :: c_str n.
Proof.
  intros Hd Hf Hs. unfold GetRelativePath.
  rewrite c_str_id.
  - rewrite strrchr_last by exact Hs. rewrite take_S_last.
    rewrite <- app_assoc. reflexivity.
  - intros H. apply in_app_or in H as [H|[H|H]]; [auto|discriminate|auto].
Qed.

Lemma GetRelativePath_form (p n : list ascii) :
  (~ In "/"%char (c_str p) /\ GetRelativePath p n = c_str n) \/
  (exists d f, c_str p = d ++ "/"%char :: f /\ ~ In "/"%char f /\
               GetRelativePath p n = d ++ "/"%char :: c_str n).
Proof.
  unfold GetRelativePath.
  destruct (strrchr (c_str p) "/"%char) as [i|] eqn:H.
  - right. destruct (strrchr_Some _ _ _ H) as (f & Hf & Hn & Hl).
    exists (take i (c_str p)), f. split; [exact Hf|]. split; [exact Hn|].
    rewrite Hf at 1. rewrite <- Hl at 1. rewrite take_S_last.
    rewrite <- app_assoc. reflexivity.
  - left. split; [now apply strrchr_None|reflexivity].
Qed.

(** X10.  [GetRelativePath] replaces what follows the last slash of the
    path and keeps everything up to and including that slash; a path
    without a slash is replaced as a whole. *)
Theorem X10_relative_path_replaces_last_component
    (dir file new_filename : list ascii) :
  ~ In NUL dir -> ~ In NUL file -> ~ In NUL new_filename ->
  ~ In "/"%char file ->
  GetRelativePath (dir ++ "/"%char :: file) new_filename
    = dir ++ "/"%char :: new_filename /\
  GetRelativePath file new_filename = new_filename.
Proof.
  intros Hd Hf Hn Hs. split.
  - rewrite GetRelativePath_dir by assumption. now rewrite c_str_id.
  - unfold GetRelativePath. rewrite (c_str_id file) by exact Hf.
    apply strrchr_None in Hs. rewrite Hs. now apply c_str_id.
Qed.

Lemma X10_relative_path_replaces_last_component_witness :
  GetRelativePath example_path scph1001
    = list_ascii_of_string "bios/scph1001.bin" /\
  GetRelativePath example_file scph1001 = scph1001.
Proof.
  apply (X10_relative_path_replaces_last_component
           example_dir example_file scph1001); not_in.
Defined.

(** X11.  Replacing the file name twice is replacing it once: when the
    first name holds no slash, the second replacement starts from the same
    directory, whatever the path is. *)
Theorem X11_relative_path_composes (path a b : list ascii) :
  ~ In "/"%char (c_str a) ->
  GetRelativePath (GetRelativePath path a) b = GetRelativePath path b.
Proof.
  intros Ha.
  destruct (GetRelativePath_form path a) as [[Hn Hpa]|(d & f & Hp & Hf & Hpa)].
  - destruct (GetRelativePath_form path b) as [[_ Hpb]|(d & f & Hp & _)].
    + rewrite Hpa, Hpb. unfold GetRelativePath. rewrite c_str_idem.
      apply strrchr_None in Ha. rewrite Ha. reflexivity.
    + exfalso. apply Hn. rewrite Hp. apply in_or_app. right. now left.
  - destruct (GetRelativePath_form path b) as [[Hn _]|(d' & f' & Hp' & Hf' & Hpb)].
    + exfalso. apply Hn. rewrite Hp. apply in_or_app. right. now left.
    + assert (Hdd : d' = d).
      { pose proof (strrchr_last d f "/"%char Hf) as H1.
        pose proof (strrchr_last d' f' "/"%char Hf') as H2.
        rewrite <- Hp in H1. rewrite <- Hp' in H2. rewrite H1 in H2.
        injection H2 as Hlen.
        rewrite Hp in Hp'.
        apply (f_equal (take (List.length d))) in Hp'.
        rewrite take_app_length in Hp'. rewrite Hlen in Hp'.
        rewrite take_app_length in Hp'. now symmetry. }
      subst d'. rewrite Hpa, Hpb.
      assert (Hd : ~ In NUL d).
      { intros H. apply (c_str_no_NUL path). rewrite Hp.
        apply in_or_app. now left. }
      apply GetRelativePath_dir; [exact Hd|apply c_str_no_NUL|exact Ha].
Qed.

Lemma X11_relative_path_composes_witness :
  GetRelativePath (GetRelativePath example_path scph1001) scph5501
    = GetRelativePath example_path scph5501.
Proof.
  apply (X11_relative_path_composes example_path scph1001 scph5501). not_in.
Defined.

(** ** [GetBIOSImage] *)

Lemma TRY_FILENAME_Some
    {Image Hash : Type} (LoadImageFromFile : list ascii -> option Image)
    (GetHash : Image -> Hash)
    (IsValidHashForRegion : ConsoleRegion -> Hash -> bool)
    (region : ConsoleRegion) (filename : list ascii)
    (otherwise : option (option Image)) (r : option Image) :
  TRY_FILENAME LoadImageFromFile GetHash IsValidHashForRegion
    region filename otherwise = Some r ->
  exists image,
    LoadImageFromFile filename = Some image /\
    ((IsValidHashForRegion region (GetHash image) = true /\ r = Some image) \/
     (IsValidHashForRegion region (GetHash image) = false /\
      otherwise = Some r)).
Proof.
  unfold TRY_FILENAME. destruct (LoadImageFromFile filename) as [image|];
    [|discriminate].
  intros H. exists image. split; [reflexivity|].
  destruct (IsValidHashForRegion region (GetHash image)).
  - left. injection H as <-. auto.
  - right. auto.
Qed.

(** X12.  Whenever the behaviour of [GetBIOSImage] is defined, the result
    is not an empty optional: it is an image loaded from the configured
    path, or from one of the two file names of the region next to it, and
    in the latter case its hash is valid for the region.  The configured
    file itself was loaded. *)
Theorem X12_bios_image_is_never_empty
    (Image Hash : Type) (LoadImageFromFile : list ascii -> option Image)
    (GetHash : Image -> Hash)
    (IsValidHashForRegion : ConsoleRegion -> Hash -> bool)
    (bios_path : list ascii) (region : ConsoleRegion)
    (result : option Image) :
  GetBIOSImage LoadImageFromFile GetHash IsValidHashForRegion bios_path region
    = Some result ->
  (exists image, LoadImageFromFile bios_path = Some image) /\
  exists image,
    result = Some image /\
    chosen LoadImageFromFile GetHash IsValidHashForRegion bios_path region
      image.
Proof.
  unfold GetBIOSImage. intros H.
  apply TRY_FILENAME_Some in H as (i0 & H0 & [[Hv ->]|[Hv H]]).
  - split; [eauto|]. exists i0. split; [reflexivity|]. now left.
  - split; [eauto|].
    assert (Hfb : forall r, Some (LoadImageFromFile bios_path) = Some r ->
              exists image,
                r = Some image /\
                chosen LoadImageFromFile GetHash IsValidHashForRegion
                  bios_path region image).
    { intros r0 Hr. injection Hr as <-. exists i0. split; [exact H0|].
      now left. }
    assert (Htwo : forall n1 n2,
      region_filenames region = [n1; n2] ->
      TRY_FILENAME LoadImageFromFile GetHash IsValidHashForRegion region
        (GetRelativePath bios_path n1)
        (TRY_FILENAME LoadImageFromFile GetHash IsValidHashForRegion region
           (GetRelativePath bios_path n2)
           (Some (LoadImageFromFile bios_path))) = Some result ->
      exists image,
        result = Some image /\
        chosen LoadImageFromFile GetHash IsValidHashForRegion
          bios_path region image).
    { intros n1 n2 Hn H1.
      apply TRY_FILENAME_Some in H1 as (i1 & L1 & [[V1 ->]|[V1 H1]]).
      - exists i1. split; [reflexivity|]. right. exists n1.
        rewrite Hn. cbn. auto.
      - apply TRY_FILENAME_Some in H1 as (i2 & L2 & [[V2 ->]|[V2 H2]]).
        + exists i2. split; [reflexivity|]. right. exists n2.
          rewrite Hn. cbn. auto.
        + now apply Hfb. }
    destruct region; cbv zeta in H.
    + now apply (Htwo scph1000 scph5500).
    + now apply (Htwo scph1001 scph5501).
    + now apply (Htwo scph1002 scph5502).
    + now apply Hfb.
Qed.

Lemma X12_bios_image_is_never_empty_witness :
  GetBIOSImage example_load id example_valid example_path NTSC_U
    = Some (Some 3%nat) /\
  (exists image, example_load example_path = Some image) /\
  exists image,
    Some 3%nat = Some image /\
    chosen example_load id example_valid example_path NTSC_U image.
Proof.
  split; [vm_compute; reflexivity|].
  apply (X12_bios_image_is_never_empty nat nat example_load id example_valid
           example_path NTSC_U (Some 3%nat)).
  vm_compute. reflexivity.
Defined.

(** X13.  The search stops at the first file that cannot be loaded: when
    the configured file is missing the behaviour is undefined for every
    region, and when it is present but not valid for the region a missing
    first candidate of the region makes it undefined as well, whatever
    the second candidate is. *)
Theorem X13_bios_missing_file_is_undefined
    (Image Hash : Type) (LoadImageFromFile : list ascii -> option Image)
    (GetHash : Image -> Hash)
    (IsValidHashForRegion : ConsoleRegion -> Hash -> bool)
    (bios_path : list ascii) (region : ConsoleRegion) :
  (LoadImageFromFile bios_path = None ->
   GetBIOSImage LoadImageFromFile GetHash IsValidHashForRegion
     bios_path region = None) /\
  (forall image name rest,
     LoadImageFromFile bios_path = Some image ->
     IsValidHashForRegion region (GetHash image) = false ->
     region_filenames region = name :: rest ->
     LoadImageFromFile (GetRelativePath bios_path name) = None ->
     GetBIOSImage LoadImageFromFile GetHash IsValidHashForRegion
       bios_path region = None).
Proof.
  split.
  - intros H. unfold GetBIOSImage, TRY_FILENAME. rewrite H. reflexivity.
  - intros image name rest H Hv Hn Hl.
    unfold GetBIOSImage, TRY_FILENAME at 1. rewrite H, Hv.
    destruct region; unfold region_filenames in Hn; try discriminate;
      injection Hn as <- _; unfold TRY_FILENAME at 1; rewrite Hl;
      reflexivity.
Qed.

Lemma X13_bios_missing_file_is_undefined_witness :
  GetBIOSImage example_load id example_valid example_file PAL = None /\
  GetBIOSImage example_load id example_valid example_path NTSC_J = None.
Proof.
  split.
  - apply (proj1 (X13_bios_missing_file_is_undefined nat nat example_load id
                    example_valid example_file PAL)).
    vm_compute. reflexivity.
  - apply (proj2 (X13_bios_missing_file_is_undefined nat nat example_load id
                    example_valid example_path NTSC_J)
             1%nat scph1000 [scph5500]); vm_compute; reflexivity.
Defined.

(** ** The host interface *)

Lemma u64_small (z : Z) : 0 <= z < 2 ^ 64 -> u64 z = z.
Proof. intros H. unfold u64. now apply Z.mod_small. Qed.

Lemma u64_range (z : Z) : 0 <= u64 z < 2 ^ 64.
Proof. unfold u64. apply Z.mod_pos_bound. lia. Qed.




(** What one call of [Throttle] does, by the three branches. *)
Lemma Throttle_Some (p : Platform) (time : Z) (h h' : HostInterface) :
  Throttle p time h = Some h' ->
  let sleep_time := s64 (u64 (m_last_throttle_time h - time)) in
  (Z.abs sleep_time >= MAX_VARIANCE_TIME /\
   h' = set_last_throttle_time (u64 (0 + m_throttle_period h))
          (host_emit [throttle_timer_Reset] (set_last_throttle_time 0 h))) \/
  (Z.abs sleep_time < MAX_VARIANCE_TIME /\
   MINIMUM_SLEEP_TIME <= sleep_time <= m_throttle_period h /\
   h' = set_last_throttle_time
          (u64 (m_last_throttle_time h + m_throttle_period h))
          (host_emit [if WIN32 p then Sleep (u32 (Z.quot sleep_time 1000000))
                      else nanosleep 0 (slong (long_bits p) sleep_time)] h)) \/
  (Z.abs sleep_time < MAX_VARIANCE_TIME /\
   ~ (MINIMUM_SLEEP_TIME <= sleep_time <= m_throttle_period h) /\
   h' = set_last_throttle_time
          (u64 (m_last_throttle_time h + m_throttle_period h)) h).
Proof.
  unfold Throttle. cbv zeta.
  set (sleep_time := s64 (u64 (m_last_throttle_time h - time))).
  destruct (sleep_time =? - 2 ^ 63); [discriminate|].
  destruct (Z.geb_spec (Z.abs sleep_time) MAX_VARIANCE_TIME) as [Hm|Hm].
  - intros H. injection H as <-. left. split; [lia|reflexivity].
  - destruct (Z.geb_spec sleep_time MINIMUM_SLEEP_TIME) as [H1|H1];
      destruct (Z.leb_spec sleep_time (m_throttle_period h)) as [H2|H2];
      cbn [andb]; intros H; injection H as <-.
    + right. left. split; [lia|]. split; [lia|].
      destruct (WIN32 p); reflexivity.
    + right. right. split; [lia|]. split; [lia|reflexivity].
    + right. right. split; [lia|]. split; [lia|reflexivity].
    + right. right. split; [lia|]. split; [lia|reflexivity].
Qed.



(** ** [Throttle] keeps the schedule *)

Lemma host_new_calls_app (h h' : HostInterface) (es : list host_event) :
  host_calls h' = host_calls h ++ es -> host_new_calls h h' = es.
Proof. intros H. unfold host_new_calls. rewrite H. apply drop_app_length. Qed.

(** A call of [Throttle] keeps everything but the time that is due and
    the log; the time moves on by one period unless the timer was
    reset. *)
Lemma Throttle_frame (p : Platform) (time : Z) (h h' : HostInterface) :
  Throttle p time h = Some h' ->
  exists es,
    h' = set_last_throttle_time (m_last_throttle_time h') (host_emit es h) /\
    0 <= m_last_throttle_time h' < 2 ^ 64 /\
    (In throttle_timer_Reset es ->
     m_last_throttle_time h' = u64 (m_throttle_period h)) /\
    (~ In throttle_timer_Reset es ->
     m_last_throttle_time h'
       = u64 (m_last_throttle_time h + m_throttle_period h)).
Proof.
  intros H. apply Throttle_Some in H. cbv zeta in H.
  destruct H as [[_ ->]|[(_ & _ & ->)|(_ & _ & ->)]].
  - exists [throttle_timer_Reset]. split; [reflexivity|].
    split; [apply u64_range|]. split; [reflexivity|].
    intros Hn. exfalso. apply Hn. now left.
  - eexists. split; [reflexivity|]. cbn [m_last_throttle_time
      set_last_throttle_time].
    assert (Hn : ~ In throttle_timer_Reset
                   [if WIN32 p
                    then Sleep (u32 (Z.quot (s64 (u64 (m_last_throttle_time h
                                                       - time))) 1000000))
                    else nanosleep 0 (slong (long_bits p)
                           (s64 (u64 (m_last_throttle_time h - time))))]).
    { destruct (WIN32 p); intros [Hx|[]]; discriminate. }
    split; [apply u64_range|]. split; [intros Hx; now apply Hn in Hx|].
    reflexivity.
  - exists []. split; [|split; [apply u64_range|split]].
    + destruct h. unfold host_emit, set_last_throttle_time. cbn.
      now rewrite app_nil_r.
    + intros [].
    + reflexivity.
Qed.

Lemma u64_add_l (x y : Z) : u64 (u64 x + y) = u64 (x + y).
Proof. unfold u64. apply Zplus_mod_idemp_l. Qed.

Lemma host_run_throttles (p : Platform) (ops : list (Answers * host_op))
    (h h' : HostInterface) :
  forallb is_throttle ops = true ->
  host_run p ops h = Some h' ->
  exists es,
    host_calls h' = host_calls h ++ es /\
    m_throttle_period h' = m_throttle_period h /\
    (0 <= m_last_throttle_time h < 2 ^ 64 ->
     0 <= m_last_throttle_time h' < 2 ^ 64) /\
    (~ In throttle_timer_Reset es ->
     u64 (m_last_throttle_time h')
       = u64 (m_last_throttle_time h
              + Z.of_nat (List.length ops) * m_throttle_period h)).
Proof.
  revert h. induction ops as [|[a op] ops IH]; intros h Hall H.
  - injection H as <-. exists []. split; [now rewrite app_nil_r|].
    split; [reflexivity|]. split; [auto|].
    intros _. cbn [List.length Z.of_nat]. f_equal. lia.
  - cbn [forallb] in Hall. apply andb_true_iff in Hall as [Hop Hall].
    destruct op; try discriminate. cbn [host_run host_step] in H.
    destruct (Throttle p time h) as [h1|] eqn:Ht; [|discriminate].
    destruct (Throttle_frame _ _ _ _ Ht) as (es1 & Hh1 & Hr1 & _ & Hlast).
    destruct (IH h1 Hall H) as (es & Hes & Hper & Hrange & Hrest).
    assert (Hp1 : m_throttle_period h1 = m_throttle_period h)
      by (rewrite Hh1; reflexivity).
    assert (Hc1 : host_calls h1 = host_calls h ++ es1)
      by (rewrite Hh1; reflexivity).
    exists (es1 ++ es). split; [rewrite Hes, Hc1; now rewrite app_assoc|].
    split; [congruence|]. split.
    { intros _. apply Hrange. exact Hr1. }
    intros Hn.
    rewrite Hrest by (intros Hx; apply Hn, in_or_app; now right).
    rewrite Hlast by (intros Hx; apply Hn, in_or_app; now left).
    rewrite Hp1, u64_add_l. f_equal.
    change (List.length ((a, op_Throttle time) :: ops))
      with (S (List.length ops)).
    lia.
Qed.

(** X15.  Calls of [Throttle] during which the timer is not reset keep to
    the schedule: after [n] calls the time that is due has moved on by
    exactly [n] periods (on [u64]), however long each call slept and
    whenever it was made. *)
Theorem X15_throttle_keeps_the_schedule
    (p : Platform) (ops : list (Answers * host_op)) (h h' : HostInterface) :
  0 <= m_last_throttle_time h < 2 ^ 64 ->
  forallb is_throttle ops = true ->
  host_run p ops h = Some h' ->
  ~ In throttle_timer_Reset (host_new_calls h h') ->
  m_throttle_period h' = m_throttle_period h /\
  m_last_throttle_time h'
    = u64 (m_last_throttle_time h
           + Z.of_nat (List.length ops) * m_throttle_period h).
Proof.
  intros Hl Hall H Hn.
  destruct (host_run_throttles p ops h h' Hall H)
    as (es & Hes & Hp & Hrange & Hlast).
  rewrite (host_new_calls_app _ _ _ Hes) in Hn.
  split; [exact Hp|].
  rewrite <- (Hlast Hn). symmetry. apply u64_small. auto.
Qed.

Lemma X15_throttle_keeps_the_schedule_witness :
  exists h',
    host_run linux64
      [(all_succeed, op_Throttle 12000000);
       (all_succeed, op_Throttle 30000000);
       (all_succeed, op_Throttle 50000000)]
      (set_last_throttle_time 16666667 example_host) = Some h' /\
    host_new_calls (set_last_throttle_time 16666667 example_host) h'
      = [nanosleep 0 4666667; nanosleep 0 3333334] /\
    m_throttle_period h' = 16666667 /\
    m_last_throttle_time h' = u64 (16666667 + 3 * 16666667).
Proof.
  eexists. split; [vm_compute; reflexivity|].
  split; [reflexivity|].
  apply (X15_throttle_keeps_the_schedule linux64
           [(all_succeed, op_Throttle 12000000);
            (all_succeed, op_Throttle 30000000);
            (all_succeed, op_Throttle 50000000)]
           (set_last_throttle_time 16666667 example_host)).
  - cbn. lia.
  - reflexivity.
  - vm_compute. reflexivity.
  - vm_compute. intros [H|[H|[]]]; discriminate.
Defined.




(** ** [SaveState] and [LoadState] *)

(** X17.  [SaveState] changes nothing but the log of calls.  It returns
    true exactly when the file was opened and the system saved its state;
    the stream is committed exactly in that case and discarded exactly
    when the file was opened and saving failed; once opened, the stream
    is released as the last call, and only there.  The behaviour is
    undefined exactly when the file was opened (created and truncated)
    and there is no system. *)
Theorem X17_save_state_commits_or_discards
    (a : Answers) (filename : list ascii) (h : HostInterface) :
  (SaveState a filename h = None <->
   open_succeeds a = true /\ m_system h = false) /\
  forall result h',
    SaveState a filename h = Some (result, h') ->
    result = open_succeeds a && save_succeeds a /\
    h' = host_emit (host_new_calls h h') h /\
    (In stream_Commit (host_new_calls h h') <-> result = true) /\
    (In stream_Discard (host_new_calls h h')
       <-> open_succeeds a = true /\ result = false) /\
    (open_succeeds a = true ->
     exists before,
       host_new_calls h h' = before ++ [stream_Release] /\
       ~ In stream_Release before) /\
    (open_succeeds a = false -> ~ In stream_Release (host_new_calls h h')).
Proof.
  unfold SaveState. cbv zeta.
  change (m_system (host_emit ?es h)) with (m_system h).
  destruct (open_succeeds a), (m_system h), (save_succeeds a); cbn [negb andb];
    (split; [split; [intros H; try discriminate H; auto
                    |intros [H1 H2]; try discriminate; reflexivity]|]);
    intros result h' H; try discriminate H;
    injection H as <- <-;
    unfold host_new_calls; cbn [host_calls host_emit];
    rewrite <- ?app_assoc, drop_app_length; cbn [app];
    (split; [reflexivity|]);
    (split; [destruct h; unfold host_emit; cbn; rewrite <- ?app_assoc;
             reflexivity|]);
    (split; [split; [intros H; cbn in H; try reflexivity;
                     repeat (destruct H as [H|H]; try discriminate H);
                     try contradiction
                    |intros H; try discriminate H; cbn; tauto]|]);
    (split; [split; [intros H; cbn in H; split; try reflexivity;
                     repeat (destruct H as [H|H]; try discriminate H);
                     try contradiction
                    |intros [H1 H2]; try discriminate; cbn; tauto]|]);
    (split; [intros H; try discriminate H|
             intros H; try discriminate H; cbn; intros Hx;
             repeat (destruct Hx as [Hx|Hx]; try discriminate Hx);
             try contradiction]).
  - exists [ByteStream_OpenFileStream filename
              [BYTESTREAM_OPEN_CREATE; BYTESTREAM_OPEN_WRITE;
               BYTESTREAM_OPEN_TRUNCATE; BYTESTREAM_OPEN_ATOMIC_UPDATE;
               BYTESTREAM_OPEN_STREAMED];
            System_SaveState; AddOSDMessage; stream_Commit].
    split; [reflexivity|]. cbn. intros Hx.
    repeat (destruct Hx as [Hx|Hx]; try discriminate Hx). contradiction.
  - exists [ByteStream_OpenFileStream filename
              [BYTESTREAM_OPEN_CREATE; BYTESTREAM_OPEN_WRITE;
               BYTESTREAM_OPEN_TRUNCATE; BYTESTREAM_OPEN_ATOMIC_UPDATE;
               BYTESTREAM_OPEN_STREAMED];
            System_SaveState; ReportError; stream_Discard].
    split; [reflexivity|]. cbn. intros Hx.
    repeat (destruct Hx as [Hx|Hx]; try discriminate Hx). contradiction.
Qed.

Lemma X17_save_state_commits_or_discards_witness :
  exists h',
    SaveState all_succeed example_file example_running = Some (true, h') /\
    In stream_Commit (host_new_calls example_running h') /\
    ~ In stream_Discard (host_new_calls example_running h').
Proof.
  eexists. split; [vm_compute; reflexivity|].
  destruct (proj2 (X17_save_state_commits_or_discards all_succeed
                     example_file example_running) true _ eq_refl)
    as (_ & _ & Hc & Hd & _).
  split; [now apply Hc|]. intros H. apply Hd in H as [_ H]. discriminate.
Defined.

(** X18.  [LoadState] changes nothing in the host but the log of calls.
    It returns true exactly when the file was opened and the system
    loaded the state; the system is reset exactly when the file was
    opened and loading failed; once opened, the stream is released as the
    last call, and only there.  The behaviour is undefined exactly when
    the file was opened and there is no system. *)
Theorem X18_load_state_resets_on_failure
    (a : Answers) (filename : list ascii) (h : HostInterface) :
  (LoadState a filename h = None <->
   open_succeeds a = true /\ m_system h = false) /\
  forall result h',
    LoadState a filename h = Some (result, h') ->
    result = open_succeeds a && load_succeeds a /\
    h' = host_emit (host_new_calls h h') h /\
    (In System_Reset (host_new_calls h h')
       <-> open_succeeds a = true /\ result = false) /\
    (open_succeeds a = true ->
     exists before,
       host_new_calls h h' = before ++ [stream_Release] /\
       ~ In stream_Release before) /\
    (open_succeeds a = false ->
     host_new_calls h h'
       = [ByteStream_OpenFileStream filename
            [BYTESTREAM_OPEN_READ; BYTESTREAM_OPEN_STREAMED]]).
Proof.
  unfold LoadState. cbv zeta.
  change (m_system (host_emit ?es (host_emit ?es' h))) with (m_system h).
  destruct (open_succeeds a), (m_system h), (load_succeeds a); cbn [negb andb];
    (split; [split; [intros H; try discriminate H; auto
                    |intros [H1 H2]; try discriminate; reflexivity]|]);
    intros result h' H; try discriminate H;
    injection H as <- <-;
    unfold host_new_calls; cbn [host_calls host_emit];
    rewrite <- ?app_assoc, drop_app_length; cbn [app];
    (split; [reflexivity|]);
    (split; [destruct h; unfold host_emit; cbn; rewrite <- ?app_assoc;
             reflexivity|]);
    (split; [split; [intros H; cbn in H; split; try reflexivity;
                     repeat (destruct H as [H|H]; try discriminate H);
                     try contradiction
                    |intros [H1 H2]; try discriminate; cbn; tauto]|]);
    (split; [intros H; try discriminate H|
             intros H; try discriminate H; reflexivity]).
  - exists [ByteStream_OpenFileStream filename
              [BYTESTREAM_OPEN_READ; BYTESTREAM_OPEN_STREAMED];
            AddOSDMessage; System_LoadState].
    split; [reflexivity|]. cbn. intros Hx.
    repeat (destruct Hx as [Hx|Hx]; try discriminate Hx). contradiction.
  - exists [ByteStream_OpenFileStream filename
              [BYTESTREAM_OPEN_READ; BYTESTREAM_OPEN_STREAMED];
            AddOSDMessage; System_LoadState; ReportError; System_Reset].
    split; [reflexivity|]. cbn. intros Hx.
    repeat (destruct Hx as [Hx|Hx]; try discriminate Hx). contradiction.
Qed.

Lemma X18_load_state_resets_on_failure_witness :
  exists h',
    LoadState (mkAnswers true example_settings true true false true)
      example_file example_running = Some (false, h') /\
    In System_Reset (host_new_calls example_running h').
Proof.
  eexists. split; [vm_compute; reflexivity|].
  destruct (proj2 (X18_load_state_resets_on_failure
                     (mkAnswers true example_settings true true false true)
                     example_file example_running) false _ eq_refl)
    as (_ & _ & Hr & _).
  apply Hr. split; reflexivity.
Defined.

(** ** The synchronisation follows the state *)

Lemma fold_last {A} (f : host_event -> option A) (es : list host_event)
    (acc : option A) :
  fold_left (fun acc e => match f e with Some x => Some x | None => acc end)
            es acc
  = match last_call f es with
    | Some x => Some x
    | None => acc
    end.
Proof.
  unfold last_call. revert acc.
  induction es as [|e es IH]; intros acc; [reflexivity|].
  cbn [fold_left]. rewrite IH.
  rewrite (IH (match f e with Some x => Some x | None => None end)).
  destruct (fold_left _ es None); [reflexivity|]. now destruct (f e).
Qed.

Lemma last_call_app {A} (f : host_event -> option A)
    (es es' : list host_event) :
  last_call f (es ++ es')
  = match last_call f es' with
    | Some x => Some x
    | None => last_call f es
    end.
Proof.
  unfold last_call at 1. rewrite fold_left_app. apply fold_last.
Qed.

Lemma keeps_sync_last (es : list host_event) :
  forallb keeps_sync es = true ->
  last_audio_sync es = None /\ last_vsync es = None.
Proof.
  unfold last_audio_sync, last_vsync.
  induction es as [|e es IH] using rev_ind; intros H; [split; reflexivity|].
  rewrite forallb_app in H. apply andb_true_iff in H as [H He].
  rewrite !last_call_app.
  destruct (IH H) as [-> ->]. cbn in He. destruct e; try discriminate;
    split; reflexivity.
Qed.

Lemma in_sync_quiet (h h' : HostInterface) :
  in_sync h -> quiet h h' -> in_sync h'.
Proof.
  intros (H1 & H2 & H3) (es & t & -> & Hes).
  destruct (keeps_sync_last es Hes) as [Ha Hv].
  unfold in_sync, sync_wanted in *.
  unfold set_last_throttle_time, host_emit.
  cbn [m_settings m_system m_paused m_speed_limiter_enabled
       m_speed_limiter_temp_disabled host_calls].
  unfold last_audio_sync, last_vsync in *.
  rewrite !last_call_app, Ha, Hv. auto.
Qed.

Lemma quiet_emit (es : list host_event) (h : HostInterface) :
  forallb keeps_sync es = true -> quiet h (host_emit es h).
Proof.
  intros H. exists es, (m_last_throttle_time h). split; [|exact H].
  destruct h; reflexivity.
Qed.

Lemma UpdateSpeedLimiterState_in_sync (h : HostInterface) :
  in_sync (UpdateSpeedLimiterState h).
Proof.
  unfold in_sync, sync_wanted, UpdateSpeedLimiterState.
  unfold set_last_throttle_time, host_emit, set_speed_limiter_enabled.
  cbn [m_settings m_system m_paused m_speed_limiter_enabled
       m_speed_limiter_temp_disabled host_calls].
  unfold last_audio_sync, last_vsync. rewrite !last_call_app.
  split; [reflexivity|]. split; reflexivity.
Qed.

Lemma Throttle_quiet (p : Platform) (time : Z) (h h' : HostInterface) :
  Throttle p time h = Some h' -> quiet h h'.
Proof.
  intros H. apply Throttle_Some in H. cbv zeta in H.
  destruct H as [[_ ->]|[(_ & _ & ->)|(_ & _ & ->)]].
  - exists [throttle_timer_Reset], (u64 (0 + m_throttle_period h)).
    split; reflexivity.
  - eexists _, _. split; [reflexivity|]. now destruct (WIN32 p).
  - exists [], (u64 (m_last_throttle_time h + m_throttle_period h)).
    split; [|reflexivity]. destruct h. unfold host_emit. cbn.
    now rewrite app_nil_r.
Qed.

Lemma LoadState_quiet (a : Answers) (filename : list ascii)
    (h h' : HostInterface) (r : bool) :
  LoadState a filename h = Some (r, h') -> quiet h h'.
Proof.
  unfold LoadState. cbv zeta.
  change (m_system (host_emit ?es (host_emit ?es' h))) with (m_system h).
  destruct (open_succeeds a), (m_system h), (load_succeeds a); cbn [negb];
    intros H; try discriminate H; injection H as <- <-;
    eexists _, (m_last_throttle_time h);
    (split; [destruct h; unfold host_emit, set_last_throttle_time; cbn;
             rewrite <- ?app_assoc; reflexivity|reflexivity]).
Qed.

Lemma SaveState_quiet (a : Answers) (filename : list ascii)
    (h h' : HostInterface) (r : bool) :
  SaveState a filename h = Some (r, h') -> quiet h h'.
Proof.
  unfold SaveState. cbv zeta.
  change (m_system (host_emit ?es h)) with (m_system h).
  destruct (open_succeeds a), (m_system h), (save_succeeds a); cbn [negb];
    intros H; try discriminate H; injection H as <- <-;
    eexists _, (m_last_throttle_time h);
    (split; [destruct h; unfold host_emit, set_last_throttle_time; cbn;
             rewrite <- ?app_assoc; reflexivity|reflexivity]).
Qed.

Lemma host_step_in_sync (p : Platform) (a : Answers) (op : host_op)
    (h h' : HostInterface) :
  in_sync h -> host_step p a op h = Some h' -> in_sync h'.
Proof.
  intros Hh H. destruct op; cbn [host_step] in H.
  - unfold CreateSystem in H. cbv zeta in H.
    destruct (negb _); [discriminate|]. injection H as <-.
    apply UpdateSpeedLimiterState_in_sync.
  - unfold BootSystem in H. cbv zeta in H.
    destruct (negb (m_system h)); [discriminate|].
    destruct (negb (boot_succeeds a)).
    + injection H as <-. apply (in_sync_quiet h); [exact Hh|].
      now apply quiet_emit.
    + destruct state_filename as [name|].
      * destruct (LoadState a name _) as [[loaded h4]|] eqn:Hl;
          [|discriminate].
        apply LoadState_quiet in Hl.
        assert (h' = h4) as -> by (destruct (negb loaded); now injection H).
        eapply in_sync_quiet; [apply UpdateSpeedLimiterState_in_sync|exact Hl].
      * injection H as <-. apply UpdateSpeedLimiterState_in_sync.
  - injection H as <-. apply UpdateSpeedLimiterState_in_sync.
  - destruct (LoadState a filename h) as [[r h1]|] eqn:Hl; [|discriminate].
    injection H as <-. eapply in_sync_quiet; [exact Hh|].
    eapply LoadState_quiet; eauto.
  - destruct (SaveState a filename h) as [[r h1]|] eqn:Hl; [|discriminate].
    injection H as <-. eapply in_sync_quiet; [exact Hh|].
    eapply SaveState_quiet; eauto.
  - injection H as <-. apply UpdateSpeedLimiterState_in_sync.
  - eapply in_sync_quiet; [exact Hh|]. eapply Throttle_quiet; eauto.
Qed.

Lemma host_run_in_sync (p : Platform) (ops : list (Answers * host_op))
    (h h' : HostInterface) :
  in_sync h -> host_run p ops h = Some h' -> in_sync h'.
Proof.
  revert h. induction ops as [|[a op] ops IH]; intros h Hh H;
    cbn [host_run] in H.
  - now injection H as <-.
  - destruct (host_step p a op h) as [h1|] eqn:Hs; [|discriminate].
    eapply IH; [|exact H]. eapply host_step_in_sync; eauto.
Qed.

(** X19.  The audio stream and the display are always told what the state
    asks for.  Once [UpdateSpeedLimiterState] has run, after any sequence
    of [CreateSystem], [BootSystem], [DestroySystem], [LoadState],
    [SaveState], [UpdateSpeedLimiterState] and [Throttle], whatever the
    collaborators answered, the last value given to [SetSync] and to
    [SetVSync] is the one the present state determines; in particular
    both are on whenever there is no system or the system is paused. *)
Theorem X19_sync_follows_state
    (p : Platform) (ops : list (Answers * host_op)) (h h' : HostInterface) :
  in_sync h ->
  host_run p ops h = Some h' ->
  in_sync h' /\
  (m_system h' = false \/ m_paused h' = true ->
   last_audio_sync (host_calls h') = Some true /\
   last_vsync (host_calls h') = Some true).
Proof.
  intros Hh H.
  pose proof (host_run_in_sync p ops h h' Hh H) as Hs.
  split; [exact Hs|].
  destruct Hs as (_ & Ha & Hv). rewrite Ha, Hv. unfold sync_wanted.
  intros [-> | ->]; cbn; rewrite ?orb_true_r; auto.
Qed.

Lemma X19_sync_follows_state_witness :
  exists h',
    host_run linux64
      [(all_succeed, op_CreateSystem);
       (all_succeed, op_BootSystem example_file (Some example_path));
       (all_succeed, op_Throttle 5000000);
       (all_succeed, op_SaveState example_path);
       (all_succeed, op_DestroySystem)]
      (UpdateSpeedLimiterState example_host) = Some h' /\
    in_sync h' /\
    (m_system h' = false \/ m_paused h' = true ->
     last_audio_sync (host_calls h') = Some true /\
     last_vsync (host_calls h') = Some true).
Proof.
  eexists. split; [vm_compute; reflexivity|].
  apply (X19_sync_follows_state linux64
           [(all_succeed, op_CreateSystem);
            (all_succeed, op_BootSystem example_file (Some example_path));
            (all_succeed, op_Throttle 5000000);
            (all_succeed, op_SaveState example_path);
            (all_succeed, op_DestroySystem)]
           (UpdateSpeedLimiterState example_host)).
  - split; [reflexivity|]. split; reflexivity.
  - vm_compute. reflexivity.
Defined.

(** ** [BootSystem] *)

Lemma LoadState_result (a : Answers) (filename : list ascii)
    (h : HostInterface) :
  m_system h = true ->
  exists h',
    LoadState a filename h = Some (open_succeeds a && load_succeeds a, h') /\
    quiet h h'.
Proof.
  intros Hs. unfold LoadState. cbv zeta.
  change (m_system (host_emit ?es (host_emit ?es' h))) with (m_system h).
  rewrite Hs.
  destruct (open_succeeds a), (load_succeeds a); cbn [negb andb];
    eexists; (split; [reflexivity|]);
    eexists _, (m_last_throttle_time h);
    (split; [destruct h; unfold host_emit, set_last_throttle_time; cbn;
             rewrite <- ?app_assoc; reflexivity|reflexivity]).
Qed.

Lemma quiet_fields (h h' : HostInterface) :
  quiet h h' ->
  m_settings h' = m_settings h /\ m_system h' = m_system h /\
  m_paused h' = m_paused h /\
  exists es, host_calls h' = host_calls h ++ es.
Proof.
  intros (es & t & -> & _). repeat split. now exists es.
Qed.

(** X20.  [BootSystem] with a system at hand is defined.  It returns true
    exactly when the system booted and, if a state file was named, that
    file was opened and the state loaded.  When the system does not boot,
    nothing but the call of [Boot] has happened.  When it boots, the
    pause flag is taken from the settings and the audio stream and the
    display are told, also in the case that loading the state then fails
    and false is returned: a failed [BootSystem] may leave a booted
    system behind.  Without a system the behaviour is undefined. *)
Theorem X20_boot_system_outcomes
    (a : Answers) (filename : list ascii)
    (state_filename : option (list ascii)) (h : HostInterface) :
  (m_system h = false -> BootSystem a filename state_filename h = None) /\
  (m_system h = true ->
   exists result h',
     BootSystem a filename state_filename h = Some (result, h') /\
     result
       = boot_succeeds a
         && match state_filename with
            | Some _ => open_succeeds a && load_succeeds a
            | None => true
            end /\
     (boot_succeeds a = false -> h' = host_emit [System_Boot filename] h) /\
     (boot_succeeds a = true ->
      m_system h' = true /\
      m_paused h' = start_paused (m_settings h) /\
      in_sync h' /\
      exists es,
        host_calls h'
          = host_calls h ++ System_Boot filename :: es)).
Proof.
  split.
  - intros Hs. unfold BootSystem. now rewrite Hs.
  - intros Hs. unfold BootSystem. rewrite Hs. cbv zeta. cbn [negb].
    destruct (boot_succeeds a); cbn [negb andb].
    + set (h3 := UpdateSpeedLimiterState
                   (set_paused
                      (start_paused
                         (m_settings (host_emit [System_Boot filename] h)))
                      (host_emit [System_Boot filename] h))).
      assert (H3 : m_system h3 = true /\
                   m_paused h3 = start_paused (m_settings h) /\
                   m_settings h3 = m_settings h /\
                   in_sync h3 /\
                   exists es,
                     host_calls h3
                       = host_calls h ++ System_Boot filename :: es).
      { split; [exact Hs|]. split; [reflexivity|]. split; [reflexivity|].
        split; [apply UpdateSpeedLimiterState_in_sync|].
        eexists. unfold h3, UpdateSpeedLimiterState. cbn.
        rewrite <- app_assoc. reflexivity. }
      destruct H3 as (S3 & P3 & T3 & I3 & es3 & C3).
      destruct state_filename as [name|].
      * destruct (LoadState_result a name h3 S3) as (h4 & -> & Hq).
        destruct (quiet_fields _ _ Hq) as (T4 & S4 & P4 & es4 & C4).
        exists (open_succeeds a && load_succeeds a), h4.
        split; [now destruct (open_succeeds a && load_succeeds a)|].
        split; [reflexivity|]. split; [discriminate|]. intros _.
        split; [congruence|]. split; [congruence|].
        split; [apply (in_sync_quiet h3); assumption|].
        exists (es3 ++ es4). rewrite C4, C3, <- app_assoc. reflexivity.
      * exists true, h3. split; [reflexivity|]. split; [reflexivity|].
        split; [discriminate|]. intros _.
        split; [exact S3|]. split; [exact P3|]. split; [exact I3|].
        now exists es3.
    + exists false, (host_emit [System_Boot filename] h).
      split; [reflexivity|]. split; [reflexivity|].
      split; [reflexivity|]. discriminate.
Qed.

Lemma X20_boot_system_outcomes_witness :
  BootSystem all_succeed example_file None example_host = None /\
  exists result h',
    BootSystem (mkAnswers true example_settings true true false true)
      example_file (Some example_path) example_running
      = Some (result, h') /\
    result = false /\
    m_system h' = true /\
    in_sync h'.
Proof.
  split.
  - apply (proj1 (X20_boot_system_outcomes all_succeed example_file None
                    example_host)).
    reflexivity.
  - destruct (proj2 (X20_boot_system_outcomes
                       (mkAnswers true example_settings true true false true)
                       example_file (Some example_path) example_running)
                eq_refl)
      as (result & h' & H & Hr & _ & Hb).
    exists result, h'. split; [exact H|]. split; [exact Hr|].
    destruct (Hb eq_refl) as (Hs & _ & Hi & _). auto.
Defined.
